(** * Arint Screenshot: capture orchestration, region selection and editor history

    A shallow embedding of the extension's three scripts:
    - the background service worker (full-page capture loop, stitching,
      the pending-capture slot),
    - the content script (the region selector's pointer-up handler),
    - the editor (the undo/redo history).

    Browser primitives (scrolling, tab capture, canvas drawing) are modelled
    explicitly; each model states what it covers. *)

From Stdlib Require Import ZArith QArith Qround Qabs List Sorted Bool Lia Lqa.
From Stdlib Require String Ascii.
Import ListNotations.
Open Scope Z_scope.

(* ===================================================================== *)
(** * JavaScript numbers, as far as the code needs them *)
(* ===================================================================== *)

Module JS.

(** The value of a JS arithmetic expression: a finite number (read as the
    rational it denotes; rounding of doubles is not modelled), an infinity
    or NaN. Only [/] produces the non-finite values here. *)
Inductive number : Type :=
| Fin (q : Q)
| PosInf
| NegInf
| NaN.

(** [a / b] on finite operands. *)
Definition div (a b : Q) : number :=
  if Qeq_bool b 0 then
    match a ?= 0 with
    | Gt => PosInf
    | Lt => NegInf
    | Eq => NaN
    end%Q
  else Fin (a / b).

(** [Math.ceil]. *)
Definition ceil (x : number) : number :=
  match x with
  | Fin q => Fin (inject_Z (Qceiling q))
  | other => other
  end.

(** [x - 1]. *)
Definition pred (x : number) : number :=
  match x with
  | Fin q => Fin (q - 1)
  | other => other
  end.

(** [i < x] for a finite [i]. *)
Definition lt (i : Q) (x : number) : bool :=
  match x with
  | Fin q => if Qlt_le_dec i q then true else false
  | PosInf => true
  | NegInf | NaN => false
  end.

(** [i === x] for a finite [i]. *)
Definition eq (i : Q) (x : number) : bool :=
  match x with
  | Fin q => Qeq_bool i q
  | _ => false
  end.

(** [x || 1] on a number: 0 (and NaN) are falsy. *)
Definition or1 (x : Q) : Q := if Qeq_bool x 0 then 1%Q else x.

(** What a completed computation yields: a value, or a thrown exception. *)
Inductive outcome (A : Type) : Type :=
| Ok (a : A)
| Throw.
Arguments Ok {A} a.
Arguments Throw {A}.

Definition bind {A B : Type} (m : outcome A) (k : A -> outcome B) : outcome B :=
  match m with
  | Ok a => k a
  | Throw => Throw
  end.

(** The value of a computation that completed without an exception. *)
Definition value {A : Type} (m : outcome A) : option A :=
  match m with
  | Ok a => Some a
  | Throw => None
  end.

(** [Array.prototype.slice(0, end)]: a negative [end] counts from the back. *)
Definition slice0 {A : Type} (stop : Z) (l : list A) : list A :=
  if stop <? 0
  then firstn (Z.to_nat (Z.max (Z.of_nat (length l) + stop) 0)) l
  else firstn (Z.to_nat stop) l.

(** [arr[i]]: [None] stands for [undefined]. *)
Definition index {A : Type} (l : list A) (i : Z) : option A :=
  if i <? 0 then None else nth_error l (Z.to_nat i).

End JS.

Notation "x <- m ;; k" := (JS.bind m (fun x => k))
  (at level 61, m at next level, right associativity).

(* ===================================================================== *)
(** * Raster images and the 2D canvas *)
(* ===================================================================== *)

Module Raster.

(** One RGBA pixel, packed. *)
Definition pixel : Type := Z.

(** Transparent black, the colour of a fresh canvas. *)
Definition transparent : pixel := 0.

(** Rows of pixels, top row first. *)
Definition grid : Type := list (list pixel).

(** A decoded image ([ImageBitmap], [ImageData], the editor's canvas). *)
Record Bitmap : Type := mkBitmap {
  width : Z;
  height : Z;
  pixels : grid
}.

Definition wf_grid (w h : Z) (g : grid) : Prop :=
  0 <= w /\ 0 <= h /\
  length g = Z.to_nat h /\
  Forall (fun r => length r = Z.to_nat w) g.

Definition wf_bitmap (b : Bitmap) : Prop :=
  wf_grid (width b) (height b) (pixels b).

(** An [OffscreenCanvas] and, encoded, the data URL made from it. The
    surface is [None] when this model does not determine the pixels: a draw
    at sub-pixel coordinates, or with a scaled or flipped rectangle, makes
    the browser resample. The dimensions are always known. *)
Record Canvas : Type := mkCanvas {
  cwidth : Z;
  cheight : Z;
  surface : option grid
}.

(** Row [y] of a canvas whose pixels are determined. *)
Definition row (c : Canvas) (y : Z) : option (list pixel) :=
  match surface c with
  | Some g => if y <? 0 then None else nth_error g (Z.to_nat y)
  | None => None
  end.

(** The data URL of a decoded image. *)
Definition encode (b : Bitmap) : Canvas :=
  {| cwidth := width b; cheight := height b; surface := Some (pixels b) |}.

Definition blank (w h : Z) : grid :=
  repeat (repeat transparent (Z.to_nat w)) (Z.to_nat h).

(** [m] transparent rows of width [w]. *)
Definition blank_rows (w : Z) (m : nat) : grid :=
  repeat (repeat transparent (Z.to_nat w)) m.

(** [src] laid over the front of [dst]; [dst] keeps its length. *)
Fixpoint overlay {A B : Type} (f : A -> B -> B) (src : list A) (dst : list B)
  : list B :=
  match src, dst with
  | s :: src', d :: dst' => f s d :: overlay f src' dst'
  | _, _ => dst
  end.

(** [src] laid over [dst] from position [d] on, clipped to [dst]. *)
Definition place {A B : Type} (f : A -> B -> B) (d : Z) (src : list A)
  (dst : list B) : list B :=
  if d <? 0
  then overlay f (skipn (Z.to_nat (- d)) src) dst
  else firstn (Z.to_nat d) dst ++ overlay f src (skipn (Z.to_nat d) dst).

(** Copying a block of pixels to [(dx, dy)]. Screenshots are opaque, and an
    opaque source replaces what is under it. *)
Definition paint (dx dy : Z) (src dst : grid) : grid :=
  place (place (fun s _ => s) dx) dy src dst.

(** The sub-rectangle of a grid, clipped to it (non-negative arguments). *)
Definition sub_grid (sx sy sw sh : Z) (g : grid) : grid :=
  map (fun r => firstn (Z.to_nat sw) (skipn (Z.to_nat sx) r))
      (firstn (Z.to_nat sh) (skipn (Z.to_nat sy) g)).

(** A coordinate on the pixel grid. *)
Definition on_grid (q : Q) : option Z :=
  if Qeq_bool (inject_Z (Qfloor q)) q then Some (Qfloor q) else None.

(** The integer part of a number (rounding toward zero). *)
Definition integer_part (q : Q) : Z := Z.quot (Qnum q) (Zpos (Qden q)).

(** WebIDL [[EnforceRange] unsigned long long]: take the integer part, then
    refuse what is negative or above 2^53 - 1. *)
Definition enforce_range (q : Q) : JS.outcome Z :=
  let t := integer_part q in
  if (0 <=? t) && (t <=? 2 ^ 53 - 1) then JS.Ok t else JS.Throw.

(** [new OffscreenCanvas(w, h)]. *)
Definition newOffscreenCanvas (w h : Q) : JS.outcome Canvas :=
  w' <- enforce_range w ;;
  h' <- enforce_range h ;;
  JS.Ok {| cwidth := w'; cheight := h'; surface := Some (blank w' h') |}.

(** [ctx.drawImage(img, sx, sy, sw, sh, dx, dy, dw, dh)]. A rectangle of
    zero extent draws nothing. The pixels are determined when every
    coordinate is on the grid, the source rectangle starts inside the image
    and is copied unscaled. *)
Definition drawImage9 (img : Bitmap) (sx sy sw sh dx dy dw dh : Q)
  (c : Canvas) : Canvas :=
  if Qeq_bool sw 0 || Qeq_bool sh 0 then c
  else
    match surface c, on_grid sx, on_grid sy, on_grid sw, on_grid sh,
          on_grid dx, on_grid dy with
    | Some g, Some sx', Some sy', Some sw', Some sh', Some dx', Some dy' =>
        if Qeq_bool sw dw && Qeq_bool sh dh &&
           (0 <=? sx') && (0 <=? sy') && (0 <? sw') && (0 <? sh')
        then {| cwidth := cwidth c; cheight := cheight c;
                surface := Some (paint dx' dy'
                                   (sub_grid sx' sy' sw' sh' (pixels img)) g) |}
        else {| cwidth := cwidth c; cheight := cheight c; surface := None |}
    | _, _, _, _, _, _, _ =>
        {| cwidth := cwidth c; cheight := cheight c; surface := None |}
    end.

(** [ctx.drawImage(img, dx, dy)]: the whole image, unscaled. *)
Definition drawImage3 (img : Bitmap) (dx dy : Q) (c : Canvas) : Canvas :=
  drawImage9 img 0 0 (inject_Z (width img)) (inject_Z (height img))
             dx dy (inject_Z (width img)) (inject_Z (height img)) c.

(** The pixel at column [x], row [y]; transparent black outside the grid. *)
Definition pixel_at (g : grid) (x y : Z) : pixel :=
  if (x <? 0) || (y <? 0) then transparent
  else nth (Z.to_nat x) (nth (Z.to_nat y) g []) transparent.

(** The integers [a], [a + 1], ..., [a + n - 1]. *)
Definition zrange (a n : Z) : list Z :=
  map (fun k => a + Z.of_nat k) (seq 0 (Z.to_nat n)).

(** [ctx.getImageData(sx, sy, sw, sh)] at integer arguments: a copy of the
    rectangle, transparent black where it leaves the canvas. A zero extent
    throws [IndexSizeError]; a negative one flips the rectangle. *)
Definition getImageData (sx sy sw sh : Z) (c : Bitmap) : JS.outcome Bitmap :=
  if (sw =? 0) || (sh =? 0) then JS.Throw
  else
    let x0 := if sw <? 0 then sx + sw else sx in
    let y0 := if sh <? 0 then sy + sh else sy in
    JS.Ok {| width := Z.abs sw;
             height := Z.abs sh;
             pixels := map (fun y => map (fun x => pixel_at (pixels c) x y)
                                         (zrange x0 (Z.abs sw)))
                           (zrange y0 (Z.abs sh)) |}.

(** [ctx.putImageData(imageData, dx, dy)]: the pixels replace the
    canvas's, clipped to it. *)
Definition putImageData (imageData : Bitmap) (dx dy : Z) (c : Bitmap)
  : Bitmap :=
  {| width := width c; height := height c;
     pixels := paint dx dy (pixels imageData) (pixels c) |}.

(** [canvas.width = w; canvas.height = h]: either assignment clears the
    canvas to transparent black. *)
Definition resize (w h : Z) : Bitmap :=
  {| width := w; height := h; pixels := blank w h |}.

(** [l] with its [n]th element replaced through [f] (nothing out of
    range). *)
Fixpoint set_nth {A : Type} (n : nat) (f : A -> A) (l : list A) : list A :=
  match l, n with
  | [], _ => []
  | a :: l', O => f a :: l'
  | a :: l', S n' => a :: set_nth n' f l'
  end.

(** One pixel written; nothing outside the canvas. *)
Definition set_pixel (x y : Z) (p : pixel) (g : grid) : grid :=
  if (x <? 0) || (y <? 0) then g
  else set_nth (Z.to_nat y) (set_nth (Z.to_nat x) (fun _ => p)) g.

End Raster.

(* ===================================================================== *)
(** * Messages between the scripts *)
(* ===================================================================== *)

Module Messages.

(** The rectangle the region selector reports, in viewport coordinates. *)
Record Selection : Type := mkSelection {
  x : Z;
  y : Z;
  width : Z;
  height : Z;
  devicePixelRatio : Q
}.

(** [message.action] of a capture request: ['visible'], ['fullpage'],
    ['selection'], or anything else. *)
Inductive Action : Type :=
| act_visible
| act_fullpage
| act_selection
| act_other.

(** [message.type], with the payload the handler reads. *)
Inductive Message : Type :=
| CAPTURE_REQUEST (action : Action)
| SELECTION_COMPLETE (sel : Selection)
| SELECTION_CANCELLED
| GET_PENDING_CAPTURE
| PAGE_DIMENSIONS.

End Messages.

(* ===================================================================== *)
(** * The background service worker (arint-background.js) *)
(* ===================================================================== *)

Module Background.

Import Raster.

(** [CONFIG]. *)
Definition MAX_PAGE_HEIGHT : Z := 30000.
Definition CAPTURE_DELAY : Z := 100.

(** What [getPageDimensions] returns. The four lengths are DOM integers,
    the ratio is a double. *)
Record Dimensions : Type := mkDimensions {
  scrollWidth : Z;
  scrollHeight : Z;
  viewportWidth : Z;
  viewportHeight : Z;
  devicePixelRatio : Q
}.

(** One element of [captures]. [imageData] is kept decoded: PNG encoding
    and decoding are lossless. *)
Record Capture : Type := mkCapture {
  imageData : Bitmap;
  offsetY : Z;
  isLast : bool
}.

(** A segment whose image is a well-shaped bitmap [w] pixels wide and [h]
    pixels high. *)
Definition viewport_sized (w h : Z) (cap : Capture) : Prop :=
  wf_bitmap (imageData cap)
  /\ width (imageData cap) = w
  /\ height (imageData cap) = h.

(** An encoded image, as handed to the editor. *)
Definition DataURL : Type := Canvas.

(** The worker's mutable state: the module-level [pendingCapture] and the
    editor tabs it has opened. *)
Record State : Type := mkState {
  pendingCapture : option DataURL;
  editorTabs : nat
}.

Definition initial : State := {| pendingCapture := None; editorTabs := 0 |}.

(** What [sendResponse] is called with. *)
Inductive Response : Type :=
| success_true
| imageData_is (d : option DataURL)
| received_true.

(** The browser, as the worker uses it. On one tab: the injected scripts
    ([getPageDimensions], reading [window.scrollY], [window.scrollTo(0, y)])
    and [tabs.captureVisibleTab]; these calls are taken to succeed. For the
    worker's own canvases: [serialises w h] says whether the browser can
    hold and encode a canvas [w] pixels wide and [h] pixels high; where that
    ends is the browser's own affair. *)
Class Browser (Tab : Type) : Type := {
  getPageDimensions : Tab -> Dimensions;
  scrollY : Tab -> Z;
  scrollTo : Z -> Tab -> Tab;
  captureVisibleTab : Tab -> Bitmap;
  serialises : Z -> Z -> bool
}.

(** [openEditor]. *)
Definition openEditor (image : DataURL) (st : State) : State :=
  {| pendingCapture := Some image; editorTabs := S (editorTabs st) |}.

(** The body of the [for (const capture of captures)] loop of
    [stitchImages]. *)
Definition draw_capture (dimensions : Dimensions) (ctx : Canvas)
  (capture : Capture) : Canvas :=
  let img := imageData capture in
  let drawY := (inject_Z (offsetY capture) * devicePixelRatio dimensions)%Q in
  if isLast capture then
    let remainingHeight :=
      (inject_Z (scrollHeight dimensions) * devicePixelRatio dimensions
       - drawY)%Q in
    let sourceY := (inject_Z (height img) - remainingHeight)%Q in
    if Qlt_le_dec 0 sourceY then
      drawImage9 img
        0 sourceY (inject_Z (width img)) remainingHeight
        0 drawY (inject_Z (width img)) remainingHeight ctx
    else drawImage3 img 0 drawY ctx
  else drawImage3 img 0 drawY ctx.

Section Worker.

Context {Tab : Type} `{Browser Tab}.

(** [canvas.convertToBlob({ type: 'image/png' })], read back as a data URL.
    The promise is rejected for a canvas without pixels (a side of 0) and
    for one the browser cannot serialise; the rejection leaves the calling
    function as an exception. *)
Definition convertToBlob (canvas : Canvas) : JS.outcome DataURL :=
  if (cwidth canvas =? 0) || (cheight canvas =? 0) then JS.Throw
  else if serialises (cwidth canvas) (cheight canvas) then JS.Ok canvas
  else JS.Throw.

(** [stitchImages]. *)
Definition stitchImages (captures : list Capture) (dimensions : Dimensions)
  : JS.outcome DataURL :=
  canvas <- newOffscreenCanvas
    (inject_Z (viewportWidth dimensions) * devicePixelRatio dimensions)
    (inject_Z (Z.min (scrollHeight dimensions) MAX_PAGE_HEIGHT)
     * devicePixelRatio dimensions) ;;
  convertToBlob (fold_left (draw_capture dimensions) captures canvas).

(** [cropImage]. *)
Definition cropImage (img : Bitmap) (sel : Messages.Selection)
  : JS.outcome DataURL :=
  let dpr := JS.or1 (Messages.devicePixelRatio sel) in
  let w := (inject_Z (Messages.width sel) * dpr)%Q in
  let h := (inject_Z (Messages.height sel) * dpr)%Q in
  canvas <- newOffscreenCanvas w h ;;
  convertToBlob
    (drawImage9 img
       (inject_Z (Messages.x sel) * dpr) (inject_Z (Messages.y sel) * dpr)
       w h 0 0 w h canvas).

(** The capture loop of [captureFullPage],
    [for (let i = 0; i < captureCount; i++)], with the statements after the
    last [await] of an iteration run at once. [None]: the fuel ran out
    before the loop ended. *)
Fixpoint capture_loop (fuel : nat) (viewportHeight : Z)
  (captureCount : JS.number) (i : Z) (tab : Tab) (captures : list Capture)
  : option (Tab * list Capture) :=
  match fuel with
  | O => None
  | S fuel' =>
      if JS.lt (inject_Z i) captureCount then
        let scrollY := i * viewportHeight in
        let tab := scrollTo scrollY tab in
        let imageData := captureVisibleTab tab in
        capture_loop fuel' viewportHeight captureCount (i + 1) tab
          (captures ++
           [{| imageData := imageData;
               offsetY := scrollY;
               isLast := JS.eq (inject_Z i) (JS.pred captureCount) |}])
      else Some (tab, captures)
  end.

(** [captureCount] of [captureFullPage]. *)
Definition captureCount (dimensions : Dimensions) : JS.number :=
  let totalHeight := Z.min (scrollHeight dimensions) MAX_PAGE_HEIGHT in
  JS.ceil (JS.div (inject_Z totalHeight)
                  (inject_Z (viewportHeight dimensions))).

(** [captureFullPage] up to the end of its loop: the segments captured. *)
Definition capture_segments (fuel : nat) (tab : Tab)
  : option (Tab * list Capture) :=
  let dimensions := getPageDimensions tab in
  capture_loop fuel (viewportHeight dimensions) (captureCount dimensions)
    0 tab [].

(** The tab after the scroll requests of the loop's first [k] iterations:
    [window.scrollTo(0, 0)], [window.scrollTo(0, viewportHeight)], ...,
    [window.scrollTo(0, (k - 1) * viewportHeight)], one after the other. *)
Fixpoint scrolled (viewportHeight : Z) (k : nat) (tab : Tab) : Tab :=
  match k with
  | O => tab
  | S k' =>
      scrollTo (Z.of_nat k' * viewportHeight) (scrolled viewportHeight k' tab)
  end.

(** Segment [i] of [n]: what the tab shows once it has been asked to scroll
    to [i * viewportHeight], tagged with that offset. *)
Definition segment (viewportHeight n : Z) (tab : Tab) (i : Z) : Capture :=
  {| imageData :=
       captureVisibleTab (scrolled viewportHeight (S (Z.to_nat i)) tab);
     offsetY := i * viewportHeight;
     isLast := i =? n - 1 |}.

(** [captureFullPage]. [None]: out of fuel; [Throw]: the error is logged
    and thrown again, nothing is handed to the editor. *)
Definition captureFullPage (fuel : nat) (tab : Tab) (st : State)
  : option (JS.outcome (Tab * State)) :=
  let dimensions := getPageDimensions tab in
  let originalScroll := scrollY tab in
  match capture_segments fuel tab with
  | None => None
  | Some (tab, captures) =>
      let tab := scrollTo originalScroll tab in
      Some (stitchedImage <- stitchImages captures dimensions ;;
            JS.Ok (tab, openEditor stitchedImage st))
  end.

(** [captureVisibleArea]. *)
Definition captureVisibleArea (tab : Tab) (st : State) : State :=
  openEditor (encode (captureVisibleTab tab)) st.

(** [handleSelectionComplete]. *)
Definition handleSelectionComplete (sel : Messages.Selection) (tab : Tab)
  (st : State) : JS.outcome State :=
  croppedImage <- cropImage (captureVisibleTab tab) sel ;;
  JS.Ok (openEditor croppedImage st).

(** [handleCaptureRequest]: its [catch] logs the error and goes on.
    [initiateSelection] only injects the content script. *)
Definition handleCaptureRequest (fuel : nat) (action : Messages.Action)
  (tab : Tab) (st : State) : option (Tab * State) :=
  match action with
  | Messages.act_visible => Some (tab, captureVisibleArea tab st)
  | Messages.act_fullpage =>
      match captureFullPage fuel tab st with
      | None => None
      | Some (JS.Ok r) => Some r
      | Some JS.Throw => Some (tab, st)
      end
  | Messages.act_selection => Some (tab, st)
  | Messages.act_other => Some (tab, st)
  end.

(** The [runtime.onMessage] listener, one message handled to its end. *)
Definition onMessage (fuel : nat) (message : Messages.Message) (tab : Tab)
  (st : State) : option (Tab * State * option Response) :=
  match message with
  | Messages.CAPTURE_REQUEST action =>
      match handleCaptureRequest fuel action tab st with
      | None => None
      | Some (tab, st) => Some (tab, st, Some success_true)
      end
  | Messages.SELECTION_COMPLETE sel =>
      match handleSelectionComplete sel tab st with
      | JS.Ok st => Some (tab, st, None)
      | JS.Throw => Some (tab, st, None)
      end
  | Messages.SELECTION_CANCELLED => Some (tab, st, None)
  | Messages.GET_PENDING_CAPTURE =>
      Some (tab,
            {| pendingCapture := None; editorTabs := editorTabs st |},
            Some (imageData_is (pendingCapture st)))
  | Messages.PAGE_DIMENSIONS => Some (tab, st, Some received_true)
  end.

End Worker.

End Background.

(* ===================================================================== *)
(** * A reference browser *)
(* ===================================================================== *)

Module Reference.

Import Raster Background.

(** A tab showing one document: its geometry in CSS pixels, the device
    pixels per CSS pixel, the whole document's device pixels, and how far
    it is scrolled. *)
Record Page : Type := mkPage {
  page_width : Z;
  page_height : Z;
  view_width : Z;
  view_height : Z;
  ratio : Z;
  document : grid;
  position : Z
}.

(** [getPageDimensions], as injected into the page. A [page_height] below
    the [view_height] is a document shorter than the window:
    [window.innerHeight] counts a horizontal scrollbar, [scrollHeight] does
    not. *)
Definition dimensions_of (p : Page) : Dimensions :=
  {| scrollWidth := page_width p;
     scrollHeight := page_height p;
     viewportWidth := view_width p;
     viewportHeight := view_height p;
     devicePixelRatio := JS.or1 (inject_Z (ratio p)) |}.

(** [window.scrollTo(0, y)]: a page scrolls no further than its end. *)
Definition scroll_to (y : Z) (p : Page) : Page :=
  {| page_width := page_width p; page_height := page_height p;
     view_width := view_width p; view_height := view_height p;
     ratio := ratio p; document := document p;
     position := Z.max 0 (Z.min y (page_height p - view_height p)) |}.

(** The viewport's device pixels: the document's rows from the scroll
    position on, transparent where the document ends. *)
Definition capture (p : Page) : Bitmap :=
  let w := Z.to_nat (view_width p * ratio p) in
  let h := Z.to_nat (view_height p * ratio p) in
  {| width := view_width p * ratio p;
     height := view_height p * ratio p;
     pixels :=
       map (fun r => firstn w (r ++ repeat transparent w))
           (firstn h (skipn (Z.to_nat (position p * ratio p)) (document p)
                      ++ repeat [] h)) |}.

(** The canvases the reference browser holds and encodes: up to 32767
    pixels a side and 2^28 pixels in all. *)
Definition canvas_side : Z := 32767.
Definition canvas_area : Z := 2 ^ 28.

Definition can_serialise (w h : Z) : bool :=
  (w <=? canvas_side) && (h <=? canvas_side) && (w * h <=? canvas_area).

#[export] Instance browser : Browser Page :=
  {| getPageDimensions := dimensions_of;
     scrollY := position;
     scrollTo := scroll_to;
     captureVisibleTab := capture;
     serialises := can_serialise |}.

(** A document of [h] rows of [w] pixels, row [y] painted in colour
    [y + 1]. *)
Definition ruled (w h : Z) : grid :=
  map (fun y => repeat (y + 1) (Z.to_nat w)) (zrange 0 h).

(** A ruled page at ratio 1, one pixel wide, scrolled to the top. *)
Definition strip (page_height view_height : Z) : Page :=
  {| page_width := 1; page_height := page_height;
     view_width := 1; view_height := view_height;
     ratio := 1; document := ruled 1 page_height; position := 0 |}.

End Reference.

(* ===================================================================== *)
(** * The region selector (content script) *)
(* ===================================================================== *)

Module Content.

Import Messages.

(** The part of a [MouseEvent] the handlers read. *)
Record MouseEvent : Type := mkMouseEvent {
  clientX : Z;
  clientY : Z
}.

(** The script's variables and what it has put on the page. [active] is
    [window.__arintSelectionActive]; the listeners are attached exactly
    while it is set. [box] is the selection box's left, top, width and
    height. [timers] are the callbacks [setTimeout] has not run yet, each
    with the selection it captured. *)
Record Selector : Type := mkSelector {
  active : bool;
  overlayShown : bool;
  box : option (Z * Z * Z * Z);
  isSelecting : bool;
  startX : Z;
  startY : Z;
  timers : list Selection
}.

(** [init], on a page where no selection is active. *)
Definition init : Selector :=
  {| active := true; overlayShown := true; box := None;
     isSelecting := false; startX := 0; startY := 0; timers := [] |}.

(** [cleanup]. *)
Definition cleanup (s : Selector) : Selector :=
  {| active := false; overlayShown := false; box := None;
     isSelecting := isSelecting s; startX := startX s; startY := startY s;
     timers := timers s |}.

(** [onMouseDown]. *)
Definition onMouseDown (e : MouseEvent) (s : Selector) : Selector :=
  {| active := active s; overlayShown := overlayShown s;
     box := Some (clientX e, clientY e, 0, 0);
     isSelecting := true; startX := clientX e; startY := clientY e;
     timers := timers s |}.

(** [onMouseMove], without the placement of the dimension label. *)
Definition onMouseMove (e : MouseEvent) (s : Selector) : Selector :=
  if negb (isSelecting s) then s
  else
    let x := Z.min (startX s) (clientX e) in
    let y := Z.min (startY s) (clientY e) in
    let width := Z.abs (clientX e - startX s) in
    let height := Z.abs (clientY e - startY s) in
    {| active := active s; overlayShown := overlayShown s;
       box := Some (x, y, width, height);
       isSelecting := isSelecting s; startX := startX s; startY := startY s;
       timers := timers s |}.

(** [onMouseUp]: the new state and the messages sent before it returns.
    [dpr] is [window.devicePixelRatio]. *)
Definition onMouseUp (dpr : Q) (e : MouseEvent) (s : Selector)
  : Selector * list Message :=
  if negb (isSelecting s) then (s, [])
  else
    let s := {| active := active s; overlayShown := overlayShown s;
                box := box s; isSelecting := false;
                startX := startX s; startY := startY s;
                timers := timers s |} in
    let x := Z.min (startX s) (clientX e) in
    let y := Z.min (startY s) (clientY e) in
    let width := Z.abs (clientX e - startX s) in
    let height := Z.abs (clientY e - startY s) in
    if (width <? 10) || (height <? 10) then
      (cleanup s, [SELECTION_CANCELLED])
    else
      let selection :=
        {| x := x; y := y; width := width; height := height;
           devicePixelRatio := JS.or1 dpr |} in
      ({| active := active s; overlayShown := false; box := None;
          isSelecting := isSelecting s;
          startX := startX s; startY := startY s;
          timers := timers s ++ [selection] |}, []).

(** The callback [onMouseUp] gave to [setTimeout], run 50 ms later. *)
Definition onTimeout (s : Selector) : Selector * list Message :=
  match timers s with
  | [] => (s, [])
  | selection :: rest =>
      (cleanup {| active := active s; overlayShown := overlayShown s;
                  box := box s; isSelecting := isSelecting s;
                  startX := startX s; startY := startY s;
                  timers := rest |},
       [SELECTION_COMPLETE selection])
  end.

(** [onKeyDown]; [escape] tells whether [e.key === 'Escape']. *)
Definition onKeyDown (escape : bool) (s : Selector)
  : Selector * list Message :=
  if escape then (cleanup s, [SELECTION_CANCELLED]) else (s, []).

(** What the page delivers to the script. *)
Inductive Event : Type :=
| MouseDown (e : MouseEvent)
| MouseMove (e : MouseEvent)
| MouseUp (e : MouseEvent)
| KeyDown (escape : bool)
| Timeout.

(** One event handled: a listener runs only while it is attached, a timer
    callback whenever it is due. *)
Definition dispatch (dpr : Q) (ev : Event) (s : Selector)
  : Selector * list Message :=
  match ev with
  | Timeout => onTimeout s
  | MouseDown e =>
      if active s && overlayShown s then (onMouseDown e s, []) else (s, [])
  | MouseMove e => if active s then (onMouseMove e s, []) else (s, [])
  | MouseUp e => if active s then onMouseUp dpr e s else (s, [])
  | KeyDown escape => if active s then onKeyDown escape s else (s, [])
  end.

(** A sequence of events, with every message sent on the way. *)
Fixpoint run (dpr : Q) (evs : list Event) (s : Selector)
  : Selector * list Message :=
  match evs with
  | [] => (s, [])
  | ev :: evs' =>
      let '(s1, out1) := dispatch dpr ev s in
      let '(s2, out2) := run dpr evs' s1 in
      (s2, out1 ++ out2)
  end.

(** The rectangles among the messages sent. *)
Fixpoint selections (out : list Message) : list Selection :=
  match out with
  | [] => []
  | SELECTION_COMPLETE sel :: out' => sel :: selections out'
  | _ :: out' => selections out'
  end.

(** While a selection waits for its timer, no drag can be in progress:
    the overlay that takes the pointer-down is hidden. *)
Definition settled (s : Selector) : Prop :=
  timers s = [] \/ (isSelecting s = false /\ overlayShown s = false).

Definition is_timeout (ev : Event) : bool :=
  match ev with
  | Timeout => true
  | _ => false
  end.

End Content.

(* ===================================================================== *)
(** * The editor (ArintEditor): edits and the undo/redo history *)
(* ===================================================================== *)

Module Editor.

(** [this.currentTool]. *)
Inductive Tool : Type :=
| select
| crop
| pen.

Definition Tool_eqb (a b : Tool) : bool :=
  match a, b with
  | select, select | crop, crop | pen, pen => true
  | _, _ => false
  end.

(** A point in canvas coordinates, taken on the pixel grid: whole numbers,
    as [getCanvasCoordinates] yields them for a canvas shown at its own
    size at a whole-pixel offset. Under zoom it yields fractions, which
    [getImageData] and the canvas's size setters cut down to integers: such
    points are outside this model. *)
Record Point : Type := mkPoint {
  x : Z;
  y : Z
}.

(** One element of [this.history]. *)
Record HistoryEntry : Type := mkEntry {
  imageData : Raster.Bitmap;
  width : Z;
  height : Z
}.

(** The fields of [ArintEditor] that edits and history read or write. *)
Record ArintEditor : Type := mkEditor {
  mainCanvas : Raster.Bitmap;
  overlayCanvas : Raster.Bitmap;
  currentTool : Tool;
  history : list HistoryEntry;
  historyIndex : Z;
  isDrawing : bool;
  cropStart : option Point;
  cropEnd : option Point;
  isCropping : bool
}.

(** [this.maxHistory], set once in the constructor. *)
Definition maxHistory : Z := 20.

(** The constructor's state, on the page's two canvases. *)
Definition constructor (main overlay : Raster.Bitmap) : ArintEditor :=
  {| mainCanvas := main; overlayCanvas := overlay;
     currentTool := select;
     history := []; historyIndex := -1;
     isDrawing := false;
     cropStart := None; cropEnd := None; isCropping := false |}.

Definition set_canvases (main overlay : Raster.Bitmap) (ed : ArintEditor)
  : ArintEditor :=
  {| mainCanvas := main; overlayCanvas := overlay;
     currentTool := currentTool ed;
     history := history ed; historyIndex := historyIndex ed;
     isDrawing := isDrawing ed;
     cropStart := cropStart ed; cropEnd := cropEnd ed;
     isCropping := isCropping ed |}.

Definition set_history (h : list HistoryEntry) (i : Z) (ed : ArintEditor)
  : ArintEditor :=
  {| mainCanvas := mainCanvas ed; overlayCanvas := overlayCanvas ed;
     currentTool := currentTool ed;
     history := h; historyIndex := i;
     isDrawing := isDrawing ed;
     cropStart := cropStart ed; cropEnd := cropEnd ed;
     isCropping := isCropping ed |}.

Definition set_isDrawing (b : bool) (ed : ArintEditor) : ArintEditor :=
  {| mainCanvas := mainCanvas ed; overlayCanvas := overlayCanvas ed;
     currentTool := currentTool ed;
     history := history ed; historyIndex := historyIndex ed;
     isDrawing := b;
     cropStart := cropStart ed; cropEnd := cropEnd ed;
     isCropping := isCropping ed |}.

Definition set_crop (cs ce : option Point) (cropping : bool)
  (ed : ArintEditor) : ArintEditor :=
  {| mainCanvas := mainCanvas ed; overlayCanvas := overlayCanvas ed;
     currentTool := currentTool ed;
     history := history ed; historyIndex := historyIndex ed;
     isDrawing := isDrawing ed;
     cropStart := cs; cropEnd := ce;
     isCropping := cropping |}.

Definition set_tool (t : Tool) (ed : ArintEditor) : ArintEditor :=
  {| mainCanvas := mainCanvas ed; overlayCanvas := overlayCanvas ed;
     currentTool := t;
     history := history ed; historyIndex := historyIndex ed;
     isDrawing := isDrawing ed;
     cropStart := cropStart ed; cropEnd := cropEnd ed;
     isCropping := isCropping ed |}.

(** [clearOverlay]. *)
Definition clearOverlay (ed : ArintEditor) : ArintEditor :=
  set_canvases (mainCanvas ed)
    (Raster.resize (Raster.width (overlayCanvas ed))
                   (Raster.height (overlayCanvas ed))) ed.

(** [saveState]. *)
Definition saveState (ed : ArintEditor) : JS.outcome ArintEditor :=
  let history1 :=
    if historyIndex ed <? Z.of_nat (length (history ed)) - 1
    then JS.slice0 (historyIndex ed + 1) (history ed)
    else history ed in
  imageData <- Raster.getImageData 0 0
                 (Raster.width (mainCanvas ed))
                 (Raster.height (mainCanvas ed)) (mainCanvas ed) ;;
  let history2 :=
    history1 ++ [{| imageData := imageData;
                    width := Raster.width (mainCanvas ed);
                    height := Raster.height (mainCanvas ed) |}] in
  if maxHistory <? Z.of_nat (length history2)
  then JS.Ok (set_history (tl history2) (historyIndex ed) ed)
  else JS.Ok (set_history history2 (historyIndex ed + 1) ed).

(** The canvas [restoreState] leaves for a history entry. *)
Definition restored (state : HistoryEntry) : Raster.Bitmap :=
  Raster.putImageData (imageData state) 0 0
    (Raster.resize (width state) (height state)).

(** [restoreState]; [None] is [undefined], whose [width] cannot be read. *)
Definition restoreState (state : option HistoryEntry) (ed : ArintEditor)
  : JS.outcome ArintEditor :=
  match state with
  | None => JS.Throw
  | Some state =>
      JS.Ok (set_canvases (restored state)
               (Raster.resize (width state) (height state)) ed)
  end.

(** [undo]. *)
Definition undo (ed : ArintEditor) : JS.outcome ArintEditor :=
  if 0 <? historyIndex ed then
    let ed := set_history (history ed) (historyIndex ed - 1) ed in
    restoreState (JS.index (history ed) (historyIndex ed)) ed
  else JS.Ok ed.

(** [redo]. *)
Definition redo (ed : ArintEditor) : JS.outcome ArintEditor :=
  if historyIndex ed <? Z.of_nat (length (history ed)) - 1 then
    let ed := set_history (history ed) (historyIndex ed + 1) ed in
    restoreState (JS.index (history ed) (historyIndex ed)) ed
  else JS.Ok ed.

(** [loadImage], once the image has been decoded. *)
Definition loadImage (img : Raster.Bitmap) (ed : ArintEditor)
  : JS.outcome ArintEditor :=
  let w := Raster.width img in
  let h := Raster.height img in
  saveState
    (set_canvases
       {| Raster.width := w; Raster.height := h;
          Raster.pixels :=
            Raster.paint 0 0 (Raster.pixels img) (Raster.blank w h) |}
       (Raster.resize w h) ed).

(** [startDrawing]. *)
Definition startDrawing (ed : ArintEditor) : ArintEditor :=
  set_isDrawing true ed.

(** [draw]: the pixels the stroke segment inks are given with the event,
    rasterising the curve is the canvas's business. *)
Definition draw (ink : list (Z * Z * Raster.pixel)) (ed : ArintEditor)
  : ArintEditor :=
  if negb (isDrawing ed) then ed
  else
    set_canvases
      {| Raster.width := Raster.width (mainCanvas ed);
         Raster.height := Raster.height (mainCanvas ed);
         Raster.pixels :=
           fold_left (fun g '(x, y, p) => Raster.set_pixel x y p g) ink
                     (Raster.pixels (mainCanvas ed)) |}
      (overlayCanvas ed) ed.

(** [stopDrawing]. *)
Definition stopDrawing (ed : ArintEditor) : JS.outcome ArintEditor :=
  if isDrawing ed then saveState (set_isDrawing false ed) else JS.Ok ed.

(** [cancelCrop]. *)
Definition cancelCrop (ed : ArintEditor) : ArintEditor :=
  clearOverlay (set_crop None None false ed).

(** [setTool]. *)
Definition setTool (tool : Tool) (ed : ArintEditor) : ArintEditor :=
  let ed :=
    if Tool_eqb (currentTool ed) crop && negb (Tool_eqb tool crop)
    then cancelCrop ed else ed in
  clearOverlay (set_tool tool ed).

(** [startCrop]. *)
Definition startCrop (x y : Z) (ed : ArintEditor) : ArintEditor :=
  set_crop (Some {| x := x; y := y |}) (Some {| x := x; y := y |}) true ed.

(** [updateCrop], without the overlay's drawing. *)
Definition updateCrop (x y : Z) (ed : ArintEditor) : ArintEditor :=
  set_crop (cropStart ed) (Some {| x := x; y := y |}) (isCropping ed) ed.

(** [finishCropSelection]; a selection large enough only enables the
    apply button. *)
Definition finishCropSelection (ed : ArintEditor) : ArintEditor :=
  let ed := set_crop (cropStart ed) (cropEnd ed) false ed in
  match cropStart ed, cropEnd ed with
  | Some cs, Some ce =>
      let width := Z.abs (x ce - x cs) in
      let height := Z.abs (y ce - y cs) in
      if (10 <? width) && (10 <? height) then ed else cancelCrop ed
  | _, _ => ed
  end.

(** [applyCrop]. *)
Definition applyCrop (ed : ArintEditor) : JS.outcome ArintEditor :=
  match cropStart ed, cropEnd ed with
  | Some cs, Some ce =>
      let x0 := Z.min (x cs) (x ce) in
      let y0 := Z.min (y cs) (y ce) in
      let width := Z.abs (x ce - x cs) in
      let height := Z.abs (y ce - y cs) in
      imageData <- Raster.getImageData x0 y0 width height (mainCanvas ed) ;;
      ed <- saveState
              (set_canvases
                 (Raster.putImageData imageData 0 0
                    (Raster.resize width height))
                 (Raster.resize width height) ed) ;;
      JS.Ok (cancelCrop ed)
  | _, _ => JS.Ok ed
  end.

(** An edit: a pen stroke from pointer-down to pointer-up, or a crop
    dragged from one corner to the other and applied. *)
Inductive Edit : Type :=
| Stroke (ink : list (Z * Z * Raster.pixel))
| Crop (from to : Point).

Definition perform (e : Edit) (ed : ArintEditor) : JS.outcome ArintEditor :=
  match e with
  | Stroke ink => stopDrawing (draw ink (startDrawing ed))
  | Crop a b =>
      applyCrop
        (finishCropSelection
           (updateCrop (x b) (y b) (startCrop (x a) (y a) ed)))
  end.

(** The edits that get committed: every stroke, and a crop whose rectangle
    [finishCropSelection] accepts. *)
Definition committed (e : Edit) : Prop :=
  match e with
  | Stroke _ => True
  | Crop a b => 10 < Z.abs (x b - x a) /\ 10 < Z.abs (y b - y a)
  end.

(** [n] times the same operation, stopping at the first exception. *)
Fixpoint times (n : nat) (op : ArintEditor -> JS.outcome ArintEditor)
  (ed : ArintEditor) : JS.outcome ArintEditor :=
  match n with
  | O => JS.Ok ed
  | S n' => ed <- op ed ;; times n' op ed
  end.

(** Edits performed one after the other. *)
Fixpoint perform_all (es : list Edit) (ed : ArintEditor)
  : JS.outcome ArintEditor :=
  match es with
  | [] => JS.Ok ed
  | e :: es' => ed <- perform e ed ;; perform_all es' ed
  end.

(** The entry under the history cursor. *)
Definition current (ed : ArintEditor) : option HistoryEntry :=
  JS.index (history ed) (historyIndex ed).

(** The states the editor gets into: from the constructor on two fresh
    canvases, through its methods, each run to its end. *)
Inductive reachable : ArintEditor -> Prop :=
| reach_constructor (w h w' h' : Z) :
    0 <= w -> 0 <= h ->
    reachable (constructor (Raster.resize w h) (Raster.resize w' h'))
| reach_loadImage (img : Raster.Bitmap) (ed ed' : ArintEditor) :
    reachable ed -> Raster.wf_bitmap img ->
    loadImage img ed = JS.Ok ed' -> reachable ed'
| reach_setTool (tool : Tool) (ed : ArintEditor) :
    reachable ed -> reachable (setTool tool ed)
| reach_startDrawing (ed : ArintEditor) :
    reachable ed -> reachable (startDrawing ed)
| reach_draw (ink : list (Z * Z * Raster.pixel)) (ed : ArintEditor) :
    reachable ed -> reachable (draw ink ed)
| reach_stopDrawing (ed ed' : ArintEditor) :
    reachable ed -> stopDrawing ed = JS.Ok ed' -> reachable ed'
| reach_startCrop (x y : Z) (ed : ArintEditor) :
    reachable ed -> reachable (startCrop x y ed)
| reach_updateCrop (x y : Z) (ed : ArintEditor) :
    reachable ed -> reachable (updateCrop x y ed)
| reach_finishCropSelection (ed : ArintEditor) :
    reachable ed -> reachable (finishCropSelection ed)
| reach_applyCrop (ed ed' : ArintEditor) :
    reachable ed -> applyCrop ed = JS.Ok ed' -> reachable ed'
| reach_cancelCrop (ed : ArintEditor) :
    reachable ed -> reachable (cancelCrop ed)
| reach_undo (ed ed' : ArintEditor) :
    reachable ed -> undo ed = JS.Ok ed' -> reachable ed'
| reach_redo (ed ed' : ArintEditor) :
    reachable ed -> redo ed = JS.Ok ed' -> reachable ed'.

(** What holds of the history in every reachable state. *)
Definition history_ok (ed : ArintEditor) : Prop :=
  -1 <= historyIndex ed <= Z.of_nat (length (history ed)) - 1 /\
  Z.of_nat (length (history ed)) <= maxHistory.

(** The state [restoreState] leaves once the cursor has moved to [j],
    where entry [e] is. *)
Definition moved_to (j : Z) (e : HistoryEntry) (ed : ArintEditor)
  : ArintEditor :=
  set_canvases (restored e) (Raster.resize (width e) (height e))
    (set_history (history ed) j ed).

(** The canvas shows the entry under the cursor. *)
Definition synced (ed : ArintEditor) : Prop :=
  forall e, current ed = Some e -> mainCanvas ed = restored e.

(** The canvas has the size of the entry under the cursor. *)
Definition shows_size (ed : ArintEditor) : Prop :=
  forall e,
    current ed = Some e ->
    Raster.width (mainCanvas ed) = width e /\
    Raster.height (mainCanvas ed) = height e.

Definition entry_ok (e : HistoryEntry) : Prop :=
  0 <= width e /\ 0 <= height e.

(** An editor on two fresh 2 x 2 canvases. *)
Definition fresh : ArintEditor :=
  constructor (Raster.resize 2 2) (Raster.resize 2 2).

(** The invariant of the reachable states. *)
Definition invariant (ed : ArintEditor) : Prop :=
  history_ok ed /\
  Raster.wf_bitmap (mainCanvas ed) /\
  shows_size ed /\
  Forall entry_ok (history ed).

(** The entry [saveState] pushes for a canvas. *)
Definition snapshot (c : Raster.Bitmap) : HistoryEntry :=
  {| imageData := c; width := Raster.width c; height := Raster.height c |}.

(** [ed'] is what a [saveState] leaves of a history [h] with cursor [i]:
    the entries after the cursor are gone, the canvas's snapshot is the
    newest entry, and the oldest entry went if the history was full. *)
Definition saved (h : list HistoryEntry) (i : Z) (ed' : ArintEditor) : Prop :=
  history ed' =
    (if maxHistory <? i + 2
     then tl (h ++ [snapshot (mainCanvas ed')])
     else firstn (Z.to_nat (i + 1)) h ++ [snapshot (mainCanvas ed')]) /\
  historyIndex ed' = (if maxHistory <? i + 2 then i else i + 1) /\
  Raster.wf_bitmap (mainCanvas ed').

End Editor.

(* ===================================================================== *)
(** * The region selector's sessions *)
(* ===================================================================== *)

Module ContentStates.
Import Messages Content.

(** The selector is off the page: overlay and boxes removed, listeners
    detached, [window.__arintSelectionActive] false. *)
Definition torn_down (s : Selector) : Prop :=
  active s = false /\ overlayShown s = false /\ box s = None.

(** A rectangle [onMouseUp] lets through. *)
Definition accepted (r : Selection) : Prop :=
  10 <= width r /\ 10 <= height r /\ Qeq_bool (devicePixelRatio r) 0 = false.

End ContentStates.

(* ===================================================================== *)
(** * The editor's page: zoom, pan, pointer and key handlers, start-up *)
(* ===================================================================== *)

Module EditorUI.

Import Editor.
Import String.StringSyntax.
#[local] Open Scope string_scope.
#[local] Open Scope Z_scope.

(** The fields of [ArintEditor] beside those above: the zoom level and the
    pan in progress. *)
Record View : Type := mkView {
  zoom : Q;
  isPanning : bool;
  panStart : Z * Z;
  scrollStart : Z * Z
}.

(** The editor object: the canvases with their history, and the view. *)
Record Session : Type := mkSession {
  editor : ArintEditor;
  view : View
}.

(** [this.minZoom], [this.maxZoom]. *)
Definition minZoom : Q := 1 # 10.
Definition maxZoom : Q := 5.

(** The constructor's state, on the page's two canvases. *)
Definition start (main overlay : Raster.Bitmap) : Session :=
  {| editor := constructor main overlay;
     view := {| zoom := 1; isPanning := false;
                panStart := (0, 0); scrollStart := (0, 0) |} |}.

(** [Math.max], [Math.min] and [Math.round] on finite numbers. *)
Definition max (a b : Q) : Q := if Qlt_le_dec a b then b else a.
Definition min (a b : Q) : Q := if Qlt_le_dec b a then b else a.
Definition round (q : Q) : Z := Qfloor (q + (1 # 2)).

(** [setZoom]. *)
Definition setZoom (level : Q) (v : View) : View :=
  {| zoom := max minZoom (min maxZoom level);
     isPanning := isPanning v;
     panStart := panStart v; scrollStart := scrollStart v |}.

(** The text [setZoom] puts in the zoom label, without its percent sign. *)
Definition zoomLabel (v : View) : Z := round (zoom v * 100).

(** [zoomIn], [zoomOut], [resetZoom]. *)
Definition zoomIn (v : View) : View := setZoom (zoom v * (5 # 4)) v.
Definition zoomOut (v : View) : View := setZoom (zoom v / (5 # 4)) v.
Definition resetZoom (v : View) : View := setZoom 1 v.

(** [onWheel]; [modifier] is [e.ctrlKey || e.metaKey]. *)
Definition onWheel (modifier : bool) (deltaY : Q) (v : View) : View :=
  if modifier then
    let delta := if Qlt_le_dec 0 deltaY then 9 # 10 else 11 # 10 in
    setZoom (zoom v * delta) v
  else v.

(** [startPan]; [scroll] is the container's [scrollLeft] and [scrollTop]. *)
Definition startPan (e : Content.MouseEvent) (scroll : Z * Z) (v : View)
  : View :=
  {| zoom := zoom v; isPanning := true;
     panStart := (Content.clientX e, Content.clientY e);
     scrollStart := scroll |}.

(** [pan]: what it assigns to the container's [scrollLeft] and
    [scrollTop]. *)
Definition pan (e : Content.MouseEvent) (v : View) : option (Z * Z) :=
  if negb (isPanning v) then None
  else
    let dx := Content.clientX e - fst (panStart v) in
    let dy := Content.clientY e - snd (panStart v) in
    Some (fst (scrollStart v) - dx, snd (scrollStart v) - dy).

(** [stopPan]. *)
Definition stopPan (v : View) : View :=
  {| zoom := zoom v; isPanning := false;
     panStart := panStart v; scrollStart := scrollStart v |}.

Definition with_editor (ed : ArintEditor) (s : Session) : Session :=
  {| editor := ed; view := view s |}.

Definition with_view (v : View) (s : Session) : Session :=
  {| editor := editor s; view := v |}.

(** [onMouseDown]. [coords] is what [getCanvasCoordinates] returns for the
    event, [None] for [null], taken on the pixel grid. *)
Definition onMouseDown (coords : option Point) (e : Content.MouseEvent)
  (scroll : Z * Z) (s : Session) : Session :=
  match coords with
  | None => s
  | Some p =>
      match currentTool (editor s) with
      | pen => with_editor (startDrawing (editor s)) s
      | crop => with_editor (startCrop (x p) (y p) (editor s)) s
      | select => with_view (startPan e scroll (view s)) s
      end
  end.

(** [onMouseMove]: the new state and what a pan assigns to the container's
    scroll offsets. [ink] is what the stroke to [coords] inks. *)
Definition onMouseMove (coords : option Point)
  (ink : list (Z * Z * Raster.pixel)) (e : Content.MouseEvent) (s : Session)
  : Session * option (Z * Z) :=
  match coords with
  | None => (s, None)
  | Some p =>
      match currentTool (editor s) with
      | pen =>
          if isDrawing (editor s)
          then (with_editor (draw ink (editor s)) s, None)
          else (s, None)
      | crop =>
          if isCropping (editor s)
          then (with_editor (updateCrop (x p) (y p) (editor s)) s, None)
          else (s, None)
      | select =>
          if isPanning (view s) then (s, pan e (view s)) else (s, None)
      end
  end.

(** [onMouseUp], also the handler of [mouseleave]. *)
Definition onMouseUp (s : Session) : JS.outcome Session :=
  match currentTool (editor s) with
  | pen => ed <- stopDrawing (editor s) ;; JS.Ok (with_editor ed s)
  | crop => JS.Ok (with_editor (finishCropSelection (editor s)) s)
  | select => JS.Ok (with_view (stopPan (view s)) s)
  end.

(** What the page delivers to the canvas. *)
Inductive Pointer : Type :=
| Down (coords : option Point) (e : Content.MouseEvent) (scroll : Z * Z)
| Move (coords : option Point) (ink : list (Z * Z * Raster.pixel))
       (e : Content.MouseEvent)
| Up.

Definition pointer (ev : Pointer) (s : Session) : JS.outcome Session :=
  match ev with
  | Down coords e scroll => JS.Ok (onMouseDown coords e scroll s)
  | Move coords ink e => JS.Ok (fst (onMouseMove coords ink e s))
  | Up => onMouseUp s
  end.

(** Pointer events one after the other, up to the first exception. *)
Fixpoint pointers (evs : list Pointer) (s : Session) : JS.outcome Session :=
  match evs with
  | [] => JS.Ok s
  | ev :: evs' => s <- pointer ev s ;; pointers evs' s
  end.

(** [String.prototype.toLowerCase] on ASCII; the handler compares its
    result with ASCII names only. *)
Definition lower (c : Ascii.ascii) : Ascii.ascii :=
  let n := Ascii.nat_of_ascii c in
  if ((65 <=? n) && (n <=? 90))%nat then Ascii.ascii_of_nat (n + 32) else c.

Fixpoint toLowerCase (s : String.string) : String.string :=
  match s with
  | String.EmptyString => String.EmptyString
  | String.String c s' => String.String (lower c) (toLowerCase s')
  end.

(** The part of a [KeyboardEvent] the handler reads. *)
Record KeyboardEvent : Type := mkKeyboardEvent {
  key : String.string;
  ctrlKey : bool;
  metaKey : bool;
  shiftKey : bool
}.

(** What leaves the editor: the image copied or downloaded. *)
Inductive Export : Type :=
| copied (image : Raster.Bitmap)
| downloaded (image : Raster.Bitmap).

(** [onKeyDown]: the new state and the exports started. *)
Definition onKeyDown (e : KeyboardEvent) (s : Session)
  : JS.outcome (Session * list Export) :=
  let k := toLowerCase (key e) in
  let ed := editor s in
  if ctrlKey e || metaKey e then
    if String.eqb k "z" then
      ed <- (if shiftKey e then redo ed else undo ed) ;;
      JS.Ok (with_editor ed s, [])
    else if String.eqb k "c" then
      if negb (shiftKey e) then JS.Ok (s, [copied (mainCanvas ed)])
      else JS.Ok (s, [])
    else if String.eqb k "s"
    then JS.Ok (s, [downloaded (mainCanvas ed)])
    else JS.Ok (s, [])
  else if String.eqb k "v"
  then JS.Ok (with_editor (setTool select ed) s, [])
  else if String.eqb k "c"
  then JS.Ok (with_editor (setTool crop ed) s, [])
  else if String.eqb k "p"
  then JS.Ok (with_editor (setTool pen ed) s, [])
  else if String.eqb k "=" || String.eqb k "+"
  then JS.Ok (with_view (zoomIn (view s)) s, [])
  else if String.eqb k "-" then JS.Ok (with_view (zoomOut (view s)) s, [])
  else if String.eqb k "0" then JS.Ok (with_view (resetZoom (view s)) s, [])
  else if String.eqb k "escape" then
    if Tool_eqb (currentTool ed) crop
    then JS.Ok (with_editor (cancelCrop ed) s, [])
    else JS.Ok (s, [])
  else JS.Ok (s, []).

(** The image a data URL decodes to, where its pixels are determined. *)
Definition decode (url : Background.DataURL) : option Raster.Bitmap :=
  match Raster.surface url with
  | Some g =>
      Some {| Raster.width := Raster.cwidth url;
              Raster.height := Raster.cheight url;
              Raster.pixels := g |}
  | None => None
  end.

(** The toasts of [loadCapturedImage]. *)
Inductive Toast : Type :=
| screenshot_loaded
| no_screenshot_data.

(** [loadCapturedImage], given the worker's answer to GET_PENDING_CAPTURE
    ([None]: no answer). The result is [None] where the image's pixels
    are not determined; [Throw] is an exception in [img.onload], which
    nothing catches. *)
Definition loadCapturedImage (response : option Background.Response)
  (ed : ArintEditor) : option (JS.outcome (ArintEditor * Toast)) :=
  match response with
  | Some (Background.imageData_is (Some url)) =>
      match decode url with
      | Some img =>
          Some (ed <- loadImage img ed ;; JS.Ok (ed, screenshot_loaded))
      | None => None
      end
  | _ => Some (JS.Ok (ed, no_screenshot_data))
  end.

(** Where a drag from [a] ends: at the last move the canvas took. *)
Definition drag_end
  (moves : list (option Point * list (Z * Z * Raster.pixel)
                 * Content.MouseEvent)) (a : Point) : Point :=
  fold_left (fun b m => match fst (fst m) with
                        | Some q => q
                        | None => b
                        end) moves a.

(** What the page delivers to the editor: pointer events on the canvas and
    key presses. *)
Inductive Input : Type :=
| on_canvas (ev : Pointer)
| on_key (e : KeyboardEvent).

Definition input (i : Input) (s : Session) : JS.outcome Session :=
  match i with
  | on_canvas ev => pointer ev s
  | on_key e => r <- onKeyDown e s ;; JS.Ok (fst r)
  end.

Fixpoint inputs (l : list Input) (s : Session) : JS.outcome Session :=
  match l with
  | [] => JS.Ok s
  | i :: l' => s <- input i s ;; inputs l' s
  end.

(** A key pressed with no modifier held. *)
Definition plain (k : String.string) : KeyboardEvent :=
  {| key := k; ctrlKey := false; metaKey := false; shiftKey := false |}.

(** A zoom command. *)
Inductive ZoomOp : Type :=
| zoom_in
| zoom_out
| zoom_reset
| wheel (modifier : bool) (deltaY : Q).

Definition zoom_op (op : ZoomOp) (v : View) : View :=
  match op with
  | zoom_in => zoomIn v
  | zoom_out => zoomOut v
  | zoom_reset => resetZoom v
  | wheel modifier deltaY => onWheel modifier deltaY v
  end.

End EditorUI.

(* ===================================================================== *)
(** * Facts about numbers and lists used below *)
(* ===================================================================== *)

Module Facts.

Import Raster.

Lemma lt_inject (i n : Z) :
  JS.lt (inject_Z i) (JS.Fin (inject_Z n)) = (i <? n).
Proof.
  unfold JS.lt.
  destruct (Qlt_le_dec (inject_Z i) (inject_Z n)) as [Hlt | Hge]; symmetry.
  - apply Z.ltb_lt. rewrite Zlt_Qlt. exact Hlt.
  - apply Z.ltb_ge. rewrite Zle_Qle. exact Hge.
Qed.

Lemma eq_pred_inject (i n : Z) :
  JS.eq (inject_Z i) (JS.pred (JS.Fin (inject_Z n))) = (i =? n - 1).
Proof.
  cbn [JS.eq JS.pred].
  destruct (i =? n - 1) eqn:E.
  - apply Qeq_bool_iff. apply Z.eqb_eq in E. subst i.
    unfold Qeq. simpl. lia.
  - apply not_true_is_false. intro Hq. apply Qeq_bool_iff in Hq.
    apply Z.eqb_neq in E. unfold Qeq in Hq. simpl in Hq. lia.
Qed.

Lemma Qeq_bool_inject_0 (v : Z) : Qeq_bool (inject_Z v) 0 = (v =? 0).
Proof.
  destruct (v =? 0) eqn:E.
  - apply Z.eqb_eq in E. now subst.
  - apply not_true_is_false. intro Hq. apply Qeq_bool_iff in Hq.
    apply Z.eqb_neq in E. unfold Qeq in Hq. simpl in Hq. lia.
Qed.

(** The ceiling of a quotient of integers, by its two bounds. *)
Lemma ceiling_div_bounds (t v : Z) :
  0 < v ->
  (Qceiling (inject_Z t / inject_Z v) - 1) * v < t
  <= Qceiling (inject_Z t / inject_Z v) * v.
Proof.
  intro Hv.
  set (q := (inject_Z t / inject_Z v)%Q).
  assert (Hvq : (0 < inject_Z v)%Q).
  { change 0%Q with (inject_Z 0). rewrite <- Zlt_Qlt. exact Hv. }
  assert (Hq : (q * inject_Z v == inject_Z t)%Q).
  { unfold q. field. intro Hz. rewrite Hz in Hvq. now apply Qlt_irrefl in Hvq. }
  pose proof (Qle_ceiling q) as Hup.
  pose proof (Qceiling_lt q) as Hlo.
  split.
  - rewrite Zlt_Qlt, inject_Z_mult, <- Hq.
    apply Qmult_lt_compat_r; assumption.
  - rewrite Zle_Qle, inject_Z_mult, <- Hq.
    apply Qmult_le_compat_r; [assumption | now apply Qlt_le_weak].
Qed.

Lemma ceiling_div_nonneg (t v : Z) :
  0 < v -> 0 <= t -> 0 <= Qceiling (inject_Z t / inject_Z v).
Proof.
  intros Hv Ht. pose proof (ceiling_div_bounds t v Hv) as [_ Hhi]. nia.
Qed.

Lemma zrange_nil (a n : Z) : n <= 0 -> zrange a n = [].
Proof.
  intro Hn. unfold zrange.
  replace (Z.to_nat n) with O by lia. reflexivity.
Qed.

Lemma zrange_cons (a n : Z) :
  0 < n -> zrange a n = a :: zrange (a + 1) (n - 1).
Proof.
  intro Hn. unfold zrange.
  replace (Z.to_nat n) with (S (Z.to_nat (n - 1))) by lia.
  cbn [seq map]. f_equal; [lia |].
  rewrite <- seq_shift, map_map.
  apply map_ext. intro k. lia.
Qed.

Lemma length_zrange (a n : Z) : length (zrange a n) = Z.to_nat n.
Proof. unfold zrange. now rewrite length_map, length_seq. Qed.

Lemma in_zrange (a n j : Z) : In j (zrange a n) <-> a <= j < a + n.
Proof.
  unfold zrange. rewrite in_map_iff. split.
  - intros (k & Hk & Hin). apply in_seq in Hin. lia.
  - intros Hj. exists (Z.to_nat (j - a)). split; [lia |].
    apply in_seq. lia.
Qed.

(** Multiples of a positive step, taken in order, increase strictly. *)
Lemma multiples_sorted (v : Z) :
  0 < v ->
  forall (k : nat) (a : Z),
    StronglySorted Z.lt (map (fun j => j * v) (zrange a (Z.of_nat k))).
Proof.
  intros Hv k. induction k as [| k IH]; intro a.
  - rewrite zrange_nil by lia. constructor.
  - rewrite zrange_cons by lia. cbn [map].
    replace (Z.of_nat (S k) - 1) with (Z.of_nat k) by lia.
    constructor; [apply IH |].
    apply Forall_forall. intros y Hy.
    apply in_map_iff in Hy. destruct Hy as (j & <- & Hj).
    apply in_zrange in Hj. nia.
Qed.

Lemma zrange_snoc (a n : Z) :
  0 < n -> zrange a n = zrange a (n - 1) ++ [a + n - 1].
Proof.
  intro Hn. unfold zrange.
  replace (Z.to_nat n) with (Z.to_nat (n - 1) + 1)%nat by lia.
  rewrite seq_app, map_app. cbn [seq map]. do 2 f_equal. lia.
Qed.

(** Two lists with equal images, one of them constant on its elements. *)
Lemma map_eq_constant {A B C : Type} (g : A -> C) (f : B -> C) (v : C) :
  forall (l : list A) (l' : list B),
    map g l = map f l' ->
    (forall x, In x l' -> f x = v) ->
    Forall (fun y => g y = v) l.
Proof.
  induction l as [| y l IH]; intros [| x l'] Heq Hconst;
    try discriminate; constructor.
  - cbn in Heq. injection Heq as Hy _. rewrite Hy. apply Hconst. now left.
  - cbn in Heq. injection Heq as _ Hrest.
    apply (IH l' Hrest). intros z Hz. apply Hconst. now right.
Qed.

(** ** Grids *)

Lemma length_overlay {A B : Type} (f : A -> B -> B) (src : list A) :
  forall dst : list B, length (overlay f src dst) = length dst.
Proof.
  induction src as [| a src IH]; intros [| d dst]; cbn; auto.
Qed.

Lemma length_place {A B : Type} (f : A -> B -> B) (d : Z) (src : list A)
  (dst : list B) :
  length (place f d src dst) = length dst.
Proof.
  unfold place. destruct (d <? 0).
  - apply length_overlay.
  - rewrite length_app, length_overlay, length_firstn, length_skipn. lia.
Qed.

Lemma place_0 {A B : Type} (f : A -> B -> B) (src : list A) (dst : list B) :
  place f 0 src dst = overlay f src dst.
Proof. reflexivity. Qed.

Lemma overlay_fixed {A : Type} (f : A -> A -> A) (src dst : list A) :
  Forall2 (fun s d => f s d = s) src dst -> overlay f src dst = src.
Proof.
  induction 1 as [| s d src dst Hsd _ IH]; cbn; congruence.
Qed.

Lemma overlay_replace {A : Type} (src : list A) :
  forall dst : list A,
    length src = length dst -> overlay (fun s _ => s) src dst = src.
Proof.
  induction src as [| a src IH]; intros [| d dst] Hlen; cbn in *;
    try discriminate; [reflexivity |].
  f_equal. apply IH. lia.
Qed.

Lemma Forall_overlay {A B : Type} (P : B -> Prop) (f : A -> B -> B)
  (src : list A) :
  (forall s d, P d -> P (f s d)) ->
  forall dst : list B, Forall P dst -> Forall P (overlay f src dst).
Proof.
  intro Hf. induction src as [| a src IH]; intros [| d dst] Hdst; cbn; auto.
  inversion Hdst; subst. constructor; auto.
Qed.

Lemma Forall_place {A B : Type} (P : B -> Prop) (f : A -> B -> B) (d : Z)
  (src : list A) (dst : list B) :
  (forall s b, P b -> P (f s b)) ->
  Forall P dst -> Forall P (place f d src dst).
Proof.
  intros Hf Hdst. unfold place. destruct (d <? 0).
  - now apply Forall_overlay.
  - rewrite <- (firstn_skipn (Z.to_nat d) dst) in Hdst.
    apply Forall_app in Hdst. destruct Hdst as [Hhead Htail].
    apply Forall_app. split; [exact Hhead |].
    now apply Forall_overlay.
Qed.

Lemma wf_grid_blank (w h : Z) : 0 <= w -> 0 <= h -> wf_grid w h (blank w h).
Proof.
  intros Hw Hh. unfold wf_grid, blank. repeat split; auto.
  - apply repeat_length.
  - apply Forall_forall. intros r Hr. apply repeat_spec in Hr. subst r.
    apply repeat_length.
Qed.

(** Painting never changes the shape of what is painted on. *)
Lemma wf_grid_paint (w h dx dy : Z) (src dst : grid) :
  wf_grid w h dst -> wf_grid w h (paint dx dy src dst).
Proof.
  intros (Hw & Hh & Hlen & Hrows). unfold wf_grid, paint.
  repeat split; auto.
  - now rewrite length_place.
  - apply Forall_place; [| exact Hrows].
    intros s b Hb. now rewrite length_place.
Qed.

Lemma paint_rows_on_blank (k : nat) (src : grid) :
  Forall (fun r => length r = k) src ->
  forall n : nat,
    length src = n ->
    Forall2 (fun s d => place (fun (p : pixel) (_ : pixel) => p) 0 s d = s)
            src (repeat (repeat transparent k) n).
Proof.
  induction 1 as [| r src Hr _ IH]; intros [| n] Hn; cbn [length] in Hn;
    try discriminate; cbn [repeat]; constructor.
  - rewrite place_0. apply overlay_replace. now rewrite repeat_length.
  - apply IH. lia.
Qed.

(** A well-shaped block painted at the origin of a fresh canvas of its
    own size is the canvas's whole content. *)
Lemma paint_on_blank (w h : Z) (src : grid) :
  wf_grid w h src -> paint 0 0 src (blank w h) = src.
Proof.
  intros (Hw & Hh & Hlen & Hrows). unfold paint, blank.
  rewrite place_0. apply overlay_fixed.
  now apply paint_rows_on_blank.
Qed.

Lemma map_nth_seq {A : Type} (d : A) (l : list A) :
  map (fun k => nth k l d) (seq 0 (length l)) = l.
Proof.
  induction l as [| a l IH]; cbn; [reflexivity |].
  f_equal. rewrite <- seq_shift, map_map. exact IH.
Qed.

Lemma copy_row (g : grid) (w : Z) (y : nat) :
  length (nth y g []) = Z.to_nat w ->
  map (fun x => pixel_at g x (Z.of_nat y)) (zrange 0 w) = nth y g [].
Proof.
  intro Hlen. unfold zrange. rewrite map_map, <- Hlen.
  transitivity (map (fun k => nth k (nth y g []) transparent)
                    (seq 0 (length (nth y g []))));
    [| apply map_nth_seq].
  apply map_ext. intro k. unfold pixel_at.
  replace ((0 + Z.of_nat k <? 0) || (Z.of_nat y <? 0)) with false
    by (symmetry; apply orb_false_iff; split; apply Z.ltb_ge; lia).
  now rewrite Z.add_0_l, !Nat2Z.id.
Qed.

Lemma copy_rows (w h : Z) (g : grid) :
  wf_grid w h g ->
  map (fun y => map (fun x => pixel_at g x y) (zrange 0 w)) (zrange 0 h) = g.
Proof.
  intros (Hw & Hh & Hlen & Hrows). unfold zrange at 2.
  rewrite map_map, <- Hlen.
  transitivity (map (fun k => nth k g []) (seq 0 (length g)));
    [| apply map_nth_seq].
  apply map_ext_in. intros k Hk. apply in_seq in Hk.
  rewrite Z.add_0_l. apply copy_row.
  rewrite Forall_forall in Hrows. apply Hrows. apply nth_In. lia.
Qed.

(** Reading the whole of a well-shaped canvas gives a copy of it. *)
Lemma getImageData_whole (c : Bitmap) :
  wf_bitmap c -> width c <> 0 -> height c <> 0 ->
  getImageData 0 0 (width c) (height c) c = JS.Ok c.
Proof.
  intros Hwf Hw Hh. pose proof Hwf as (Hw0 & Hh0 & _).
  unfold getImageData.
  replace ((width c =? 0) || (height c =? 0)) with false
    by (symmetry; apply orb_false_iff; split; apply Z.eqb_neq; assumption).
  replace (width c <? 0) with false by (symmetry; apply Z.ltb_ge; lia).
  replace (height c <? 0) with false by (symmetry; apply Z.ltb_ge; lia).
  rewrite !Z.abs_eq by assumption.
  rewrite (copy_rows _ _ _ Hwf). now destruct c.
Qed.

Lemma getImageData_wf (sx sy sw sh : Z) (c b : Bitmap) :
  getImageData sx sy sw sh c = JS.Ok b ->
  wf_bitmap b /\ width b = Z.abs sw /\ height b = Z.abs sh.
Proof.
  unfold getImageData. destruct (_ || _); [discriminate |].
  intro Heq. injection Heq as <-. unfold wf_bitmap, wf_grid. cbn.
  repeat split; try apply Z.abs_nonneg.
  - now rewrite length_map, length_zrange.
  - apply Forall_forall. intros r Hr. apply in_map_iff in Hr.
    destruct Hr as (y & <- & _). now rewrite length_map, length_zrange.
Qed.

Lemma getImageData_ok (sx sy sw sh : Z) (c : Bitmap) :
  sw <> 0 -> sh <> 0 -> exists b, getImageData sx sy sw sh c = JS.Ok b.
Proof.
  intros Hw Hh. unfold getImageData.
  replace ((sw =? 0) || (sh =? 0)) with false
    by (symmetry; apply orb_false_iff; split; apply Z.eqb_neq; assumption).
  eauto.
Qed.

Lemma length_set_nth {A : Type} (f : A -> A) (l : list A) :
  forall n : nat, length (set_nth n f l) = length l.
Proof.
  induction l as [| a l IH]; intros [| n]; cbn; auto.
Qed.

Lemma Forall_set_nth {A : Type} (P : A -> Prop) (f : A -> A) (l : list A) :
  (forall a, P a -> P (f a)) ->
  Forall P l -> forall n : nat, Forall P (set_nth n f l).
Proof.
  intros Hf. induction 1 as [| a l Ha Hl IH]; intros [| n]; cbn;
    constructor; auto.
Qed.

Lemma wf_grid_set_pixel (w h x y : Z) (p : pixel) (g : grid) :
  wf_grid w h g -> wf_grid w h (set_pixel x y p g).
Proof.
  intros (Hw & Hh & Hlen & Hrows). unfold set_pixel.
  destruct (_ || _); [repeat split; assumption |].
  repeat split; auto.
  - now rewrite length_set_nth.
  - apply Forall_set_nth; [| exact Hrows].
    intros r Hr. now rewrite length_set_nth.
Qed.

Lemma wf_grid_ink (w h : Z) (ink : list (Z * Z * pixel)) :
  forall g : grid,
    wf_grid w h g ->
    wf_grid w h (fold_left (fun g '(x, y, p) => set_pixel x y p g) ink g).
Proof.
  induction ink as [| [[x y] p] ink IH]; intros g Hg; cbn [fold_left];
    [exact Hg |].
  apply IH. now apply wf_grid_set_pixel.
Qed.

End Facts.

(* ===================================================================== *)
(** * The worker: pending capture, segments, image height *)
(* ===================================================================== *)

Module BackgroundProofs.

Import Raster Background Facts.

Section OnAnyBrowser.

Context {Tab : Type} `{Browser Tab}.

(** C4. The pending-capture slot delivers at most once: after a handoff,
    GET_PENDING_CAPTURE answers with the stored image and empties the slot;
    the next GET_PENDING_CAPTURE answers with null, also when messages that
    capture nothing come in between; and a second handoff before any
    retrieval replaces the first image. *)
Theorem pending_capture_delivered_once
  (fuel : nat) (tab : Tab) (st : State) (image other : DataURL) :
  let emptied := {| pendingCapture := None; editorTabs := S (editorTabs st) |} in
  onMessage fuel Messages.GET_PENDING_CAPTURE tab (openEditor image st)
    = Some (tab, emptied, Some (imageData_is (Some image)))
  /\ onMessage fuel Messages.GET_PENDING_CAPTURE tab emptied
    = Some (tab, emptied, Some (imageData_is None))
  /\ onMessage fuel Messages.SELECTION_CANCELLED tab emptied
    = Some (tab, emptied, None)
  /\ onMessage fuel Messages.PAGE_DIMENSIONS tab emptied
    = Some (tab, emptied, Some received_true)
  /\ onMessage fuel Messages.GET_PENDING_CAPTURE tab
       (openEditor other (openEditor image st))
    = Some (tab,
            {| pendingCapture := None;
               editorTabs := S (S (editorTabs st)) |},
            Some (imageData_is (Some other))).
Proof.
  cbn. repeat split; reflexivity.
Qed.

Lemma captureCount_finite (d : Dimensions) :
  0 < viewportHeight d ->
  captureCount d =
  JS.Fin (inject_Z
            (Qceiling (inject_Z (Z.min (scrollHeight d) MAX_PAGE_HEIGHT)
                       / inject_Z (viewportHeight d)))).
Proof.
  intro Hv. unfold captureCount, JS.div.
  rewrite Qeq_bool_inject_0.
  destruct (viewportHeight d =? 0) eqn:E; [apply Z.eqb_eq in E; lia |].
  reflexivity.
Qed.

(** The loop from iteration [i] on, for a finite count [n]. *)
Lemma capture_loop_spec (v n : Z) :
  forall (k fuel : nat) (i : Z) (tab : Tab) (acc : list Capture),
    Z.to_nat (n - i) = k -> (k < fuel)%nat ->
    exists tab' segs,
      capture_loop fuel v (JS.Fin (inject_Z n)) i tab acc
        = Some (tab', acc ++ segs)
      /\ map offsetY segs = map (fun j => j * v) (zrange i (n - i))
      /\ map isLast segs = map (fun j => j =? n - 1) (zrange i (n - i)).
Proof.
  induction k as [| k IH]; intros fuel i tab acc Hk Hfuel;
    (destruct fuel as [| fuel]; [lia |]); cbn [capture_loop];
    rewrite lt_inject.
  - replace (i <? n) with false by (symmetry; apply Z.ltb_ge; lia).
    exists tab, []. rewrite app_nil_r, zrange_nil by lia. auto.
  - replace (i <? n) with true by (symmetry; apply Z.ltb_lt; lia).
    rewrite eq_pred_inject.
    edestruct (IH fuel (i + 1) (scrollTo (i * v) tab)) as
      (tab' & segs & Hloop & Hoff & Hlast); [lia | lia | ].
    rewrite Hloop. eexists tab', (_ :: segs).
    rewrite <- app_assoc. split; [reflexivity |].
    rewrite (zrange_cons i (n - i)) by lia.
    replace (n - i - 1) with (n - (i + 1)) by lia.
    cbn [map offsetY isLast]. rewrite Hoff, Hlast. auto.
Qed.

(** The loop from iteration [i] on, on the tab as the iterations before
    have left it: every iteration asks the tab to scroll to [i * v] and
    captures what it then shows. *)
Lemma capture_loop_scrolled (v n : Z) (tab : Tab) :
  forall (k fuel : nat) (i : Z) (acc : list Capture),
    0 <= i -> Z.to_nat (n - i) = k -> (k < fuel)%nat ->
    capture_loop fuel v (JS.Fin (inject_Z n)) i
      (scrolled v (Z.to_nat i) tab) acc
    = Some (scrolled v (Z.to_nat (Z.max i n)) tab,
            acc ++ map (segment v n tab) (zrange i (n - i))).
Proof.
  induction k as [| k IH]; intros fuel i acc Hi Hk Hfuel;
    (destruct fuel as [| fuel]; [lia |]); cbn [capture_loop];
    rewrite lt_inject.
  - replace (i <? n) with false by (symmetry; apply Z.ltb_ge; lia).
    rewrite zrange_nil by lia. cbn [map]. rewrite app_nil_r.
    now rewrite Z.max_l by lia.
  - replace (i <? n) with true by (symmetry; apply Z.ltb_lt; lia).
    rewrite eq_pred_inject.
    assert (Hnext : scrollTo (i * v) (scrolled v (Z.to_nat i) tab)
                    = scrolled v (Z.to_nat (i + 1)) tab).
    { replace (Z.to_nat (i + 1)) with (S (Z.to_nat i)) by lia.
      cbn [scrolled]. now rewrite Z2Nat.id by exact Hi. }
    rewrite Hnext, (IH fuel (i + 1)) by lia.
    rewrite <- app_assoc, (zrange_cons i (n - i)) by lia.
    replace (n - i - 1) with (n - (i + 1)) by lia.
    replace (Z.max (i + 1) n) with (Z.max i n) by lia.
    cbn [map app]. unfold segment at 2.
    replace (S (Z.to_nat i)) with (Z.to_nat (i + 1)) by lia.
    reflexivity.
Qed.

(** C2. For a page of scroll height S >= 0 and viewport height V > 0 the
    capture loop ends (given fuel for its iterations) with exactly
    n = ceil(min(S, 30000) / V) segments. Segment i is the capture of the
    visible tab taken right after the tab was asked to scroll to i * V (the
    requests are made in the order i = 0, 1, ..., each on the tab as the
    one before left it), and carries the offset i * V; the tab is left as
    the last request put it. The offsets increase strictly, and only the
    last segment is tagged final. For S = 2500 and V = 1000 these are three
    segments at offsets 0, 1000 and 2000. *)
Theorem segments_of_full_page (fuel : nat) (tab : Tab) :
  let SH := scrollHeight (getPageDimensions tab) in
  let VH := viewportHeight (getPageDimensions tab) in
  let totalHeight := Z.min SH MAX_PAGE_HEIGHT in
  let n := Qceiling (inject_Z totalHeight / inject_Z VH) in
  0 < VH -> 0 <= SH -> (Z.to_nat n < fuel)%nat ->
  exists captures,
    capture_segments fuel tab = Some (scrolled VH (Z.to_nat n) tab, captures)
    /\ Z.of_nat (length captures) = n
    /\ captures
       = map (fun i =>
                {| imageData :=
                     captureVisibleTab
                       (scrollTo (i * VH) (scrolled VH (Z.to_nat i) tab));
                   offsetY := i * VH;
                   isLast := i =? n - 1 |})
             (zrange 0 n)
    /\ map offsetY captures = map (fun i => i * VH) (zrange 0 n)
    /\ StronglySorted Z.lt (map offsetY captures)
    /\ map isLast captures = map (fun i => i =? n - 1) (zrange 0 n)
    /\ (SH = 2500 -> VH = 1000 ->
        map offsetY captures = [0; 1000; 2000]
        /\ map isLast captures = [false; false; true]).
Proof.
  intros SH VH totalHeight n HV HS Hfuel.
  assert (Hn : 0 <= n).
  { apply ceiling_div_nonneg; [exact HV |].
    unfold totalHeight, MAX_PAGE_HEIGHT. lia. }
  unfold capture_segments. rewrite captureCount_finite by exact HV.
  fold SH VH totalHeight n.
  pose proof (capture_loop_scrolled VH n tab (Z.to_nat n) fuel 0 [])
    as Hloop.
  rewrite Z.sub_0_r, Z.max_r in Hloop by exact Hn.
  cbn [Z.to_nat scrolled app] in Hloop.
  exists (map (segment VH n tab) (zrange 0 n)).
  assert (Hoff : map offsetY (map (segment VH n tab) (zrange 0 n))
                 = map (fun i => i * VH) (zrange 0 n))
    by (now rewrite map_map).
  assert (Hlast : map isLast (map (segment VH n tab) (zrange 0 n))
                  = map (fun i => i =? n - 1) (zrange 0 n))
    by (now rewrite map_map).
  split; [apply Hloop; [lia | reflexivity | exact Hfuel] |].
  split; [rewrite length_map, length_zrange; lia |].
  split.
  { apply map_ext_in. intros i Hi. apply in_zrange in Hi.
    unfold segment. cbn [scrolled]. now rewrite Z2Nat.id by lia. }
  split; [exact Hoff |].
  split.
  { rewrite Hoff. rewrite <- (Z2Nat.id n Hn). now apply multiples_sorted. }
  split; [exact Hlast |].
  intros HS' HV'. rewrite Hoff, Hlast.
  unfold n, totalHeight. rewrite HS', HV'. split; reflexivity.
Qed.

Lemma cheight_drawImage9 (img : Bitmap) (sx sy sw sh dx dy dw dh : Q)
  (c : Canvas) :
  cheight (drawImage9 img sx sy sw sh dx dy dw dh c) = cheight c
  /\ cwidth (drawImage9 img sx sy sw sh dx dy dw dh c) = cwidth c.
Proof.
  unfold drawImage9.
  repeat match goal with
         | |- context [if ?b then _ else _] => destruct b
         | |- context [match ?o with Some _ => _ | None => _ end] => destruct o
         end; split; reflexivity.
Qed.

Lemma cheight_draw_capture (d : Dimensions) (c : Canvas) (cap : Capture) :
  cheight (draw_capture d c cap) = cheight c
  /\ cwidth (draw_capture d c cap) = cwidth c.
Proof.
  unfold draw_capture, drawImage3.
  destruct (isLast cap); [destruct (Qlt_le_dec _ _) |];
    apply cheight_drawImage9.
Qed.

Lemma cheight_fold (d : Dimensions) (caps : list Capture) :
  forall c : Canvas,
    cheight (fold_left (draw_capture d) caps c) = cheight c
    /\ cwidth (fold_left (draw_capture d) caps c) = cwidth c.
Proof.
  induction caps as [| cap caps IH]; intro c; cbn [fold_left]; [auto |].
  destruct (IH (draw_capture d c cap)) as [Hh Hw].
  destruct (cheight_draw_capture d c cap) as [Hh' Hw'].
  split; congruence.
Qed.

(** The integer part of a number is below it, unless it is zero. *)
Lemma integer_part_le (q : Q) :
  0 <= integer_part q ->
  integer_part q = 0 \/ (inject_Z (integer_part q) <= q)%Q.
Proof.
  unfold integer_part. destruct q as [num den]. cbn [Qnum Qden]. intro Hq.
  destruct (Z_lt_le_dec num 0) as [Hneg | Hpos].
  - left. pose proof (Z.quot_opp_l (- num) (Zpos den)) as Ho.
    rewrite Z.opp_involutive in Ho.
    assert (0 <= (- num) ÷ Zpos den) by (apply Z.quot_pos; lia).
    lia.
  - right. rewrite Z.quot_div_nonneg by lia.
    exact (Qfloor_le (num # den)).
Qed.

(** What [convertToBlob] resolves with is the canvas it was called on. *)
Lemma convertToBlob_ok (c url : Canvas) :
  convertToBlob c = JS.Ok url ->
  url = c /\ cwidth c <> 0 /\ cheight c <> 0
  /\ serialises (cwidth c) (cheight c) = true.
Proof.
  unfold convertToBlob.
  destruct ((cwidth c =? 0) || (cheight c =? 0)) eqn:Hzero; [discriminate |].
  destruct (serialises _ _) eqn:Hser; [| discriminate].
  intro Heq. injection Heq as <-.
  apply orb_false_iff in Hzero. destruct Hzero as [Hw Hh].
  apply Z.eqb_neq in Hw, Hh. auto.
Qed.

(** A canvas with pixels that the browser serialises is encoded as it is. *)
Lemma convertToBlob_encodes (c : Canvas) :
  0 < cwidth c -> 0 < cheight c ->
  serialises (cwidth c) (cheight c) = true ->
  convertToBlob c = JS.Ok c.
Proof.
  intros Hw Hh Hser. unfold convertToBlob. rewrite Hser.
  replace ((cwidth c =? 0) || (cheight c =? 0)) with false; [reflexivity |].
  symmetry. apply orb_false_iff. split; apply Z.eqb_neq; lia.
Qed.

Lemma stitched_dimensions (caps : list Capture) (d : Dimensions)
  (c : Canvas) :
  stitchImages caps d = JS.Ok c ->
  cwidth c = integer_part (inject_Z (viewportWidth d) * devicePixelRatio d)
  /\ cheight c =
     integer_part (inject_Z (Z.min (scrollHeight d) MAX_PAGE_HEIGHT)
                   * devicePixelRatio d)
  /\ 0 <= cwidth c /\ 0 <= cheight c.
Proof.
  unfold stitchImages, newOffscreenCanvas, enforce_range.
  destruct (_ && _) eqn:Hw; cbn [JS.bind]; [| discriminate].
  destruct (_ && _) eqn:Hh in |- *; cbn [JS.bind]; [| discriminate].
  intro Heq. apply convertToBlob_ok in Heq. destruct Heq as (-> & _).
  match goal with
  | |- context [fold_left _ _ ?c0] =>
      destruct (cheight_fold d caps c0) as [-> ->]
  end.
  cbn [cwidth cheight].
  apply andb_prop in Hw, Hh. destruct Hw as [Hw _], Hh as [Hh _].
  apply Z.leb_le in Hw, Hh. auto.
Qed.

(** C7. Whatever the page, an image [captureFullPage] hands to the editor
    is at most MAX_PAGE_HEIGHT (30000) times the device pixel ratio
    high. *)
Theorem stitched_height_capped
  (fuel : nat) (tab tab' : Tab) (st st' : State) :
  (0 < devicePixelRatio (getPageDimensions tab))%Q ->
  captureFullPage fuel tab st = Some (JS.Ok (tab', st')) ->
  exists stitched,
    pendingCapture st' = Some stitched
    /\ (inject_Z (cheight stitched)
        <= inject_Z MAX_PAGE_HEIGHT
           * devicePixelRatio (getPageDimensions tab))%Q.
Proof.
  intros Hdpr. unfold captureFullPage.
  destruct (capture_segments fuel tab) as [[tab1 caps] |]; [| discriminate].
  destruct (stitchImages caps (getPageDimensions tab)) as [c |] eqn:Hs;
    cbn [JS.bind]; [| discriminate].
  intro Heq. injection Heq as _ <-.
  exists c. split; [reflexivity |].
  apply stitched_dimensions in Hs. destruct Hs as (_ & Hh & _ & Hpos).
  rewrite Hh in *.
  set (r := devicePixelRatio (getPageDimensions tab)) in *.
  assert (Hcap : (inject_Z (Z.min (scrollHeight (getPageDimensions tab))
                                  MAX_PAGE_HEIGHT) * r
                  <= inject_Z MAX_PAGE_HEIGHT * r)%Q).
  { apply Qmult_le_compat_r; [| now apply Qlt_le_weak].
    rewrite <- Zle_Qle. apply Z.le_min_r. }
  destruct (integer_part_le _ Hpos) as [Hz | Hle].
  - rewrite Hz. apply Qmult_le_0_compat; [| now apply Qlt_le_weak].
    unfold MAX_PAGE_HEIGHT. discriminate.
  - eapply Qle_trans; eassumption.
Qed.

Lemma enforce_range_ok (q : Q) :
  (0 <= q)%Q -> (q <= inject_Z (2 ^ 53 - 1))%Q ->
  enforce_range q = JS.Ok (integer_part q).
Proof.
  intros Hlo Hhi. unfold enforce_range.
  assert (Hfloor : integer_part q = Qfloor q).
  { destruct q as [num den]. unfold Qle, integer_part, Qfloor in *.
    cbn in *. apply Z.quot_div_nonneg; lia. }
  assert (H0 : 0 <= integer_part q).
  { rewrite Hfloor. replace 0 with (Qfloor (inject_Z 0)) by apply Qfloor_Z.
    now apply Qfloor_resp_le. }
  assert (H1 : integer_part q <= 2 ^ 53 - 1).
  { rewrite Hfloor. rewrite <- (Qfloor_Z (2 ^ 53 - 1)).
    now apply Qfloor_resp_le. }
  apply Z.leb_le in H0, H1. now rewrite H0, H1.
Qed.

(** [captureFullPage] does return, and hands an image over, on a page with
    a viewport that is not empty whose stitched canvas has pixels and is one
    the browser serialises, given fuel for its iterations. *)
Lemma captureFullPage_returns (fuel : nat) (tab : Tab) (st : State) :
  let d := getPageDimensions tab in
  let w := integer_part (inject_Z (viewportWidth d) * devicePixelRatio d) in
  let h := integer_part (inject_Z (Z.min (scrollHeight d) MAX_PAGE_HEIGHT)
                         * devicePixelRatio d) in
  0 < viewportHeight d -> 0 <= scrollHeight d ->
  0 < w <= 2 ^ 53 - 1 -> 0 < h <= 2 ^ 53 - 1 ->
  serialises w h = true ->
  (Z.to_nat (Qceiling (inject_Z (Z.min (scrollHeight d) MAX_PAGE_HEIGHT)
                       / inject_Z (viewportHeight d))) < fuel)%nat ->
  exists tab' st', captureFullPage fuel tab st = Some (JS.Ok (tab', st')).
Proof.
  intros d w h HV HS Hw Hh Hser Hfuel.
  unfold captureFullPage, capture_segments. fold d.
  rewrite (captureCount_finite d HV).
  set (n := Qceiling (inject_Z (Z.min (scrollHeight d) MAX_PAGE_HEIGHT)
                      / inject_Z (viewportHeight d))) in *.
  destruct (capture_loop_spec (viewportHeight d) n (Z.to_nat (n - 0))
                              fuel 0 tab [] eq_refl)
    as (tab1 & segs & Hloop & _).
  { rewrite Z.sub_0_r. exact Hfuel. }
  rewrite Hloop. unfold stitchImages, newOffscreenCanvas, enforce_range.
  fold w h.
  replace ((0 <=? w) && (w <=? 2 ^ 53 - 1)) with true
    by (symmetry; apply andb_true_iff; split; apply Z.leb_le; lia).
  replace ((0 <=? h) && (h <=? 2 ^ 53 - 1)) with true
    by (symmetry; apply andb_true_iff; split; apply Z.leb_le; lia).
  cbn [JS.bind].
  match goal with
  | |- context [fold_left ?f ?l ?c0] =>
      destruct (cheight_fold d l c0) as [Hch Hcw];
      cbn [cwidth cheight] in Hch, Hcw;
      rewrite (convertToBlob_encodes (fold_left f l c0))
        by (rewrite ?Hch, ?Hcw; first [lia | exact Hser])
  end.
  cbn [JS.bind]. eauto.
Qed.

(** An infinite capture count keeps the loop going: no amount of fuel
    brings it to its end. *)
Lemma capture_loop_endless (v : Z) :
  forall (fuel : nat) (i : Z) (tab : Tab) (acc : list Capture),
    capture_loop fuel v JS.PosInf i tab acc = None.
Proof.
  induction fuel as [| fuel IH]; intros i tab acc; cbn [capture_loop JS.lt];
    [reflexivity | apply IH].
Qed.

(** X2. On a page with content whose viewport is zero pixels high,
    totalHeight / viewportHeight is Infinity, so is captureCount, and the
    loop [for (i = 0; i < captureCount; i++)] of captureFullPage never
    ends: full-page capture does not return, whatever the fuel. *)
Theorem empty_viewport_never_returns (fuel : nat) (tab : Tab) (st : State) :
  let d := getPageDimensions tab in
  viewportHeight d = 0 -> 0 < scrollHeight d ->
  captureCount d = JS.PosInf
  /\ capture_segments fuel tab = None
  /\ captureFullPage fuel tab st = None.
Proof.
  intros d HV HS.
  assert (Hcount : captureCount d = JS.PosInf).
  { unfold captureCount, JS.div. rewrite HV. cbn [Qeq_bool inject_Z Qnum Qden].
    change (Qeq_bool (inject_Z 0) 0) with true. cbn iota.
    replace (inject_Z (Z.min (scrollHeight d) MAX_PAGE_HEIGHT) ?= 0)%Q with Gt;
      [reflexivity |].
    symmetry. apply Qgt_alt. change 0%Q with (inject_Z 0).
    rewrite <- Zlt_Qlt. unfold MAX_PAGE_HEIGHT. lia. }
  assert (Hsegs : capture_segments fuel tab = None).
  { unfold capture_segments. fold d. rewrite Hcount.
    apply capture_loop_endless. }
  split; [exact Hcount | split; [exact Hsegs |]].
  unfold captureFullPage. now rewrite Hsegs.
Qed.

End OnAnyBrowser.

End BackgroundProofs.

(* ===================================================================== *)
(** * The editor's history *)
(* ===================================================================== *)

Module EditorProofs.

Import Editor Facts.

Lemma index_last {A : Type} (l : list A) (a : A) :
  JS.index (l ++ [a]) (Z.of_nat (length l)) = Some a.
Proof.
  unfold JS.index.
  replace (Z.of_nat (length l) <? 0) with false
    by (symmetry; apply Z.ltb_ge; lia).
  rewrite Nat2Z.id, nth_error_app2, Nat.sub_diag by lia. reflexivity.
Qed.

Lemma index_in_range {A : Type} (l : list A) (i : Z) :
  0 <= i < Z.of_nat (length l) -> exists a, JS.index l i = Some a.
Proof.
  intro Hi. unfold JS.index.
  replace (i <? 0) with false by (symmetry; apply Z.ltb_ge; lia).
  destruct (nth_error l (Z.to_nat i)) as [a |] eqn:E; [eauto |].
  apply nth_error_None in E. lia.
Qed.

Lemma index_In {A : Type} (l : list A) (i : Z) (a : A) :
  JS.index l i = Some a -> In a l.
Proof.
  unfold JS.index. destruct (i <? 0); [discriminate |].
  apply nth_error_In.
Qed.

Lemma restored_snapshot (c : Raster.Bitmap) :
  Raster.wf_bitmap c -> restored (snapshot c) = c.
Proof.
  intro Hwf. unfold restored, snapshot, Raster.putImageData, Raster.resize.
  cbn [imageData width height Raster.width Raster.height Raster.pixels].
  rewrite (paint_on_blank _ _ _ Hwf). now destruct c.
Qed.

Lemma wf_restored (e : HistoryEntry) :
  entry_ok e -> Raster.wf_bitmap (restored e).
Proof.
  intros [Hw Hh]. unfold restored, Raster.putImageData, Raster.resize.
  apply wf_grid_paint. now apply wf_grid_blank.
Qed.

(** What a successful [saveState] does. *)
Lemma saveState_saved (ed ed' : ArintEditor) :
  history_ok ed -> Raster.wf_bitmap (mainCanvas ed) ->
  saveState ed = JS.Ok ed' ->
  saved (history ed) (historyIndex ed) ed'
  /\ mainCanvas ed' = mainCanvas ed.
Proof.
  intros [Hidx Hlen] Hwf. unfold saveState.
  destruct (Z.eq_dec (Raster.width (mainCanvas ed)) 0) as [Hw | Hw].
  { unfold Raster.getImageData. rewrite Hw. discriminate. }
  destruct (Z.eq_dec (Raster.height (mainCanvas ed)) 0) as [Hh | Hh].
  { unfold Raster.getImageData. rewrite Hh, orb_true_r. discriminate. }
  rewrite getImageData_whole by assumption. cbn [JS.bind].
  assert (Hcut :
    (if historyIndex ed <? Z.of_nat (length (history ed)) - 1
     then JS.slice0 (historyIndex ed + 1) (history ed)
     else history ed)
    = firstn (Z.to_nat (historyIndex ed + 1)) (history ed)).
  { destruct (Z.ltb_spec (historyIndex ed) (Z.of_nat (length (history ed)) - 1)).
    - unfold JS.slice0.
      now replace (historyIndex ed + 1 <? 0) with false
        by (symmetry; apply Z.ltb_ge; lia).
    - rewrite firstn_all2; [reflexivity | lia]. }
  rewrite Hcut, length_app, length_firstn. cbn [length].
  replace (Z.of_nat (Nat.min (Z.to_nat (historyIndex ed + 1))
                             (length (history ed)) + 1))
    with (historyIndex ed + 2) by lia.
  unfold saved.
  destruct (Z.ltb_spec maxHistory (historyIndex ed + 2)) as [Hfull | Hroom];
    intro Heq; injection Heq as <-;
    cbn [history historyIndex mainCanvas set_history];
    (split; [split; [| split; [reflexivity | exact Hwf]] | reflexivity]).
  - rewrite firstn_all2; [reflexivity | unfold maxHistory in *; lia].
  - reflexivity.
Qed.

(** After a save the cursor is on the newest entry, which is the
    canvas's snapshot. *)
Lemma saved_top (h : list HistoryEntry) (i : Z) (ed' : ArintEditor) :
  -1 <= i <= Z.of_nat (length h) - 1 ->
  Z.of_nat (length h) <= maxHistory ->
  Forall entry_ok h ->
  saved h i ed' ->
  invariant ed'
  /\ historyIndex ed' = Z.of_nat (length (history ed')) - 1
  /\ current ed' = Some (snapshot (mainCanvas ed')).
Proof.
  intros Hi Hlen Hok (Hh & Hidx & Hwf). unfold maxHistory in *.
  assert (Hsnap : entry_ok (snapshot (mainCanvas ed'))).
  { destruct Hwf as (Hw0 & Hh0 & _). split; assumption. }
  assert (Hcur : current ed' = Some (snapshot (mainCanvas ed'))
                 /\ historyIndex ed' = Z.of_nat (length (history ed')) - 1
                 /\ Z.of_nat (length (history ed')) <= 20
                 /\ Forall entry_ok (history ed')).
  { unfold current. rewrite Hh, Hidx.
    destruct (Z.ltb_spec 20 (i + 2)) as [Hfull | Hroom].
    - destruct h as [| a h]; cbn [length] in *; [lia |].
      cbn [app tl]. rewrite length_app. cbn [length].
      replace i with (Z.of_nat (length h)) by lia.
      split; [apply index_last |]. repeat split; try lia.
      inversion Hok; subst. apply Forall_app. split; auto.
    - rewrite length_app, length_firstn. cbn [length].
      pose proof (index_last (firstn (Z.to_nat (i + 1)) h)
                             (snapshot (mainCanvas ed'))) as Hlast.
      rewrite length_firstn in Hlast.
      replace (Z.of_nat (Nat.min (Z.to_nat (i + 1)) (length h)))
        with (i + 1) in Hlast by lia.
      split; [exact Hlast |]. repeat split; try lia.
      apply Forall_app. split; [| auto].
      rewrite <- (firstn_skipn (Z.to_nat (i + 1)) h) in Hok.
      now apply Forall_app in Hok. }
  destruct Hcur as (Hcur & Htop & Hcap & Hall).
  split; [| split; assumption].
  split; [| split; [exact Hwf | split; [| exact Hall]]].
  - unfold history_ok, maxHistory. lia.
  - intros e He. rewrite Hcur in He. injection He as <-. split; reflexivity.
Qed.

Lemma saved_synced (h : list HistoryEntry) (i : Z) (ed' : ArintEditor) :
  saved h i ed' ->
  current ed' = Some (snapshot (mainCanvas ed')) ->
  synced ed'.
Proof.
  intros (_ & _ & Hwf) Hcur e He. rewrite Hcur in He. injection He as <-.
  symmetry. now apply restored_snapshot.
Qed.

Lemma index_Some_range {A : Type} (l : list A) (i : Z) (a : A) :
  JS.index l i = Some a -> 0 <= i < Z.of_nat (length l).
Proof.
  unfold JS.index. destruct (Z.ltb_spec i 0); [discriminate |].
  intro Hn. assert (nth_error l (Z.to_nat i) <> None) as Hsome by congruence.
  apply nth_error_Some in Hsome. lia.
Qed.

(** Fields outside the history and the main canvas do not matter. *)
Lemma invariant_frame (ed ed' : ArintEditor) :
  history ed' = history ed ->
  historyIndex ed' = historyIndex ed ->
  mainCanvas ed' = mainCanvas ed ->
  invariant ed -> invariant ed'.
Proof.
  intros Hh Hi Hc. unfold invariant, history_ok, shows_size, current.
  now rewrite Hh, Hi, Hc.
Qed.

Lemma saved_frame (h : list HistoryEntry) (i : Z) (ed ed' : ArintEditor) :
  history ed' = history ed ->
  historyIndex ed' = historyIndex ed ->
  mainCanvas ed' = mainCanvas ed ->
  saved h i ed -> saved h i ed'.
Proof.
  intros Hh Hi Hc. unfold saved. now rewrite Hh, Hi, Hc.
Qed.

(** Moving the cursor onto an entry and restoring it. *)
Lemma moved_invariant (ed : ArintEditor) (j : Z) (e : HistoryEntry) :
  invariant ed -> JS.index (history ed) j = Some e ->
  invariant (moved_to j e ed) /\ synced (moved_to j e ed).
Proof.
  intros ([_ Hcap] & _ & _ & Hall) He.
  pose proof (index_Some_range _ _ _ He) as Hj.
  assert (Hok : entry_ok e).
  { rewrite Forall_forall in Hall. apply Hall. eapply index_In; eassumption. }
  split; [split; [| split; [| split]] |].
  - unfold history_ok, moved_to. cbn. lia.
  - apply wf_restored. exact Hok.
  - intros e' He'. unfold current, moved_to in He'. cbn in He'.
    rewrite He in He'. injection He' as <-. split; reflexivity.
  - exact Hall.
  - intros e' He'. unfold current, moved_to in He'. cbn in He'.
    rewrite He in He'. injection He' as <-. reflexivity.
Qed.

Lemma undo_cases (ed : ArintEditor) :
  history_ok ed ->
  (historyIndex ed <= 0 /\ undo ed = JS.Ok ed)
  \/ (0 < historyIndex ed /\
      exists e, JS.index (history ed) (historyIndex ed - 1) = Some e
                /\ undo ed = JS.Ok (moved_to (historyIndex ed - 1) e ed)).
Proof.
  intros [Hidx _]. unfold undo.
  destruct (Z.ltb_spec 0 (historyIndex ed)) as [Hpos | Hzero]; [right | left];
    (split; [assumption |]); [| reflexivity].
  destruct (index_in_range (history ed) (historyIndex ed - 1)) as [e He];
    [lia |].
  exists e. split; [exact He |]. cbn [history historyIndex set_history].
  now rewrite He.
Qed.

Lemma redo_cases (ed : ArintEditor) :
  history_ok ed ->
  (Z.of_nat (length (history ed)) - 1 <= historyIndex ed
   /\ redo ed = JS.Ok ed)
  \/ (historyIndex ed < Z.of_nat (length (history ed)) - 1 /\
      exists e, JS.index (history ed) (historyIndex ed + 1) = Some e
                /\ redo ed = JS.Ok (moved_to (historyIndex ed + 1) e ed)).
Proof.
  intros [Hidx _]. unfold redo.
  destruct (Z.ltb_spec (historyIndex ed) (Z.of_nat (length (history ed)) - 1))
    as [Hbelow | Htop]; [right | left];
    (split; [assumption |]); [| reflexivity].
  destruct (index_in_range (history ed) (historyIndex ed + 1)) as [e He];
    [lia |].
  exists e. split; [exact He |]. cbn [history historyIndex set_history].
  now rewrite He.
Qed.

Lemma stopDrawing_saved (ed ed' : ArintEditor) :
  invariant ed -> isDrawing ed = true ->
  stopDrawing ed = JS.Ok ed' ->
  saved (history ed) (historyIndex ed) ed'.
Proof.
  intros (Hh & Hwf & _) Hdraw. unfold stopDrawing. rewrite Hdraw.
  intro Hsave. now apply saveState_saved in Hsave.
Qed.

Lemma applyCrop_saved (ed ed' : ArintEditor) (cs ce : Point) :
  invariant ed -> cropStart ed = Some cs -> cropEnd ed = Some ce ->
  applyCrop ed = JS.Ok ed' ->
  saved (history ed) (historyIndex ed) ed'.
Proof.
  intros (Hh & _) Hcs Hce. unfold applyCrop. rewrite Hcs, Hce.
  destruct (Raster.getImageData _ _ _ _ _) as [b |] eqn:Hget;
    cbn [JS.bind]; [| discriminate].
  destruct (saveState _) as [ed1 |] eqn:Hsave; cbn [JS.bind];
    [| discriminate].
  intro Heq. injection Heq as <-.
  apply saveState_saved in Hsave.
  - destruct Hsave as [Hsaved _].
    eapply saved_frame; [| | | exact Hsaved]; reflexivity.
  - exact Hh.
  - cbn [mainCanvas set_canvases]. unfold Raster.putImageData, Raster.resize.
    apply wf_grid_paint. apply wf_grid_blank; apply Z.abs_nonneg.
Qed.

(** A committed edit ends in a [saveState] on the history as it was. *)
Lemma perform_saved (e : Edit) (ed ed' : ArintEditor) :
  invariant ed -> committed e ->
  perform e ed = JS.Ok ed' ->
  saved (history ed) (historyIndex ed) ed'.
Proof.
  intros Hinv Hc. destruct e as [ink | a b]; cbn [perform].
  - intro Hstop. apply stopDrawing_saved in Hstop; [exact Hstop | | reflexivity].
    destruct Hinv as (Hh & Hwf & Hsz & Hall).
    split; [exact Hh | split; [| split; [| exact Hall]]].
    + apply wf_grid_ink. exact Hwf.
    + exact Hsz.
  - destruct Hc as [Hcw Hch].
    unfold finishCropSelection, updateCrop, startCrop.
    cbn [cropStart cropEnd set_crop x y].
    replace ((10 <? Z.abs (x b - x a)) && (10 <? Z.abs (y b - y a)))
      with true
      by (symmetry; apply andb_true_iff; split; apply Z.ltb_lt; assumption).
    intro Happly.
    eapply applyCrop_saved in Happly; [exact Happly | | reflexivity..].
    eapply invariant_frame; [| | | exact Hinv]; reflexivity.
Qed.

(** Every reachable state satisfies the invariant. *)
Lemma reachable_invariant (ed : ArintEditor) : reachable ed -> invariant ed.
Proof.
  induction 1 as
    [ w h w' h' Hw Hh
    | img ed ed' _ IH Himg Hload
    | tool ed _ IH
    | ed _ IH
    | ink ed _ IH
    | ed ed' _ IH Hstop
    | x y ed _ IH
    | x y ed _ IH
    | ed _ IH
    | ed ed' _ IH Happly
    | ed _ IH
    | ed ed' _ IH Hundo
    | ed ed' _ IH Hredo ].
  - split; [| split; [| split]].
    + unfold history_ok, maxHistory. cbn. lia.
    + now apply wf_grid_blank.
    + intros e He. discriminate.
    + constructor.
  - unfold loadImage in Hload. apply saveState_saved in Hload.
    + destruct Hload as [Hsaved _].
      destruct IH as ([Hidx Hcap] & _ & _ & Hall).
      now apply saved_top in Hsaved.
    + apply IH.
    + destruct Himg as (Hw & Hh & _).
      apply wf_grid_paint. now apply wf_grid_blank.
  - eapply invariant_frame; [| | | exact IH]; unfold setTool;
      destruct (_ && _); reflexivity.
  - eapply invariant_frame; [| | | exact IH]; reflexivity.
  - unfold draw. destruct (negb _); [exact IH |].
    destruct IH as (Hh & Hwf & Hsz & Hall).
    split; [exact Hh | split; [| split; [exact Hsz | exact Hall]]].
    apply wf_grid_ink. exact Hwf.
  - destruct (isDrawing ed) eqn:Hd.
    + apply stopDrawing_saved in Hstop; [| exact IH | exact Hd].
      destruct IH as ([Hidx Hcap] & _ & _ & Hall).
      now apply saved_top in Hstop.
    + unfold stopDrawing in Hstop. rewrite Hd in Hstop.
      injection Hstop as <-. exact IH.
  - eapply invariant_frame; [| | | exact IH]; reflexivity.
  - eapply invariant_frame; [| | | exact IH]; reflexivity.
  - eapply invariant_frame; [| | | exact IH]; unfold finishCropSelection;
      cbn [cropStart cropEnd set_crop];
      destruct (cropStart ed), (cropEnd ed); try reflexivity;
      destruct (_ && _); reflexivity.
  - destruct (cropStart ed) as [cs |] eqn:Hcs.
    + destruct (cropEnd ed) as [ce |] eqn:Hce.
      * eapply applyCrop_saved in Happly; try eassumption.
        destruct IH as ([Hidx Hcap] & _ & _ & Hall).
        now apply saved_top in Happly.
      * unfold applyCrop in Happly. rewrite Hcs, Hce in Happly.
        injection Happly as <-. exact IH.
    + unfold applyCrop in Happly. rewrite Hcs in Happly.
      injection Happly as <-. exact IH.
  - eapply invariant_frame; [| | | exact IH]; reflexivity.
  - destruct (undo_cases ed (proj1 IH)) as [[_ Hu] | (_ & e & He & Hu)];
      rewrite Hu in Hundo; injection Hundo as <-; [exact IH |].
    now apply moved_invariant.
  - destruct (redo_cases ed (proj1 IH)) as [[_ Hr] | (_ & e & He & Hr)];
      rewrite Hr in Hredo; injection Hredo as <-; [exact IH |].
    now apply moved_invariant.
Qed.

(** [n] undos walk the cursor down, no further than the oldest entry. *)
Lemma times_undo (n : nat) :
  forall ed : ArintEditor,
    invariant ed -> 0 <= historyIndex ed ->
    exists ed',
      times n undo ed = JS.Ok ed'
      /\ invariant ed' /\ (synced ed -> synced ed')
      /\ history ed' = history ed
      /\ historyIndex ed' = Z.max 0 (historyIndex ed - Z.of_nat n).
Proof.
  induction n as [| n IH]; intros ed Hinv Hpos.
  - exists ed. cbn [times].
    split; [reflexivity | split; [exact Hinv | split; [auto |]]].
    split; [reflexivity | lia].
  - cbn [times].
    destruct (undo_cases ed (proj1 Hinv)) as [[Hz Hu] | (Hp & e & He & Hu)];
      rewrite Hu; cbn [JS.bind].
    + destruct (IH ed Hinv Hpos) as (ed' & Ht & Hi' & Hs' & Hh' & Hc').
      exists ed'.
      split; [exact Ht | split; [exact Hi' | split; [exact Hs' |]]].
      split; [exact Hh' | lia].
    + destruct (moved_invariant ed _ e Hinv He) as [Hinv1 Hsync1].
      destruct (IH _ Hinv1) as (ed' & Ht & Hi' & Hs' & Hh' & Hc').
      { unfold moved_to. cbn. lia. }
      exists ed'.
      split; [exact Ht | split; [exact Hi' | split; [auto |]]].
      split; [exact Hh' |].
      rewrite Hc'. unfold moved_to. cbn. lia.
Qed.

(** [n] redos walk the cursor up, no further than the newest entry. *)
Lemma times_redo (n : nat) :
  forall ed : ArintEditor,
    invariant ed -> 0 <= historyIndex ed ->
    exists ed',
      times n redo ed = JS.Ok ed'
      /\ invariant ed' /\ (synced ed -> synced ed')
      /\ history ed' = history ed
      /\ historyIndex ed' =
         Z.min (Z.of_nat (length (history ed)) - 1)
               (historyIndex ed + Z.of_nat n).
Proof.
  induction n as [| n IH]; intros ed Hinv Hpos.
  - exists ed. cbn [times].
    split; [reflexivity | split; [exact Hinv | split; [auto |]]].
    split; [reflexivity |]. destruct Hinv as ([Hidx _] & _). lia.
  - cbn [times].
    destruct (redo_cases ed (proj1 Hinv)) as [[Hz Hr] | (Hp & e & He & Hr)];
      rewrite Hr; cbn [JS.bind].
    + destruct (IH ed Hinv Hpos) as (ed' & Ht & Hi' & Hs' & Hh' & Hc').
      exists ed'.
      split; [exact Ht | split; [exact Hi' | split; [exact Hs' |]]].
      split; [exact Hh' | lia].
    + destruct (moved_invariant ed _ e Hinv He) as [Hinv1 Hsync1].
      destruct (IH _ Hinv1) as (ed' & Ht & Hi' & Hs' & Hh' & Hc').
      { unfold moved_to. cbn. lia. }
      exists ed'.
      split; [exact Ht | split; [exact Hi' | split; [auto |]]].
      split; [exact Hh' |].
      rewrite Hc'. unfold moved_to. cbn. lia.
Qed.

Lemma reachable_perform (e : Edit) (ed ed' : ArintEditor) :
  reachable ed -> perform e ed = JS.Ok ed' -> reachable ed'.
Proof.
  intros Hreach. destruct e as [ink | a b]; cbn [perform]; intro Hrun.
  - eapply reach_stopDrawing; [| exact Hrun].
    now apply reach_draw, reach_startDrawing.
  - eapply reach_applyCrop; [| exact Hrun].
    now apply reach_finishCropSelection, reach_updateCrop, reach_startCrop.
Qed.

Lemma reachable_perform_all (es : list Edit) :
  forall ed ed' : ArintEditor,
    reachable ed -> perform_all es ed = JS.Ok ed' -> reachable ed'.
Proof.
  induction es as [| e es IH]; intros ed ed' Hreach; cbn [perform_all].
  - intro Heq. now injection Heq as <-.
  - destruct (perform e ed) as [ed1 |] eqn:Hp; cbn [JS.bind];
      [| discriminate].
    apply IH. eapply reachable_perform; eassumption.
Qed.

(** After at least one committed edit the cursor is on the newest entry,
    and that entry is the canvas. *)
Lemma perform_all_top (es : list Edit) :
  forall ed ed' : ArintEditor,
    invariant ed -> Forall committed es -> es <> [] ->
    perform_all es ed = JS.Ok ed' ->
    invariant ed' /\ synced ed'
    /\ historyIndex ed' = Z.of_nat (length (history ed')) - 1
    /\ 0 <= historyIndex ed'.
Proof.
  induction es as [| e es IH]; intros ed ed' Hinv Hall Hne; [congruence |].
  cbn [perform_all].
  destruct (perform e ed) as [ed1 |] eqn:Hp; cbn [JS.bind]; [| discriminate].
  inversion Hall as [| ? ? He Hes]; subst.
  apply perform_saved in Hp; [| exact Hinv | exact He].
  pose proof Hinv as ([Hidx Hcap] & _ & _ & Hok).
  destruct (saved_top _ _ _ Hidx Hcap Hok Hp) as (Hinv1 & Htop1 & Hcur1).
  destruct es as [| e2 es].
  - cbn [perform_all]. intro Heq. injection Heq as <-.
    split; [exact Hinv1 | split; [| split; [exact Htop1 |]]].
    + eapply saved_synced; eassumption.
    + apply index_Some_range in Hcur1. lia.
  - apply IH; [exact Hinv1 | exact Hes | discriminate].
Qed.

(** C5, without the bound on the number of edits. *)
Lemma undo_redo_restores (ed0 ed1 : ArintEditor) (edits : list Edit) :
  reachable ed0 -> Forall committed edits ->
  perform_all edits ed0 = JS.Ok ed1 ->
  exists ed2 ed3,
    times (length edits) undo ed1 = JS.Ok ed2
    /\ times (length edits) redo ed2 = JS.Ok ed3
    /\ mainCanvas ed3 = mainCanvas ed1
    /\ history ed3 = history ed1
    /\ historyIndex ed3 = historyIndex ed1.
Proof.
  intros Hreach Hall Hrun.
  destruct edits as [| e es].
  { cbn in Hrun. injection Hrun as <-. exists ed0, ed0. cbn. auto. }
  apply reachable_invariant in Hreach.
  destruct (perform_all_top (e :: es) ed0 ed1 Hreach Hall ltac:(discriminate) Hrun)
    as (Hinv1 & Hsync1 & Htop1 & Hpos1).
  destruct (times_undo (length (e :: es)) ed1 Hinv1 Hpos1)
    as (ed2 & Hu & Hinv2 & Hsync2 & Hh2 & Hi2).
  destruct (times_redo (length (e :: es)) ed2 Hinv2)
    as (ed3 & Hr & Hinv3 & Hsync3 & Hh3 & Hi3); [lia |].
  exists ed2, ed3.
  assert (Hidx : historyIndex ed3 = historyIndex ed1).
  { rewrite Hi3, Hh2, Hi2. lia. }
  assert (Hhist : history ed3 = history ed1) by congruence.
  split; [exact Hu | split; [exact Hr | split; [| split; assumption]]].
  destruct (index_in_range (history ed1) (historyIndex ed1)) as [top Htop];
    [lia |].
  rewrite (Hsync1 top Htop). apply Hsync3; [auto |].
  unfold current. now rewrite Hhist, Hidx.
Qed.

(** C5. For every N up to the history capacity: after N committed edits,
    N undos followed by N redos succeed and leave the canvas, pixels and
    dimensions, exactly as it was after the Nth edit (and the history and
    its cursor as well). *)
Theorem undo_then_redo_round_trip
  (ed0 ed1 : ArintEditor) (edits : list Edit) :
  reachable ed0 ->
  Forall committed edits ->
  Z.of_nat (length edits) <= maxHistory ->
  perform_all edits ed0 = JS.Ok ed1 ->
  exists ed2 ed3,
    times (length edits) undo ed1 = JS.Ok ed2
    /\ times (length edits) redo ed2 = JS.Ok ed3
    /\ mainCanvas ed3 = mainCanvas ed1
    /\ history ed3 = history ed1
    /\ historyIndex ed3 = historyIndex ed1.
Proof.
  intros Hreach Hall _ Hrun. now apply undo_redo_restores with (ed0 := ed0).
Qed.

(** C10. A [saveState] that completes, in any reachable state, leaves the
    cursor on the newest entry (historyIndex = history.length - 1) and the
    history no longer than maxHistory (20); when the history was full with
    the cursor on its newest entry, the oldest entry is dropped, the
    snapshot is appended, and the cursor stays at maxHistory - 1. *)
Theorem saveState_cursor_on_newest (ed ed' : ArintEditor) :
  reachable ed ->
  saveState ed = JS.Ok ed' ->
  historyIndex ed' = Z.of_nat (length (history ed')) - 1
  /\ Z.of_nat (length (history ed')) <= maxHistory
  /\ current ed' = Some (snapshot (mainCanvas ed))
  /\ (Z.of_nat (length (history ed)) = maxHistory ->
      historyIndex ed = maxHistory - 1 ->
      history ed' = tl (history ed) ++ [snapshot (mainCanvas ed)]
      /\ historyIndex ed' = maxHistory - 1).
Proof.
  intros Hreach Hsave. apply reachable_invariant in Hreach.
  pose proof Hreach as ([Hidx Hcap] & Hwf & _ & Hok).
  destruct (saveState_saved ed ed' (proj1 Hreach) Hwf Hsave) as [Hsaved Hc].
  destruct (saved_top _ _ _ Hidx Hcap Hok Hsaved)
    as (([_ Hcap'] & _) & Htop & Hcur).
  rewrite Hc in Hcur.
  split; [exact Htop | split; [exact Hcap' | split; [exact Hcur |]]].
  intros Hfull Hlast. split.
  - destruct Hsaved as (Hh & _). rewrite Hh, Hc. unfold maxHistory in *.
    replace (20 <? historyIndex ed + 2) with true
      by (symmetry; apply Z.ltb_lt; lia).
    destruct (history ed); [cbn in *; lia | reflexivity].
  - destruct Hsaved as (_ & Hi & _). rewrite Hi. unfold maxHistory in *.
    replace (20 <? historyIndex ed + 2) with true
      by (symmetry; apply Z.ltb_lt; lia).
    lia.
Qed.

(** C6. A committed edit made after undoing K steps (K >= 1, from the
    newest entry) leaves the history as its first length - K entries
    followed by the new snapshot: the K entries that could be redone are
    gone. A redo right after it changes nothing; after one undo, a redo
    moves the cursor forward again and shows the same canvas. *)
Theorem edit_after_undo_discards_redo
  (ed0 ed ed' : ArintEditor) (K : nat) (e : Edit) :
  reachable ed0 ->
  historyIndex ed0 = Z.of_nat (length (history ed0)) - 1 ->
  (1 <= K)%nat -> Z.of_nat K <= historyIndex ed0 ->
  times K undo ed0 = JS.Ok ed ->
  committed e -> perform e ed = JS.Ok ed' ->
  history ed' =
    firstn (length (history ed0) - K) (history ed0)
    ++ [snapshot (mainCanvas ed')]
  /\ historyIndex ed' = Z.of_nat (length (history ed')) - 1
  /\ redo ed' = JS.Ok ed'
  /\ exists ed1 ed2,
       undo ed' = JS.Ok ed1
       /\ historyIndex ed1 = historyIndex ed' - 1
       /\ redo ed1 = JS.Ok ed2
       /\ historyIndex ed2 = historyIndex ed'
       /\ mainCanvas ed2 = mainCanvas ed'.
Proof.
  intros Hreach Htop HK HK' Hundo Hc Hperf.
  apply reachable_invariant in Hreach.
  destruct (times_undo K ed0 Hreach) as (ed_ & Hu & Hinv & _ & Hh & Hi);
    [lia |].
  rewrite Hundo in Hu. injection Hu as <-.
  pose proof (perform_saved e ed ed' Hinv Hc Hperf) as Hsaved.
  pose proof Hinv as ([Hidx Hcap] & _ & _ & Hok).
  destruct (saved_top _ _ _ Hidx Hcap Hok Hsaved) as (Hinv' & Htop' & Hcur').
  pose proof (saved_synced _ _ _ Hsaved Hcur') as Hsync'.
  destruct Hsaved as (Hhist & Hidx' & _).
  assert (Hlen : length (history ed) = length (history ed0))
    by now rewrite Hh.
  unfold maxHistory in *.
  replace (20 <? historyIndex ed + 2) with false in Hhist, Hidx'
    by (symmetry; apply Z.ltb_ge; lia).
  assert (Hkeep : Z.to_nat (historyIndex ed + 1)
                  = (length (history ed0) - K)%nat) by lia.
  rewrite Hkeep, Hh in Hhist.
  split; [exact Hhist | split; [exact Htop' |]].
  destruct (redo_cases ed' (proj1 Hinv')) as [[_ Hr] | [Hlt _]]; [| lia].
  split; [exact Hr |].
  destruct (undo_cases ed' (proj1 Hinv')) as [[Hz _] | (_ & e1 & He1 & Hu1)];
    [lia |].
  destruct (moved_invariant ed' _ e1 Hinv' He1) as [Hinv1 _].
  set (ed1 := moved_to (historyIndex ed' - 1) e1 ed') in *.
  destruct (redo_cases ed1 (proj1 Hinv1)) as [[Hz _] | (_ & e2 & He2 & Hr2)].
  { unfold ed1, moved_to in Hz. cbn in Hz. lia. }
  exists ed1, (moved_to (historyIndex ed1 + 1) e2 ed1).
  split; [exact Hu1 | split; [reflexivity | split; [exact Hr2 |]]].
  assert (Hback : historyIndex ed1 + 1 = historyIndex ed')
    by (unfold ed1, moved_to; cbn; lia).
  split; [unfold moved_to at 1; cbn; exact Hback |].
  rewrite Hback in He2. unfold ed1, moved_to in He2. cbn in He2.
  unfold moved_to at 1. cbn [mainCanvas set_canvases].
  symmetry. apply Hsync'. exact He2.
Qed.

(** C9, as the code has it. After an undo or a redo, in any reachable
    state, the canvas has the dimensions of the history entry under the
    cursor, history[historyIndex]. *)
Theorem restore_shows_entry_under_cursor
  (ed ed' : ArintEditor) (e : HistoryEntry) :
  reachable ed ->
  undo ed = JS.Ok ed' \/ redo ed = JS.Ok ed' ->
  current ed' = Some e ->
  Raster.width (mainCanvas ed') = width e
  /\ Raster.height (mainCanvas ed') = height e.
Proof.
  intros Hreach Hop Hcur.
  assert (Hreach' : reachable ed').
  { destruct Hop; [eapply reach_undo | eapply reach_redo]; eassumption. }
  apply reachable_invariant in Hreach'.
  destruct Hreach' as (_ & _ & Hsize & _). now apply Hsize.
Qed.

(** Undo at the oldest entry (or before anything is saved) and redo at
    the newest entry leave the editor as it is. *)
Theorem undo_redo_idle_at_ends (ed : ArintEditor) :
  (historyIndex ed <= 0 -> undo ed = JS.Ok ed)
  /\ (Z.of_nat (length (history ed)) - 1 <= historyIndex ed ->
      redo ed = JS.Ok ed).
Proof.
  unfold undo, redo. split; intro Hend.
  - replace (0 <? historyIndex ed) with false
      by (symmetry; apply Z.ltb_ge; lia).
    reflexivity.
  - replace (historyIndex ed <? Z.of_nat (length (history ed)) - 1) with false
      by (symmetry; apply Z.ltb_ge; lia).
    reflexivity.
Qed.

(** X4. In every state the editor can reach, the history holds at most
    maxHistory = 20 entries and the cursor is -1 (nothing saved yet) or
    the index of an entry. *)
Theorem history_bounded (ed : ArintEditor) :
  reachable ed ->
  Z.of_nat (length (history ed)) <= maxHistory
  /\ -1 <= historyIndex ed <= Z.of_nat (length (history ed)) - 1.
Proof.
  intro Hreach. apply EditorProofs.reachable_invariant in Hreach.
  destruct Hreach as ([Hidx Hlen] & _). split; assumption.
Qed.

End EditorProofs.

(* ===================================================================== *)
(** * The region selector's pointer-up *)
(* ===================================================================== *)

Module ContentProofs.

Import Messages Content.

Lemma selections_app (a b : list Message) :
  selections (a ++ b) = selections a ++ selections b.
Proof.
  induction a as [| [] a IH]; cbn; congruence.
Qed.

(** Once cleaned up with no timer pending, the script says nothing more. *)
Lemma silent_after_cleanup (dpr : Q) (evs : list Event) :
  forall s : Selector,
    active s = false -> timers s = [] -> run dpr evs s = (s, []).
Proof.
  induction evs as [| ev evs IH]; intros s Hact Htim; cbn [run];
    [reflexivity |].
  assert (Hd : dispatch dpr ev s = (s, [])).
  { destruct ev; cbn [dispatch]; rewrite ?Hact; try reflexivity.
    unfold onTimeout. now rewrite Htim. }
  rewrite Hd, (IH s Hact Htim). reflexivity.
Qed.

(** With the overlay hidden, no drag in progress and one timer pending,
    the only rectangle ever sent is the timer's, when it fires. *)
Lemma one_selection_pending (dpr : Q) (rect : Selection) (evs : list Event) :
  forall s : Selector,
    isSelecting s = false -> overlayShown s = false -> timers s = [rect] ->
    selections (snd (run dpr evs s))
    = if existsb is_timeout evs then [rect] else [].
Proof.
  induction evs as [| ev evs IH]; intros s Hsel Hov Htim; cbn [run];
    [reflexivity |].
  destruct ev as [e | e | e | escape |]; cbn [dispatch existsb is_timeout orb].
  - rewrite Hov, andb_false_r.
    specialize (IH s Hsel Hov Htim). destruct (run dpr evs s). exact IH.
  - assert (Hmove : (if active s then (onMouseMove e s, [])
                     else (s, @nil Message)) = (s, [])).
    { unfold onMouseMove. rewrite Hsel. now destruct (active s). }
    rewrite Hmove.
    specialize (IH s Hsel Hov Htim). destruct (run dpr evs s). exact IH.
  - assert (Hup : (if active s then onMouseUp dpr e s
                   else (s, @nil Message)) = (s, [])).
    { unfold onMouseUp. rewrite Hsel. now destruct (active s). }
    rewrite Hup.
    specialize (IH s Hsel Hov Htim). destruct (run dpr evs s). exact IH.
  - destruct (active s && escape) eqn:Hesc.
    + apply andb_prop in Hesc. destruct Hesc as [-> ->]. cbn [onKeyDown].
      specialize (IH (cleanup s) Hsel eq_refl Htim).
      destruct (run dpr evs (cleanup s)). exact IH.
    + assert (Hkey : (if active s then onKeyDown escape s
                      else (s, @nil Message)) = (s, [])).
      { destruct (active s), escape; try discriminate; reflexivity. }
      rewrite Hkey.
      specialize (IH s Hsel Hov Htim). destruct (run dpr evs s). exact IH.
  - unfold onTimeout. rewrite Htim.
    rewrite silent_after_cleanup by reflexivity. reflexivity.
Qed.

Lemma dispatch_settled (dpr : Q) (ev : Event) (s : Selector) :
  settled s -> settled (fst (dispatch dpr ev s)).
Proof.
  intros Hs. destruct ev as [e | e | e | escape |]; cbn [dispatch].
  - destruct (active s && overlayShown s) eqn:Hshown; [| exact Hs].
    apply andb_prop in Hshown. destruct Hshown as [_ Hov].
    destruct Hs as [Hs | [_ Hs]]; [now left | congruence].
  - destruct (active s); [| exact Hs]. cbn [fst]. unfold onMouseMove.
    destruct (negb (isSelecting s)); exact Hs.
  - destruct (active s); [| exact Hs]. unfold onMouseUp.
    destruct (negb (isSelecting s)) eqn:Hsel; [exact Hs |].
    apply negb_false_iff in Hsel.
    destruct Hs as [Hs | [Hs _]]; [| congruence].
    cbn [startX startY timers].
    destruct (_ || _); cbn [fst]; [now left |].
    right. split; reflexivity.
  - destruct (active s); [| exact Hs].
    destruct escape; cbn [onKeyDown fst]; [| exact Hs].
    destruct Hs as [Hs | [Hs _]]; [now left | right; split; [exact Hs |]].
    reflexivity.
  - unfold onTimeout.
    destruct (timers s) as [| sel rest] eqn:Htim; cbn [fst];
      [left; exact Htim |].
    destruct Hs as [Hs | [Hs _]]; [congruence |].
    right. split; [exact Hs | reflexivity].
Qed.

Lemma run_settled (dpr : Q) (evs : list Event) :
  forall s : Selector, settled s -> settled (fst (run dpr evs s)).
Proof.
  induction evs as [| ev evs IH]; intros s Hs; cbn [run]; [exact Hs |].
  pose proof (dispatch_settled dpr ev s Hs) as Hs1.
  destruct (dispatch dpr ev s) as [s1 out1]. cbn [fst] in Hs1.
  specialize (IH s1 Hs1). destruct (run dpr evs s1) as [s2 out2].
  exact IH.
Qed.

(** C8. A pointer-up that ends a drag, in whatever state the selector has
    come to since it was injected: if the rectangle dragged, with its sides
    taken as absolute differences, is less than 10 px wide or high, the
    selector sends SELECTION_CANCELLED at once and no message at all
    afterwards, wherever the rectangle lies; otherwise it sends nothing at
    once, and of all that follows exactly one message carries a rectangle,
    sent when the timer fires: the normalised rectangle of the drag. *)
Theorem pointer_up_cancels_or_selects
  (dpr : Q) (before : list Event) (e : MouseEvent) :
  let s := fst (run dpr before init) in
  isSelecting s = true ->
  let width := Z.abs (clientX e - startX s) in
  let height := Z.abs (clientY e - startY s) in
  let rect :=
    {| x := Z.min (startX s) (clientX e);
       y := Z.min (startY s) (clientY e);
       width := width; height := height;
       devicePixelRatio := JS.or1 dpr |} in
  (width < 10 \/ height < 10 ->
     snd (onMouseUp dpr e s) = [SELECTION_CANCELLED]
     /\ forall evs, snd (run dpr evs (fst (onMouseUp dpr e s))) = [])
  /\ (10 <= width /\ 10 <= height ->
     snd (onMouseUp dpr e s) = []
     /\ forall evs,
          selections (snd (run dpr evs (fst (onMouseUp dpr e s))))
          = if existsb is_timeout evs then [rect] else []).
Proof.
  intros s Hsel width height rect.
  assert (Htim : timers s = []).
  { destruct (run_settled dpr before init (or_introl eq_refl))
      as [Htim | [Hidle _]]; [exact Htim |].
    fold s in Hidle. congruence. }
  unfold onMouseUp. rewrite Hsel. cbn [negb startX startY timers].
  fold width height. split.
  - intros Hsmall.
    replace ((width <? 10) || (height <? 10)) with true
      by (symmetry; apply orb_true_iff;
          destruct Hsmall; [left | right]; apply Z.ltb_lt; assumption).
    split; [reflexivity |]. intro evs. cbn [fst].
    rewrite silent_after_cleanup; [reflexivity | reflexivity | exact Htim].
  - intros [Hw Hh].
    replace ((width <? 10) || (height <? 10)) with false
      by (symmetry; apply orb_false_iff; split; apply Z.ltb_ge; assumption).
    split; [reflexivity |]. intro evs. cbn [fst].
    apply one_selection_pending; cbn; [reflexivity | reflexivity |].
    now rewrite Htim.
Qed.

(** A pointer-up with no drag in progress is ignored. *)
Lemma pointer_up_without_drag (dpr : Q) (e : MouseEvent) (s : Selector) :
  isSelecting s = false -> onMouseUp dpr e s = (s, []).
Proof.
  intro Hsel. unfold onMouseUp. now rewrite Hsel.
Qed.

End ContentProofs.

(* ===================================================================== *)
(** * Stitching *)
(* ===================================================================== *)

Module StitchProofs.

Import Raster Background Facts.

Lemma on_grid_int (q : Q) (z : Z) : (q == inject_Z z)%Q -> on_grid q = Some z.
Proof.
  intro Hq. unfold on_grid.
  rewrite (Qfloor_comp _ _ Hq), Qfloor_Z.
  replace (Qeq_bool (inject_Z z) q) with true; [reflexivity |].
  symmetry. apply Qeq_bool_iff. now symmetry.
Qed.

Lemma Qeq_bool_int_0 (q : Q) (z : Z) :
  (q == inject_Z z)%Q -> z <> 0 -> Qeq_bool q 0 = false.
Proof.
  intros Hq Hz. apply not_true_is_false. intro Hb.
  apply Qeq_bool_iff in Hb. rewrite Hq in Hb.
  unfold Qeq in Hb. cbn in Hb. lia.
Qed.

(** An integer below a number is at most its floor. *)
Lemma below_floor (z : Z) (q : Q) : (inject_Z z < q)%Q -> z <= Qfloor q.
Proof.
  intro Hlt. pose proof (Qlt_floor q) as Hq.
  assert (Hz : (inject_Z z < inject_Z (Qfloor q + 1))%Q)
    by (eapply Qlt_trans; eassumption).
  rewrite <- Zlt_Qlt in Hz. lia.
Qed.

Lemma integer_part_floor (q : Q) : (0 <= q)%Q -> integer_part q = Qfloor q.
Proof.
  destruct q as [num den]. unfold Qle, integer_part, Qfloor. cbn.
  intro Hq. apply Z.quot_div_nonneg; lia.
Qed.

(** ** Blocks of rows painted one under the other *)

Lemma overlay_on_blank_rows (w : Z) (block : grid) :
  Forall (fun row => length row = Z.to_nat w) block ->
  forall m : nat,
    overlay (place (fun (p : pixel) (_ : pixel) => p) 0) block
            (blank_rows w m)
    = firstn m block ++ blank_rows w (m - length block).
Proof.
  unfold blank_rows.
  induction 1 as [| row block Hrow _ IH]; intro m.
  - cbn [overlay length]. now rewrite firstn_nil, Nat.sub_0_r.
  - destruct m as [| m]; [reflexivity |].
    cbn [repeat overlay firstn length Nat.sub app].
    rewrite IH. f_equal.
    rewrite place_0. apply overlay_replace. now rewrite repeat_length.
Qed.

(** A block painted right under what has been painted so far. *)
Lemma paint_under (w : Z) (done block : grid) (m : nat) :
  Forall (fun row => length row = Z.to_nat w) block ->
  paint 0 (Z.of_nat (length done)) block (done ++ blank_rows w m)
  = done ++ firstn m block ++ blank_rows w (m - length block).
Proof.
  intro Hblock. unfold paint, place.
  replace (Z.of_nat (length done) <? 0) with false
    by (symmetry; apply Z.ltb_ge; lia).
  rewrite Nat2Z.id, firstn_app, firstn_all, Nat.sub_diag, firstn_O, app_nil_r.
  rewrite skipn_app, skipn_all, Nat.sub_diag, skipn_O. cbn [app].
  f_equal. now apply overlay_on_blank_rows.
Qed.

Lemma sub_grid_whole (w h : Z) (g : grid) :
  wf_grid w h g -> sub_grid 0 0 w h g = g.
Proof.
  intros (_ & _ & Hlen & Hrows). unfold sub_grid.
  cbn [Z.to_nat skipn]. rewrite <- Hlen, firstn_all.
  rewrite <- (map_id g) at 2. apply map_ext_in. intros row Hin.
  rewrite Forall_forall in Hrows. rewrite <- (Hrows row Hin).
  apply firstn_all.
Qed.

Lemma sub_grid_bottom (w h sy : Z) (g : grid) :
  wf_grid w h g -> 0 <= sy ->
  sub_grid 0 sy w (h - sy) g = skipn (Z.to_nat sy) g.
Proof.
  intros (_ & _ & Hlen & Hrows) Hsy. unfold sub_grid.
  rewrite firstn_all2 by (rewrite length_skipn; lia).
  rewrite <- (map_id (skipn _ g)) at 2. apply map_ext_in. intros row Hin.
  rewrite Forall_forall in Hrows.
  assert (Hin' : In row g).
  { rewrite <- (firstn_skipn (Z.to_nat sy) g). apply in_or_app. now right. }
  cbn [Z.to_nat skipn]. rewrite <- (Hrows row Hin'). apply firstn_all.
Qed.

(** ** One page, captured at one scale *)

Section Segments.

Context {Tab : Type} `{Browser Tab}.

Variable d : Dimensions.

(** The device-pixel width and height of a captured viewport, and the
    device-pixel height of the document. *)
Variables w h s : Z.

Let V := viewportHeight d.
Let SH := scrollHeight d.
Let r := devicePixelRatio d.
Let total := Z.min SH MAX_PAGE_HEIGHT.
Let n := Qceiling (inject_Z total / inject_Z V).
Let ch := integer_part (inject_Z total * r).

Hypothesis HV : 0 < V.
Hypothesis HS : 0 < SH.
Hypothesis Hr : (0 < r)%Q.
Hypothesis Hw : (inject_Z w == inject_Z (viewportWidth d) * r)%Q.
Hypothesis Hh : (inject_Z h == inject_Z V * r)%Q.
Hypothesis Hs : (inject_Z s == inject_Z SH * r)%Q.
Hypothesis Hwpos : 0 < w.

Lemma scaled (k : Z) : (inject_Z (k * V) * r == inject_Z (k * h))%Q.
Proof.
  rewrite !inject_Z_mult, Hh. ring.
Qed.

Lemma h_pos : 0 < h.
Proof.
  rewrite Zlt_Qlt, Hh. apply Qmult_lt_0_compat; [| exact Hr].
  change 0%Q with (inject_Z 0). rewrite <- Zlt_Qlt. exact HV.
Qed.

Lemma total_bounds : 0 < total /\ (n - 1) * V < total <= n * V /\ 1 <= n.
Proof.
  pose proof (ceiling_div_bounds total V HV) as Hb. fold n in Hb.
  assert (Ht : 0 < total) by (unfold total, MAX_PAGE_HEIGHT; lia).
  split; [exact Ht | split; [exact Hb |]]. nia.
Qed.

Lemma total_scaled_nonneg : (0 <= inject_Z total * r)%Q.
Proof.
  destruct total_bounds as (Ht & _).
  apply Qmult_le_0_compat; [| now apply Qlt_le_weak].
  change 0%Q with (inject_Z 0). rewrite <- Zle_Qle. lia.
Qed.

Lemma ch_bounds :
  0 <= ch /\ (n - 1) * h <= ch /\ ch <= n * h /\ ch <= s
  /\ (SH <= MAX_PAGE_HEIGHT -> ch = s).
Proof.
  destruct total_bounds as (Ht & [Hlo Hhi] & Hn).
  assert (Hch : ch = Qfloor (inject_Z total * r))
    by (apply integer_part_floor, total_scaled_nonneg).
  assert (Hle : (inject_Z ch <= inject_Z total * r)%Q)
    by (rewrite Hch; apply Qfloor_le).
  split; [| split; [| split; [| split]]].
  - rewrite Hch.
    replace 0 with (Qfloor (inject_Z 0)) by apply Qfloor_Z.
    apply Qfloor_resp_le. exact total_scaled_nonneg.
  - rewrite Hch. apply below_floor. rewrite <- scaled.
    apply Qmult_lt_compat_r; [exact Hr |]. now rewrite <- Zlt_Qlt.
  - rewrite Zle_Qle. eapply Qle_trans; [exact Hle |].
    rewrite <- scaled. apply Qmult_le_compat_r; [| now apply Qlt_le_weak].
    now rewrite <- Zle_Qle.
  - rewrite Zle_Qle. eapply Qle_trans; [exact Hle |].
    rewrite Hs. apply Qmult_le_compat_r; [| now apply Qlt_le_weak].
    rewrite <- Zle_Qle. apply Z.le_min_l.
  - intro Hcap. rewrite Hch.
    replace total with SH by (unfold total; lia).
    rewrite <- Hs. apply Qfloor_Z.
Qed.

Lemma viewport_rows (cap : Capture) :
  viewport_sized w h cap ->
  wf_grid w h (pixels (imageData cap))
  /\ Forall (fun row => length row = Z.to_nat w) (pixels (imageData cap))
  /\ length (pixels (imageData cap)) = Z.to_nat h.
Proof.
  intros (Hwf & Hcw & Hchh). unfold wf_bitmap in Hwf.
  rewrite Hcw, Hchh in Hwf. split; [exact Hwf |].
  destruct Hwf as (_ & _ & Hlen & Hrows). auto.
Qed.

(** A segment that is not the last is painted whole at its offset. *)
Lemma draw_inner (cap : Capture) (k : Z) (g : grid) :
  isLast cap = false -> viewport_sized w h cap -> offsetY cap = k * V ->
  draw_capture d {| cwidth := w; cheight := ch; surface := Some g |} cap
  = {| cwidth := w; cheight := ch;
       surface := Some (paint 0 (k * h) (pixels (imageData cap)) g) |}.
Proof.
  intros Hlast Hsized Hoff.
  destruct (viewport_rows cap Hsized) as (Hwf & _).
  destruct Hsized as (_ & Hcw & Hchh).
  pose proof h_pos as Hhpos.
  unfold draw_capture, drawImage3, drawImage9. rewrite Hlast, Hcw, Hchh, Hoff.
  fold r.
  rewrite (Qeq_bool_int_0 (inject_Z w) w), (Qeq_bool_int_0 (inject_Z h) h)
    by (reflexivity || lia).
  cbn [orb surface cwidth cheight].
  rewrite (on_grid_int 0 0), (on_grid_int (inject_Z w) w),
    (on_grid_int (inject_Z h) h), (on_grid_int _ _ (scaled k))
    by reflexivity.
  rewrite !Qeq_bool_refl.
  replace (0 <? w) with true by (symmetry; apply Z.ltb_lt; lia).
  replace (0 <? h) with true by (symmetry; apply Z.ltb_lt; lia).
  cbn [andb Z.leb Z.compare].
  now rewrite (sub_grid_whole _ _ _ Hwf).
Qed.

Lemma remaining_scaled :
  (inject_Z SH * r - inject_Z ((n - 1) * V) * r
   == inject_Z (s - (n - 1) * h))%Q.
Proof.
  rewrite scaled, <- Hs.
  replace (s - (n - 1) * h) with (s + - ((n - 1) * h)) by lia.
  unfold Qminus. now rewrite inject_Z_plus, inject_Z_opp.
Qed.

Lemma source_scaled :
  (inject_Z h - (inject_Z SH * r - inject_Z ((n - 1) * V) * r)
   == inject_Z (n * h - s))%Q.
Proof.
  rewrite remaining_scaled.
  replace (n * h - s) with (h + - (s - (n - 1) * h)) by lia.
  unfold Qminus. now rewrite inject_Z_plus, inject_Z_opp.
Qed.

Lemma document_below_last_offset : (n - 1) * h < s.
Proof.
  destruct total_bounds as (_ & [Hlo _] & _).
  rewrite Zlt_Qlt, <- scaled, Hs.
  apply Qmult_lt_compat_r; [exact Hr |].
  rewrite <- Zlt_Qlt. unfold total in Hlo. lia.
Qed.

(** The last segment: the rows of its image from row [n * h - s] on (all
    of them when that is not positive) are painted at its offset. *)
Lemma draw_last (cap : Capture) (g : grid) :
  isLast cap = true -> viewport_sized w h cap ->
  offsetY cap = (n - 1) * V ->
  draw_capture d {| cwidth := w; cheight := ch; surface := Some g |} cap
  = {| cwidth := w; cheight := ch;
       surface :=
         Some (paint 0 ((n - 1) * h)
                 (skipn (Z.to_nat (n * h - s)) (pixels (imageData cap)))
                 g) |}.
Proof.
  intros Hlast Hsized Hoff.
  destruct (viewport_rows cap Hsized) as (Hwf & _).
  destruct Hsized as (_ & Hcw & Hchh).
  pose proof h_pos as Hhpos.
  pose proof document_below_last_offset as Hbelow.
  unfold draw_capture. rewrite Hlast, Hcw, Hchh, Hoff. fold r SH.
  destruct (Qlt_le_dec 0 _) as [Hcrop | Hwhole].
  - rewrite source_scaled in Hcrop.
    change 0%Q with (inject_Z 0) in Hcrop. rewrite <- Zlt_Qlt in Hcrop.
    unfold drawImage9.
    rewrite (Qeq_bool_int_0 (inject_Z w) w) by (reflexivity || lia).
    rewrite (Qeq_bool_int_0 _ _ remaining_scaled) by lia.
    cbn [orb surface cwidth cheight].
    rewrite (on_grid_int 0 0), (on_grid_int (inject_Z w) w),
      (on_grid_int _ _ source_scaled), (on_grid_int _ _ remaining_scaled),
      (on_grid_int _ _ (scaled (n - 1)))
      by reflexivity.
    rewrite !Qeq_bool_refl.
    replace (0 <? w) with true by (symmetry; apply Z.ltb_lt; lia).
    replace (0 <? s - (n - 1) * h) with true
      by (symmetry; apply Z.ltb_lt; lia).
    replace (0 <=? n * h - s) with true by (symmetry; apply Z.leb_le; lia).
    cbn [andb Z.leb Z.compare].
    replace (s - (n - 1) * h) with (h - (n * h - s)) by lia.
    rewrite (sub_grid_bottom _ _ _ _ Hwf) by lia. reflexivity.
  - rewrite source_scaled in Hwhole.
    change 0%Q with (inject_Z 0) in Hwhole. rewrite <- Zle_Qle in Hwhole.
    replace (Z.to_nat (n * h - s)) with O by lia. cbn [skipn].
    unfold drawImage3, drawImage9. rewrite Hcw, Hchh.
    rewrite (Qeq_bool_int_0 (inject_Z w) w), (Qeq_bool_int_0 (inject_Z h) h)
      by (reflexivity || lia).
    cbn [orb surface cwidth cheight].
    rewrite (on_grid_int 0 0), (on_grid_int (inject_Z w) w),
      (on_grid_int (inject_Z h) h), (on_grid_int _ _ (scaled (n - 1)))
      by reflexivity.
    rewrite !Qeq_bool_refl.
    replace (0 <? w) with true by (symmetry; apply Z.ltb_lt; lia).
    replace (0 <? h) with true by (symmetry; apply Z.ltb_lt; lia).
    cbn [andb Z.leb Z.compare].
    now rewrite (sub_grid_whole _ _ _ Hwf).
Qed.

(** The loop of [stitchImages] from segment [k] on, over what the
    segments before it have painted. *)
Lemma stitch_fold (fin : Capture) :
  isLast fin = true -> viewport_sized w h fin ->
  offsetY fin = (n - 1) * V ->
  forall (front : list Capture) (k : Z) (done : grid),
    0 <= k -> k + Z.of_nat (length front) = n - 1 ->
    Z.of_nat (length done) = k * h ->
    Forall (fun cap => isLast cap = false /\ viewport_sized w h cap) front ->
    map offsetY front
    = map (fun i => i * V) (zrange k (Z.of_nat (length front))) ->
    fold_left (draw_capture d) (front ++ [fin])
      {| cwidth := w; cheight := ch;
         surface :=
           Some (done ++ blank_rows w (Z.to_nat ch - length done)) |}
    = {| cwidth := w; cheight := ch;
         surface :=
           Some (firstn (Z.to_nat ch)
                   (done
                    ++ concat (map (fun cap => pixels (imageData cap)) front)
                    ++ skipn (Z.to_nat (n * h - s))
                             (pixels (imageData fin)))) |}.
Proof.
  intros Hlast Hsized Hoff.
  destruct ch_bounds as (Hch0 & Hchlo & Hchhi & Hchs & _).
  pose proof h_pos as Hhpos.
  induction front as [| cap front IH]; intros k done Hk Hcount Hdone Hall Hoffs.
  - cbn [length] in Hcount. assert (Hkn : k = n - 1) by lia. subst k.
    cbn [app fold_left map concat].
    rewrite (draw_last _ _ Hlast Hsized Hoff).
    replace ((n - 1) * h) with (Z.of_nat (length done)) by lia.
    destruct (viewport_rows fin Hsized) as (_ & Hrows & Hlen).
    rewrite paint_under.
    2:{ rewrite <- (firstn_skipn (Z.to_nat (n * h - s))) in Hrows.
        now apply Forall_app in Hrows. }
    rewrite length_skipn, Hlen.
    replace (Z.to_nat ch - length done - (Z.to_nat h - Z.to_nat (n * h - s)))%nat
      with O by lia.
    cbn [blank_rows repeat]. rewrite app_nil_r.
    rewrite firstn_app, (firstn_all2 done) by lia. reflexivity.
  - cbn [length] in Hcount. inversion Hall as [| ? ? [Hinner Hcap] Hrest]; subst.
    change (length (cap :: front)) with (S (length front)) in Hoffs.
    rewrite Nat2Z.inj_succ, zrange_cons, !map_cons in Hoffs by lia.
    injection Hoffs as Hoffk Hoffs.
    replace (Z.succ (Z.of_nat (length front)) - 1)
      with (Z.of_nat (length front)) in Hoffs by lia.
    cbn [app fold_left].
    rewrite (draw_inner _ k _ Hinner Hcap Hoffk).
    replace (k * h) with (Z.of_nat (length done)) by lia.
    destruct (viewport_rows cap Hcap) as (_ & Hrows & Hlen).
    rewrite (paint_under _ _ _ _ Hrows), Hlen.
    rewrite firstn_all2 by nia.
    replace (done ++ pixels (imageData cap)
             ++ blank_rows w (Z.to_nat ch - length done - Z.to_nat h))
      with ((done ++ pixels (imageData cap))
            ++ blank_rows w
                 (Z.to_nat ch - length (done ++ pixels (imageData cap)))).
    2:{ rewrite <- app_assoc, length_app, Hlen. do 3 f_equal. lia. }
    rewrite (IH (k + 1)); [| lia | lia | | exact Hrest | exact Hoffs].
    + cbn [map concat]. now rewrite <- !app_assoc.
    + rewrite length_app, Hlen. nia.
Qed.

Lemma new_canvas (a b : Q) (c : Canvas) :
  newOffscreenCanvas a b = JS.Ok c ->
  c = {| cwidth := integer_part a; cheight := integer_part b;
         surface := Some (blank (integer_part a) (integer_part b)) |}
  /\ 0 <= integer_part a.
Proof.
  unfold newOffscreenCanvas, enforce_range.
  destruct ((0 <=? integer_part a) && (integer_part a <=? 2 ^ 53 - 1)) eqn:Ha;
    cbn [JS.bind]; [| discriminate].
  destruct ((0 <=? integer_part b) && (integer_part b <=? 2 ^ 53 - 1));
    cbn [JS.bind]; [| discriminate].
  intro Heq. injection Heq as <-. split; [reflexivity |].
  apply andb_prop in Ha. destruct Ha as [Ha _]. now apply Z.leb_le.
Qed.

Lemma canvas_width : integer_part (inject_Z (viewportWidth d) * r) = w.
Proof.
  rewrite integer_part_floor.
  - rewrite <- (Qfloor_comp _ _ Hw). apply Qfloor_Z.
  - rewrite <- Hw. change 0%Q with (inject_Z 0). rewrite <- Zle_Qle. lia.
Qed.

Lemma length_blocks (front : list Capture) :
  Forall (viewport_sized w h) front ->
  length (concat (map (fun cap => pixels (imageData cap)) front))
  = (length front * Z.to_nat h)%nat.
Proof.
  induction 1 as [| cap front Hcap _ IH]; [reflexivity |].
  cbn [map concat length]. rewrite length_app, IH.
  destruct (viewport_rows cap Hcap) as (_ & _ & ->). lia.
Qed.

(** C3, as the code has it. On a page whose viewport width w, viewport
    height h and scroll height s in device pixels (the CSS lengths times
    the ratio) are whole numbers, given the segments of the capture loop
    (offsets i * V, only the last one tagged, every image a well-shaped
    bitmap of w by h pixels), the stitched canvas is, row for row, the
    images of the segments before the last, each whole and in order,
    followed by the last image from its row n * h - s on (all of it when
    the document reaches the end of the last viewport), cut off at the
    canvas's height: no row is painted twice. The last image is cropped
    against the document's height s, scrollHeight times the ratio, not
    against totalHeight. When scrollHeight is at most MAX_PAGE_HEIGHT the
    two agree: the canvas is s rows high and nothing is cut off. *)
Theorem stitched_rows_of_segments
  (front : list Capture) (fin : Capture) (c : Canvas) :
  map offsetY (front ++ [fin]) = map (fun i => i * V) (zrange 0 n) ->
  map isLast (front ++ [fin]) = map (fun i => i =? n - 1) (zrange 0 n) ->
  Forall (viewport_sized w h) (front ++ [fin]) ->
  stitchImages (front ++ [fin]) d = JS.Ok c ->
  let content :=
    concat (map (fun cap => pixels (imageData cap)) front)
    ++ skipn (Z.to_nat (n * h - s)) (pixels (imageData fin)) in
  cwidth c = w
  /\ cheight c = ch
  /\ surface c = Some (firstn (Z.to_nat ch) content)
  /\ (SH <= MAX_PAGE_HEIGHT -> cheight c = s /\ surface c = Some content).
Proof.
  intros Hoffs Hlasts Hsized Hstitch content.
  destruct total_bounds as (_ & _ & Hn).
  destruct ch_bounds as (Hch0 & Hchlo & Hchhi & Hchs & Hcap).
  pose proof h_pos as Hhpos.
  rewrite (zrange_snoc 0 n) in Hoffs, Hlasts by lia.
  rewrite !map_app in Hoffs, Hlasts. cbn [map] in Hoffs, Hlasts.
  apply app_inj_tail in Hoffs, Hlasts.
  destruct Hoffs as [Hoffs Hoff], Hlasts as [Hlasts Hlast].
  rewrite Z.add_0_l in Hoff, Hlast. rewrite Z.eqb_refl in Hlast.
  assert (Hcount : Z.of_nat (length front) = n - 1).
  { rewrite <- (length_map offsetY), Hoffs, length_map, length_zrange. lia. }
  apply Forall_app in Hsized. destruct Hsized as [Hfront Hfin].
  inversion Hfin as [| ? ? Hfin' _]; subst.
  assert (Hinner : Forall (fun cap => isLast cap = false
                                      /\ viewport_sized w h cap) front).
  { apply Forall_and; [| exact Hfront].
    apply (map_eq_constant _ _ _ _ _ Hlasts).
    intros i Hi. apply in_zrange in Hi. apply Z.eqb_neq. lia. }
  unfold stitchImages in Hstitch.
  destruct (newOffscreenCanvas _ _) as [c0 |] eqn:Hnew; cbn [JS.bind] in Hstitch;
    [| discriminate].
  apply BackgroundProofs.convertToBlob_ok in Hstitch.
  destruct Hstitch as [Hc _]. symmetry in Hc.
  apply new_canvas in Hnew. destruct Hnew as [Hc0 _].
  pose proof canvas_width as Hcw. unfold r in Hcw. rewrite Hcw in Hc0.
  assert (Hc' : c = {| cwidth := w; cheight := ch;
                       surface := Some (firstn (Z.to_nat ch) content) |}).
  { pose proof (stitch_fold fin Hlast Hfin' Hoff front 0 []) as Hfold.
    cbn [app length] in Hfold. rewrite Nat.sub_0_r in Hfold.
    rewrite <- Hc, Hc0.
    apply Hfold; [lia | lia | reflexivity | exact Hinner |].
    rewrite Hcount. exact Hoffs. }
  rewrite Hc'.
  cbn [cwidth cheight surface]. fold content.
  split; [reflexivity | split; [reflexivity | split; [reflexivity |]]].
  intro Hsmall. specialize (Hcap Hsmall). split; [exact Hcap |].
  f_equal. apply firstn_all2. unfold content.
  rewrite length_app, (length_blocks front Hfront), length_skipn.
  destruct (viewport_rows fin Hfin') as (_ & _ & ->). nia.
Qed.

End Segments.

Section OnePage.

Context {Tab : Type} `{Browser Tab}.

(** C1, as the code has it. A page whose scrollHeight is positive and at
    most its viewportHeight is captured in exactly one segment: the
    viewport at offset 0, tagged last. When the scrollHeight equals the
    viewportHeight (at most 30000) and the capture is a well-shaped image of
    the viewport's device size, the image handed to the editor is that
    capture, pixels and dimensions. When the scrollHeight is below the
    viewportHeight, the image handed to the editor is
    min(scrollHeight, 30000) * ratio rows high, the fraction dropped, which
    is fewer rows than the capture's viewportHeight * ratio: it is not the
    capture. *)
Theorem single_segment_page (fuel : nat) (tab : Tab) (st : State) :
  let d := getPageDimensions tab in
  let shot := captureVisibleTab (scrollTo 0 tab) in
  0 < scrollHeight d <= viewportHeight d ->
  (2 <= fuel)%nat ->
  capture_segments fuel tab
  = Some (scrollTo 0 tab,
          [{| imageData := shot; offsetY := 0; isLast := true |}])
  /\ (scrollHeight d = viewportHeight d ->
      viewportHeight d <= MAX_PAGE_HEIGHT ->
      (0 < devicePixelRatio d)%Q ->
      wf_bitmap shot -> 0 < width shot ->
      (inject_Z (width shot)
       == inject_Z (viewportWidth d) * devicePixelRatio d)%Q ->
      (inject_Z (height shot)
       == inject_Z (viewportHeight d) * devicePixelRatio d)%Q ->
      forall tab' st',
        captureFullPage fuel tab st = Some (JS.Ok (tab', st')) ->
        pendingCapture st' = Some (encode shot))
  /\ (scrollHeight d < viewportHeight d ->
      (0 < devicePixelRatio d)%Q ->
      (inject_Z (height shot)
       == inject_Z (viewportHeight d) * devicePixelRatio d)%Q ->
      forall tab' st',
        captureFullPage fuel tab st = Some (JS.Ok (tab', st')) ->
        exists stitched,
          pendingCapture st' = Some stitched
          /\ cheight stitched
             = integer_part (inject_Z (Z.min (scrollHeight d) MAX_PAGE_HEIGHT)
                             * devicePixelRatio d)
          /\ cheight stitched < height shot
          /\ stitched <> encode shot).
Proof.
  intros d shot [HS HSV] Hfuel.
  assert (HV : 0 < viewportHeight d) by lia.
  pose proof (ceiling_div_bounds
                (Z.min (scrollHeight d) MAX_PAGE_HEIGHT) (viewportHeight d) HV)
    as Hn.
  assert (Hone : Qceiling (inject_Z (Z.min (scrollHeight d) MAX_PAGE_HEIGHT)
                           / inject_Z (viewportHeight d)) = 1)
    by (unfold MAX_PAGE_HEIGHT in *; nia).
  assert (Hsegs : capture_segments fuel tab
                  = Some (scrollTo 0 tab,
                          [{| imageData := shot; offsetY := 0;
                              isLast := true |}])).
  { unfold capture_segments. fold d.
    rewrite (BackgroundProofs.captureCount_finite d HV), Hone.
    destruct fuel as [| [| fuel]]; try lia.
    cbn [capture_loop]. rewrite !lt_inject, eq_pred_inject. reflexivity. }
  split; [exact Hsegs | split].
  - intros Heq Hcap Hr Hwf Hwpos Hw Hh tab' st'.
    unfold captureFullPage. fold d. rewrite Hsegs.
    unfold stitchImages.
    destruct (newOffscreenCanvas _ _) as [c0 |] eqn:Hnew; cbn [JS.bind];
      [| discriminate].
    destruct (convertToBlob _) as [url |] eqn:Hurl; cbn [JS.bind];
      [| discriminate].
    intro Hfull. injection Hfull as _ <-. cbn [pendingCapture openEditor].
    f_equal.
    apply BackgroundProofs.convertToBlob_ok in Hurl.
    destruct Hurl as [-> _].
    assert (Hs : (inject_Z (height shot)
                  == inject_Z (scrollHeight d) * devicePixelRatio d)%Q)
      by (rewrite Heq; exact Hh).
    apply new_canvas in Hnew. destruct Hnew as [Hc0 _].
    rewrite (canvas_width d (width shot) Hw Hwpos) in Hc0.
    destruct (ch_bounds d (height shot) (height shot) HV HS Hr Hh Hs)
      as (_ & _ & _ & _ & Hch).
    rewrite (Hch ltac:(lia)) in Hc0.
    pose proof (stitch_fold d (width shot) (height shot) (height shot)
                  HV HS Hr Hh Hs Hwpos
                  {| imageData := shot; offsetY := 0; isLast := true |}
                  eq_refl) as Hfold.
    rewrite Hone, (Hch ltac:(lia)) in Hfold.
    specialize (Hfold (conj Hwf (conj eq_refl eq_refl)) eq_refl
                      [] 0 [] ltac:(lia) eq_refl eq_refl (Forall_nil _) eq_refl).
    cbn [app length map concat imageData] in Hfold.
    rewrite Nat.sub_0_r in Hfold.
    replace (Z.to_nat (1 * height shot - height shot)) with O in Hfold by lia.
    cbn [skipn] in Hfold.
    rewrite firstn_all2 in Hfold by (destruct Hwf as (_ & _ & -> & _); lia).
    subst c0. cbn [fold_left app] in *. unfold blank.
    fold (blank_rows (width shot) (Z.to_nat (height shot))).
    exact Hfold.
  - intros Hshort Hr Hh tab' st'.
    unfold captureFullPage. fold d. rewrite Hsegs.
    destruct (stitchImages _ d) as [c |] eqn:Hstitch; cbn [JS.bind];
      [| discriminate].
    intro Hfull. injection Hfull as _ <-. cbn [pendingCapture openEditor].
    exists c. split; [reflexivity |].
    apply BackgroundProofs.stitched_dimensions in Hstitch.
    destruct Hstitch as (_ & Hch & _ & Hpos).
    split; [exact Hch |].
    assert (Hlow : cheight c < height shot).
    { assert (Hfull : (0 < inject_Z (height shot))%Q).
      { rewrite Hh. apply Qmult_lt_0_compat; [| exact Hr].
        change 0%Q with (inject_Z 0). now rewrite <- Zlt_Qlt. }
      change 0%Q with (inject_Z 0) in Hfull. rewrite <- Zlt_Qlt in Hfull.
      rewrite Hch in Hpos |- *.
      destruct (BackgroundProofs.integer_part_le _ Hpos) as [-> | Hle];
        [exact Hfull |].
      rewrite Zlt_Qlt. eapply Qle_lt_trans; [exact Hle |]. rewrite Hh.
      apply Qmult_lt_compat_r; [exact Hr |]. rewrite <- Zlt_Qlt. lia. }
    split; [exact Hlow |].
    intros ->. cbn [cheight encode] in Hlow. lia.
Qed.

End OnePage.

End StitchProofs.

(* ===================================================================== *)
(** * Full-page capture on the reference page *)
(* ===================================================================== *)

Module ReferenceProofs.

Import Raster Background Reference Facts.

Lemma firstn_plus {A : Type} (a b : nat) (l : list A) :
  firstn (a + b) l = firstn a l ++ firstn b (skipn a l).
Proof.
  revert l.
  induction a as [| a IH]; intros [| x l]; cbn [Nat.add firstn skipn app].
  - reflexivity.
  - reflexivity.
  - now rewrite firstn_nil.
  - now rewrite IH.
Qed.

Lemma In_firstn {A : Type} (x : A) (n : nat) (l : list A) :
  In x (firstn n l) -> In x l.
Proof.
  intro Hin. rewrite <- (firstn_skipn n l). apply in_or_app. now left.
Qed.

Lemma In_skipn {A : Type} (x : A) (n : nat) (l : list A) :
  In x (skipn n l) -> In x l.
Proof.
  intro Hin. rewrite <- (firstn_skipn n l). apply in_or_app. now right.
Qed.

(** Consecutive blocks of [h] rows, put together, are the rows from the top. *)
Lemma concat_slices (doc : grid) (h : Z) :
  0 <= h ->
  forall m : nat,
    concat (map (fun j => firstn (Z.to_nat h) (skipn (Z.to_nat (j * h)) doc))
                (zrange 0 (Z.of_nat m)))
    = firstn (Z.to_nat (Z.of_nat m * h)) doc.
Proof.
  intros Hh. induction m as [| m IH].
  - reflexivity.
  - rewrite (zrange_snoc 0 (Z.of_nat (S m))) by lia.
    replace (Z.of_nat (S m) - 1) with (Z.of_nat m) by lia.
    rewrite map_app, concat_app, IH. cbn [map concat]. rewrite app_nil_r.
    replace (0 + Z.of_nat (S m) - 1) with (Z.of_nat m) by lia.
    replace (Z.to_nat (Z.of_nat (S m) * h))
      with (Z.to_nat (Z.of_nat m * h) + Z.to_nat h)%nat by nia.
    now rewrite firstn_plus.
Qed.

(** A capture is always a well-shaped image of the viewport's device
    size. *)
Lemma capture_wf (p : Page) :
  0 <= view_width p * ratio p -> 0 <= view_height p * ratio p ->
  wf_bitmap (capture p).
Proof.
  intros Hw Hh. unfold wf_bitmap, wf_grid, capture. cbn [width height pixels].
  split; [exact Hw | split; [exact Hh | split]].
  - rewrite length_map, length_firstn, length_app, repeat_length. lia.
  - apply Forall_map, Forall_forall. intros row _.
    rewrite length_firstn, length_app, repeat_length. lia.
Qed.

(** Where the viewport lies within the document, a capture is the
    document's rows under it. *)
Lemma capture_rows (p : Page) :
  wf_grid (view_width p * ratio p) (page_height p * ratio p) (document p) ->
  0 <= ratio p -> 0 <= view_height p ->
  0 <= position p -> position p + view_height p <= page_height p ->
  pixels (capture p)
  = firstn (Z.to_nat (view_height p * ratio p))
           (skipn (Z.to_nat (position p * ratio p)) (document p)).
Proof.
  intros (_ & _ & Hlen & Hrows) Hr Hv Hpos Hend.
  unfold capture. cbn [pixels].
  rewrite firstn_app, length_skipn, Hlen.
  replace (Z.to_nat (view_height p * ratio p)
           - (Z.to_nat (page_height p * ratio p)
              - Z.to_nat (position p * ratio p)))%nat with O by nia.
  cbn [firstn]. rewrite app_nil_r.
  rewrite <- (map_id (firstn _ (skipn _ (document p)))) at 2.
  apply map_ext_in. intros row Hin.
  apply In_firstn, In_skipn in Hin.
  rewrite Forall_forall in Hrows. specialize (Hrows row Hin).
  rewrite firstn_app, Hrows, Nat.sub_diag. cbn [firstn].
  rewrite app_nil_r, <- Hrows. apply firstn_all.
Qed.

(** The capture loop on a page: the segments are the captures of the page
    scrolled to i * v, and the page itself is only scrolled. *)
Lemma reference_loop (v n : Z) :
  forall (k fuel : nat) (i : Z) (p : Page) (acc : list Capture),
    Z.to_nat (n - i) = k -> (k < fuel)%nat ->
    exists p',
      capture_loop fuel v (JS.Fin (inject_Z n)) i p acc
      = Some (p',
              acc ++ map (fun j => {| imageData := capture (scroll_to (j * v) p);
                                      offsetY := j * v;
                                      isLast := j =? n - 1 |})
                         (zrange i (n - i)))
      /\ forall y, scroll_to y p' = scroll_to y p.
Proof.
  induction k as [| k IH]; intros fuel i p acc Hk Hfuel;
    (destruct fuel as [| fuel]; [lia |]); cbn [capture_loop];
    rewrite lt_inject.
  - replace (i <? n) with false by (symmetry; apply Z.ltb_ge; lia).
    exists p. rewrite zrange_nil by lia. cbn [map]. rewrite app_nil_r. auto.
  - replace (i <? n) with true by (symmetry; apply Z.ltb_lt; lia).
    rewrite eq_pred_inject.
    edestruct (IH fuel (i + 1) (scrollTo (i * v) p)) as (p' & Hloop & Hsame);
      [lia | lia |].
    rewrite Hloop. exists p'. split.
    + rewrite <- app_assoc. rewrite (zrange_cons i (n - i)) by lia.
      replace (n - i - 1) with (n - (i + 1)) by lia. reflexivity.
    + intro y. rewrite Hsame. reflexivity.
Qed.

Lemma integer_part_int (a b : Z) :
  0 <= a * b -> integer_part (inject_Z a * inject_Z b) = a * b.
Proof.
  intro Hab.
  assert (Heq : (inject_Z a * inject_Z b == inject_Z (a * b))%Q)
    by (now rewrite inject_Z_mult).
  rewrite StitchProofs.integer_part_floor.
  - rewrite (Qfloor_comp _ _ Heq). apply Qfloor_Z.
  - rewrite Heq. change 0%Q with (inject_Z 0). now rewrite <- Zle_Qle.
Qed.

(** X1. Full-page capture on a page, end to end. On a page at least one
    viewport high, at an integer device-pixel ratio, whose document is as
    wide as the viewport and whose stitched canvas is one the reference
    browser serialises (at most 32767 pixels a side and 2^28 pixels in
    all), captureFullPage returns, leaves the page scrolled where it was,
    and hands the editor the document's top
    min(scrollHeight, MAX_PAGE_HEIGHT) * ratio rows, each once and in
    order: the last segment, captured where the page stopped scrolling, is
    cropped to the rows the segments before it have not shown. *)
Theorem full_page_is_document_top (fuel : nat) (p : Page) (st : State) :
  let total := Z.min (page_height p) MAX_PAGE_HEIGHT in
  0 < view_height p <= page_height p ->
  0 < view_width p -> 0 < ratio p ->
  can_serialise (view_width p * ratio p) (total * ratio p) = true ->
  wf_grid (view_width p * ratio p) (page_height p * ratio p) (document p) ->
  (Z.to_nat (Qceiling (inject_Z total / inject_Z (view_height p))) < fuel)%nat ->
  captureFullPage fuel p st
  = Some (JS.Ok
            (scroll_to (position p) p,
             openEditor
               {| cwidth := view_width p * ratio p;
                  cheight := total * ratio p;
                  surface :=
                    Some (firstn (Z.to_nat (total * ratio p)) (document p)) |}
               st)).
Proof.
  intros total [HV HVS] HW Hr Hser Hdoc Hfuel.
  assert (Hlimits : view_width p * ratio p <= canvas_side
                    /\ total * ratio p <= canvas_side).
  { unfold can_serialise in Hser.
    apply andb_prop in Hser. destruct Hser as [Hser _].
    apply andb_prop in Hser. destruct Hser as [Hside Hside'].
    apply Z.leb_le in Hside, Hside'. auto. }
  destruct Hlimits as [Hwide Hhigh]. unfold canvas_side in Hwide, Hhigh.
  set (d := {| scrollWidth := page_width p; scrollHeight := page_height p;
               viewportWidth := view_width p; viewportHeight := view_height p;
               devicePixelRatio := inject_Z (ratio p) |}).
  assert (Hd : getPageDimensions p = d).
  { cbn [getPageDimensions browser]. unfold dimensions_of, d, JS.or1.
    rewrite Qeq_bool_inject_0.
    replace (ratio p =? 0) with false by (symmetry; apply Z.eqb_neq; lia).
    reflexivity. }
  set (n := Qceiling (inject_Z total / inject_Z (view_height p))) in *.
  set (w := view_width p * ratio p).
  set (h := view_height p * ratio p).
  set (s := page_height p * ratio p).
  assert (HS : 0 < scrollHeight d) by (cbn; lia).
  assert (HrQ : (0 < devicePixelRatio d)%Q).
  { cbn. change 0%Q with (inject_Z 0). now rewrite <- Zlt_Qlt. }
  assert (Hw : (inject_Z w == inject_Z (viewportWidth d) * devicePixelRatio d)%Q)
    by (cbn; unfold w; now rewrite inject_Z_mult).
  assert (Hh : (inject_Z h == inject_Z (viewportHeight d) * devicePixelRatio d)%Q)
    by (cbn; unfold h; now rewrite inject_Z_mult).
  assert (Hs : (inject_Z s == inject_Z (scrollHeight d) * devicePixelRatio d)%Q)
    by (cbn; unfold s; now rewrite inject_Z_mult).
  assert (Hwpos : 0 < w) by (unfold w; nia).
  destruct (StitchProofs.total_bounds d HV HS) as (Ht & [Hlo Hhi] & Hn).
  change (Qceiling _) with n in Hlo, Hhi, Hn.
  change (Z.min _ _) with total in Ht, Hlo, Hhi.
  change (viewportHeight d) with (view_height p) in Hlo, Hhi.
  unfold captureFullPage, capture_segments. rewrite Hd.
  rewrite (BackgroundProofs.captureCount_finite d HV).
  change (Qceiling _) with n.
  destruct (reference_loop (view_height p) n (Z.to_nat (n - 0)) fuel 0 p []
                           eq_refl) as (p' & Hloop & Hsame).
  { rewrite Z.sub_0_r. exact Hfuel. }
  change (viewportHeight d) with (view_height p). rewrite Hloop.
  change (scrollTo (scrollY p) p') with (scroll_to (position p) p').
  rewrite Hsame. cbn [app]. rewrite Z.sub_0_r.
  set (seg := fun j : Z =>
                {| imageData := capture (scroll_to (j * view_height p) p);
                   offsetY := j * view_height p;
                   isLast := j =? n - 1 |}).
  assert (Hpos : forall j, 0 <= j ->
                   position (scroll_to (j * view_height p) p)
                   = Z.min (j * view_height p)
                           (page_height p - view_height p))
    by (intros j Hj; cbn [position scroll_to]; nia).
  assert (Hsized : forall j, viewport_sized w h (seg j)).
  { intro j. split; [| split; reflexivity].
    apply capture_wf; cbn [view_width view_height ratio scroll_to]; nia. }
  assert (Hrows : forall j, 0 <= j ->
            pixels (imageData (seg j))
            = firstn (Z.to_nat h)
                (skipn (Z.to_nat (Z.min (j * h) (s - h))) (document p))).
  { intros j Hj. cbn [imageData seg].
    rewrite capture_rows;
      cbn [view_width view_height page_height ratio document scroll_to];
      try exact Hdoc; try rewrite Hpos by exact Hj; try nia.
    fold h. do 3 f_equal. unfold h, s. nia. }
  enough (Hst : stitchImages (map seg (zrange 0 n)) d
                = JS.Ok {| cwidth := w; cheight := total * ratio p;
                           surface := Some (firstn (Z.to_nat (total * ratio p))
                                                   (document p)) |})
    by (now rewrite Hst).
  unfold stitchImages, newOffscreenCanvas.
  change (devicePixelRatio d) with (inject_Z (ratio p)).
  change (viewportWidth d) with (view_width p).
  change (Z.min (scrollHeight d) MAX_PAGE_HEIGHT) with total.
  assert (Htr : 0 < total * ratio p <= 2 ^ 53 - 1) by (fold total; nia).
  assert (Hwr : 0 < w <= 2 ^ 53 - 1) by (unfold w; lia).
  rewrite !BackgroundProofs.enforce_range_ok;
    rewrite <- ?inject_Z_mult;
    try (change 0%Q with (inject_Z 0)); rewrite <- ?Zle_Qle;
    try (fold w; lia).
  cbn [JS.bind].
  rewrite !inject_Z_mult, !integer_part_int by (fold w; lia). fold w.
  match goal with
  | |- convertToBlob ?c = JS.Ok ?url =>
      enough (Hcanvas : c = url)
        by (rewrite Hcanvas;
            apply BackgroundProofs.convertToBlob_encodes;
            cbn [cwidth cheight]; first [lia | exact Hser])
  end.
  pose proof (StitchProofs.stitch_fold d w h s HV HS HrQ Hh Hs Hwpos
                (seg (n - 1)) (Z.eqb_refl _) (Hsized _) eq_refl
                (map seg (zrange 0 (n - 1))) 0 [] (Z.le_refl 0)) as Hfold.
  change (devicePixelRatio d) with (inject_Z (ratio p)) in Hfold.
  change (Z.min (scrollHeight d) MAX_PAGE_HEIGHT) with total in Hfold.
  change (viewportHeight d) with (view_height p) in Hfold.
  change (Qceiling _) with n in Hfold.
  rewrite integer_part_int in Hfold by lia.
  rewrite length_map, length_zrange, Z2Nat.id in Hfold by lia.
  cbn [app length] in Hfold. rewrite Nat.sub_0_r in Hfold.
  rewrite (zrange_snoc 0 n), map_app by lia. cbn [map].
  replace (0 + n - 1) with (n - 1) by lia.
  assert (Hh0 : 0 < h) by (unfold h; nia).
  assert (Hhs : h <= s) by (unfold h, s; nia).
  change (blank w (total * ratio p))
    with (blank_rows w (Z.to_nat (total * ratio p))).
  etransitivity; [apply Hfold | clear Hfold].
  - lia.
  - reflexivity.
  - apply Forall_map, Forall_forall. intros j Hj. apply in_zrange in Hj.
    split; [| apply Hsized]. cbn [isLast seg]. apply Z.eqb_neq. lia.
  - rewrite map_map. reflexivity.
  - do 2 f_equal. rewrite map_map.
    rewrite (map_ext_in _ (fun j => firstn (Z.to_nat h)
                                      (skipn (Z.to_nat (j * h)) (document p)))).
    2:{ intros j Hj. apply in_zrange in Hj. rewrite Hrows by lia.
        do 3 f_equal. unfold h, s. nia. }
    pose proof (concat_slices (document p) h ltac:(lia) (Z.to_nat (n - 1)))
      as Hcat.
    rewrite Z2Nat.id in Hcat by lia. rewrite Hcat, Hrows by lia.
    destruct Hdoc as (_ & _ & Hlen & _). fold s in Hlen.
    destruct (Z_le_gt_dec ((n - 1) * h) (s - h)) as [Hfit | Hover].
    + rewrite Z.min_l by exact Hfit.
      replace (Z.to_nat (n * h - s)) with O by lia. cbn [skipn].
      rewrite <- firstn_plus, firstn_firstn. f_equal. unfold h in *. nia.
    + rewrite Z.min_r by lia.
      rewrite (firstn_all2 (skipn _ _)) by (rewrite length_skipn; lia).
      rewrite skipn_skipn.
      replace (Z.to_nat (n * h - s) + Z.to_nat (s - h))%nat
        with (Z.to_nat ((n - 1) * h)) by lia.
      now rewrite firstn_skipn.
Qed.

End ReferenceProofs.

(* ===================================================================== *)
(** * The region selector, session by session *)
(* ===================================================================== *)

Module SelectorProofs.
Import Messages Content ContentStates ContentProofs.

Lemma run_cons (dpr : Q) (ev : Event) (evs : list Event) (s : Selector) :
  run dpr (ev :: evs) s
  = (fst (run dpr evs (fst (dispatch dpr ev s))),
     snd (dispatch dpr ev s) ++ snd (run dpr evs (fst (dispatch dpr ev s)))).
Proof.
  cbn [run]. destruct (dispatch dpr ev s) as [s1 out1].
  cbn [fst snd]. now destruct (run dpr evs s1).
Qed.

(** A detached selector takes no pointer or key event. *)
Lemma dispatch_detached (dpr : Q) (ev : Event) (s : Selector) :
  active s = false -> is_timeout ev = false -> dispatch dpr ev s = (s, []).
Proof.
  intros Hact Hev. destruct ev; cbn [dispatch]; rewrite ?Hact;
    try reflexivity. discriminate.
Qed.

(** Torn down by Escape with the timer of [r] still pending: the timer
    sends [r] when it fires, and nothing else is sent. *)
Lemma run_cancelled_pending (dpr : Q) (r : Selection) (evs : list Event) :
  forall s : Selector,
    torn_down s -> timers s = [r] ->
    run dpr evs s = (s, [])
    \/ (snd (run dpr evs s) = [SELECTION_COMPLETE r]
        /\ torn_down (fst (run dpr evs s))
        /\ timers (fst (run dpr evs s)) = []).
Proof.
  induction evs as [| ev evs IH]; intros s Hdown Htim; [now left |].
  rewrite run_cons.
  destruct (is_timeout ev) eqn:Hev.
  - destruct ev; try discriminate. cbn [dispatch]. unfold onTimeout.
    rewrite Htim. cbn [fst snd].
    rewrite silent_after_cleanup by reflexivity.
    right. cbn [fst snd app]. repeat split.
  - rewrite (dispatch_detached dpr ev s (proj1 Hdown) Hev). cbn [fst snd app].
    destruct (IH s Hdown Htim) as [Hsame | Hsent].
    + left. now rewrite Hsame.
    + right. exact Hsent.
Qed.

(** The overlay hidden after an accepted pointer-up, the timer of [r]
    pending: only Escape and the timer send anything. *)
Lemma run_pending (dpr : Q) (r : Selection) (evs : list Event) :
  forall s : Selector,
    active s = true -> overlayShown s = false -> isSelecting s = false ->
    timers s = [r] ->
    let s' := fst (run dpr evs s) in
    let out := snd (run dpr evs s) in
    (out = [] /\ s' = s)
    \/ (out = [SELECTION_CANCELLED] /\ torn_down s' /\ timers s' = [r])
    \/ ((out = [SELECTION_COMPLETE r]
         \/ out = [SELECTION_CANCELLED; SELECTION_COMPLETE r])
        /\ torn_down s' /\ timers s' = []).
Proof.
  induction evs as [| ev evs IH]; intros s Hact Hov Hsel Htim;
    [left; split; reflexivity |].
  cbn zeta. rewrite run_cons.
  assert (Hstay : dispatch dpr ev s = (s, []) ->
            let s' := fst (run dpr evs (fst (dispatch dpr ev s))) in
            let out := snd (dispatch dpr ev s)
                       ++ snd (run dpr evs (fst (dispatch dpr ev s))) in
            (out = [] /\ s' = s)
            \/ (out = [SELECTION_CANCELLED] /\ torn_down s' /\ timers s' = [r])
            \/ ((out = [SELECTION_COMPLETE r]
                 \/ out = [SELECTION_CANCELLED; SELECTION_COMPLETE r])
                /\ torn_down s' /\ timers s' = []))
    by (intros ->; exact (IH s Hact Hov Hsel Htim)).
  destruct ev as [e | e | e | escape |].
  - apply Hstay. cbn [dispatch]. now rewrite Hact, Hov.
  - apply Hstay. cbn [dispatch]. unfold onMouseMove. now rewrite Hact, Hsel.
  - apply Hstay. cbn [dispatch]. unfold onMouseUp. now rewrite Hact, Hsel.
  - destruct escape; [| apply Hstay; cbn [dispatch]; now rewrite Hact].
    clear Hstay. cbn [dispatch]. rewrite Hact. cbn [onKeyDown fst snd].
    right.
    destruct (run_cancelled_pending dpr r evs (cleanup s))
      as [Hsame | (Hout & Hdown & Htim')];
      [repeat split | exact Htim | |].
    + left. rewrite Hsame. cbn [fst snd app]. repeat split. exact Htim.
    + right. rewrite Hout. cbn [app]. split; [now right |]. now split.
  - clear Hstay. cbn [dispatch]. unfold onTimeout. rewrite Htim. cbn [fst snd].
    rewrite silent_after_cleanup by reflexivity.
    right. right. cbn [fst snd app]. split; [now left |]. repeat split.
Qed.

(** From the start of a session on: what has been sent, and whether the
    selector is still on the page. *)
Lemma run_session (dpr : Q) (evs : list Event) :
  forall s : Selector,
    active s = true -> overlayShown s = true -> timers s = [] ->
    let s' := fst (run dpr evs s) in
    let out := snd (run dpr evs s) in
    (out = [] /\ active s' = true)
    \/ (out = [SELECTION_CANCELLED] /\ torn_down s')
    \/ exists r,
         accepted r
         /\ (out = [SELECTION_COMPLETE r]
             \/ out = [SELECTION_CANCELLED; SELECTION_COMPLETE r])
         /\ torn_down s'.
Proof.
  induction evs as [| ev evs IH]; intros s Hact Hov Htim;
    [left; split; [reflexivity | exact Hact] |].
  cbn zeta. rewrite run_cons.
  destruct ev as [e | e | e | escape |]; cbn [dispatch].
  - rewrite Hact, Hov. cbn [andb fst snd app].
    apply IH; assumption.
  - rewrite Hact. cbn [fst snd app]. apply IH; unfold onMouseMove;
      destruct (negb (isSelecting s)); assumption.
  - rewrite Hact. unfold onMouseUp.
    destruct (negb (isSelecting s)); [cbn [fst snd app]; now apply IH |].
    cbn [startX startY timers active].
    destruct ((Z.abs (clientX e - startX s) <? 10)
              || (Z.abs (clientY e - startY s) <? 10)) eqn:Hsmall;
      cbn [fst snd].
    + rewrite silent_after_cleanup by (try reflexivity; exact Htim).
      right. left. cbn [fst snd app]. repeat split.
    + apply orb_false_iff in Hsmall. destruct Hsmall as [Hw Hh].
      apply Z.ltb_ge in Hw, Hh. rewrite Htim. cbn [app].
      match goal with
      | |- context [run dpr evs ?st] =>
          destruct (run_pending dpr
                      {| x := Z.min (startX s) (clientX e);
                         y := Z.min (startY s) (clientY e);
                         width := Z.abs (clientX e - startX s);
                         height := Z.abs (clientY e - startY s);
                         devicePixelRatio := JS.or1 dpr |} evs st
                      Hact eq_refl eq_refl eq_refl)
            as [[Hout Hsame] | [(Hout & Hdown & _) | (Hout & Hdown & _)]]
      end.
      * left. split; [exact Hout |]. rewrite Hsame. exact Hact.
      * right. left. now split.
      * right. right. eexists. split; [| split; [exact Hout | exact Hdown]].
        repeat split; cbn [width height devicePixelRatio]; try assumption.
        unfold JS.or1. destruct (Qeq_bool dpr 0) eqn:Hz; [reflexivity |].
        exact Hz.
  - rewrite Hact. destruct escape; cbn [onKeyDown fst snd app];
      [| now apply IH].
    rewrite silent_after_cleanup by (try reflexivity; exact Htim).
    right. left. cbn [fst snd]. repeat split.
  - unfold onTimeout. rewrite Htim. cbn [fst snd app]. now apply IH.
Qed.

(** X5. Whatever events a selector receives from its injection on, all it
    ever sends is nothing, one SELECTION_CANCELLED, one SELECTION_COMPLETE,
    or a SELECTION_CANCELLED followed by one SELECTION_COMPLETE; and a
    rectangle it sends is at least 10 px wide and high and carries a
    devicePixelRatio that is not 0. *)
Theorem selector_sends_at_most_one_rectangle (dpr : Q) (evs : list Event) :
  let out := snd (run dpr evs init) in
  out = []
  \/ out = [SELECTION_CANCELLED]
  \/ exists r,
       accepted r
       /\ (out = [SELECTION_COMPLETE r]
           \/ out = [SELECTION_CANCELLED; SELECTION_COMPLETE r]).
Proof.
  destruct (run_session dpr evs init eq_refl eq_refl eq_refl)
    as [[Hout _] | [[Hout _] | (r & Hr & Hout & _)]].
  - now left.
  - right. now left.
  - right. right. exists r. now split.
Qed.

(** X6. Once a selector has sent any message it is off the page (overlay
    and boxes removed, listeners detached, the injection flag false), and
    no pointer or key event changes it or makes it send again. *)
Theorem selector_gone_once_it_has_spoken (dpr : Q) (evs : list Event) :
  snd (run dpr evs init) <> [] ->
  torn_down (fst (run dpr evs init))
  /\ forall e,
       is_timeout e = false ->
       dispatch dpr e (fst (run dpr evs init))
       = (fst (run dpr evs init), []).
Proof.
  intro Hsent.
  assert (Hdown : torn_down (fst (run dpr evs init))).
  { destruct (run_session dpr evs init eq_refl eq_refl eq_refl)
      as [[Hout _] | [[_ Hdown] | (r & _ & _ & Hdown)]];
      [contradiction | exact Hdown | exact Hdown]. }
  split; [exact Hdown |].
  intros e He. apply dispatch_detached; [exact (proj1 Hdown) | exact He].
Qed.

(** X7. Escape pressed after an accepted pointer-up, before its 50 ms timer
    has run, sends SELECTION_CANCELLED, and the timer then still sends
    SELECTION_COMPLETE with the rectangle: [setTimeout] is never cleared. *)
Theorem escape_does_not_recall_selection
  (dpr : Q) (before : list Event) (e : MouseEvent) :
  let s := fst (run dpr before init) in
  let width := Z.abs (clientX e - startX s) in
  let height := Z.abs (clientY e - startY s) in
  active s = true -> isSelecting s = true ->
  10 <= width -> 10 <= height ->
  snd (run dpr [MouseUp e; KeyDown true; Timeout] s)
  = [SELECTION_CANCELLED;
     SELECTION_COMPLETE
       {| x := Z.min (startX s) (clientX e);
          y := Z.min (startY s) (clientY e);
          width := width; height := height;
          devicePixelRatio := JS.or1 dpr |}].
Proof.
  intros s width height Hact Hsel Hw Hh.
  assert (Htim : timers s = []).
  { destruct (run_settled dpr before init (or_introl eq_refl))
      as [Htim | [Hidle _]]; [exact Htim |].
    fold s in Hidle. congruence. }
  cbn [run dispatch]. rewrite Hact. unfold onMouseUp. rewrite Hsel.
  cbn [negb startX startY timers active]. fold width height.
  replace ((width <? 10) || (height <? 10)) with false
    by (symmetry; apply orb_false_iff; split; apply Z.ltb_ge; assumption).
  cbn [active]. rewrite Hact. cbn [onKeyDown onTimeout cleanup timers].
  rewrite Htim. reflexivity.
Qed.

End SelectorProofs.

(* ===================================================================== *)
(** * Rectangles of a grid *)
(* ===================================================================== *)

Module RectangleFacts.

Import Raster Facts.

Lemma firstn_nth {A : Type} (d : A) :
  forall (n : nat) (l : list A),
    (n <= length l)%nat ->
    firstn n l = map (fun k => nth k l d) (seq 0 n).
Proof.
  induction n as [| n IH]; intros [| a l] Hn; cbn [length] in Hn;
    try reflexivity; [lia |].
  cbn [firstn seq map nth]. f_equal.
  rewrite <- seq_shift, map_map. cbn [nth]. apply IH. lia.
Qed.

Lemma slice_nth {A : Type} (d : A) :
  forall (a n : nat) (l : list A),
    (a + n <= length l)%nat ->
    firstn n (skipn a l) = map (fun k => nth (a + k) l d) (seq 0 n).
Proof.
  induction a as [| a IH]; intros n l Hn.
  - cbn [skipn Nat.add]. now apply firstn_nth.
  - destruct l as [| x l]; cbn [length] in Hn; [lia |].
    cbn [skipn]. rewrite IH by lia. reflexivity.
Qed.

(** A rectangle inside a grid, pixel by pixel, is the sub-grid. *)
Lemma copy_sub_grid (w h sx sy sw sh : Z) (g : grid) :
  wf_grid w h g ->
  0 <= sx -> 0 <= sy -> 0 <= sw -> 0 <= sh ->
  sx + sw <= w -> sy + sh <= h ->
  map (fun y => map (fun x => pixel_at g x y) (zrange sx sw)) (zrange sy sh)
  = sub_grid sx sy sw sh g.
Proof.
  intros (Hw0 & Hh0 & Hlen & Hrows) Hsx Hsy Hsw Hsh Hxw Hyh.
  unfold sub_grid, zrange.
  rewrite (slice_nth []) by lia.
  rewrite !map_map. apply map_ext_in. intros k Hk. apply in_seq in Hk.
  assert (Hrow : length (nth (Z.to_nat sy + k) g []) = Z.to_nat w).
  { rewrite Forall_forall in Hrows. apply Hrows, nth_In. lia. }
  rewrite (slice_nth transparent) by lia.
  rewrite map_map. apply map_ext_in. intros j Hj.
  unfold pixel_at.
  replace ((sx + Z.of_nat j <? 0) || (sy + Z.of_nat k <? 0)) with false
    by (symmetry; apply orb_false_iff; split; apply Z.ltb_ge; lia).
  now rewrite !Z2Nat.inj_add, !Nat2Z.id by lia.
Qed.

Lemma wf_sub_grid (w h sx sy sw sh : Z) (g : grid) :
  wf_grid w h g ->
  0 <= sx -> 0 <= sy -> 0 <= sw -> 0 <= sh ->
  sx + sw <= w -> sy + sh <= h ->
  wf_grid sw sh (sub_grid sx sy sw sh g).
Proof.
  intros (Hw0 & Hh0 & Hlen & Hrows) Hsx Hsy Hsw Hsh Hxw Hyh.
  unfold sub_grid. split; [exact Hsw | split; [exact Hsh | split]].
  - rewrite length_map, length_firstn, length_skipn. lia.
  - apply Forall_map, Forall_forall. intros row Hin.
    rewrite Forall_forall in Hrows.
    assert (Hrow : length row = Z.to_nat w).
    { apply Hrows.
      rewrite <- (firstn_skipn (Z.to_nat sy) g). apply in_or_app. right.
      rewrite <- (firstn_skipn (Z.to_nat sh) (skipn _ g)).
      apply in_or_app. now left. }
    rewrite length_firstn, length_skipn. lia.
Qed.

(** [getImageData] of a rectangle inside the canvas. *)
Lemma getImageData_inside (sx sy sw sh : Z) (c : Bitmap) :
  wf_bitmap c ->
  0 <= sx -> 0 <= sy -> 0 < sw -> 0 < sh ->
  sx + sw <= width c -> sy + sh <= height c ->
  getImageData sx sy sw sh c
  = JS.Ok {| width := sw; height := sh;
             pixels := sub_grid sx sy sw sh (pixels c) |}.
Proof.
  intros Hwf Hsx Hsy Hsw Hsh Hxw Hyh. unfold getImageData.
  replace ((sw =? 0) || (sh =? 0)) with false
    by (symmetry; apply orb_false_iff; split; apply Z.eqb_neq; lia).
  replace (sw <? 0) with false by (symmetry; apply Z.ltb_ge; lia).
  replace (sh <? 0) with false by (symmetry; apply Z.ltb_ge; lia).
  rewrite !Z.abs_eq by lia.
  now rewrite (copy_sub_grid _ _ _ _ _ _ _ Hwf) by lia.
Qed.

End RectangleFacts.

(* ===================================================================== *)
(** * Region capture *)
(* ===================================================================== *)

Module RegionProofs.

Import Raster Background Facts RectangleFacts.

Section OnAnyBrowser.

Context {Tab : Type} `{Browser Tab}.

(** [cropImage] on a rectangle that lies within the capture, on the pixel
    grid: the canvas it hands to [convertToBlob]. *)
Lemma cropImage_inside (img : Bitmap) (sel : Messages.Selection)
  (sx sy sw sh : Z) :
  let dpr := JS.or1 (Messages.devicePixelRatio sel) in
  wf_bitmap img ->
  (inject_Z (Messages.x sel) * dpr == inject_Z sx)%Q ->
  (inject_Z (Messages.y sel) * dpr == inject_Z sy)%Q ->
  (inject_Z (Messages.width sel) * dpr == inject_Z sw)%Q ->
  (inject_Z (Messages.height sel) * dpr == inject_Z sh)%Q ->
  0 <= sx -> 0 <= sy -> 0 < sw -> 0 < sh ->
  sx + sw <= width img -> sy + sh <= height img ->
  sw <= 2 ^ 53 - 1 -> sh <= 2 ^ 53 - 1 ->
  cropImage img sel
  = convertToBlob {| cwidth := sw; cheight := sh;
                     surface := Some (sub_grid sx sy sw sh (pixels img)) |}.
Proof.
  intros dpr Hwf Hx Hy Hw Hh Hsx Hsy Hsw Hsh Hxw Hyh Hwmax Hhmax.
  unfold cropImage. fold dpr.
  assert (Hint : forall q z, (q == inject_Z z)%Q -> 0 <= z ->
                   integer_part q = z).
  { intros q z Hq Hz. rewrite StitchProofs.integer_part_floor.
    - rewrite (Qfloor_comp _ _ Hq). apply Qfloor_Z.
    - rewrite Hq. change 0%Q with (inject_Z 0). now rewrite <- Zle_Qle. }
  unfold newOffscreenCanvas, enforce_range.
  rewrite (Hint _ _ Hw), (Hint _ _ Hh) by lia.
  replace ((0 <=? sw) && (sw <=? 2 ^ 53 - 1)) with true
    by (symmetry; apply andb_true_iff; split; apply Z.leb_le; lia).
  replace ((0 <=? sh) && (sh <=? 2 ^ 53 - 1)) with true
    by (symmetry; apply andb_true_iff; split; apply Z.leb_le; lia).
  cbn [JS.bind]. f_equal. unfold drawImage9. cbn [surface cwidth cheight].
  rewrite (StitchProofs.Qeq_bool_int_0 _ _ Hw),
    (StitchProofs.Qeq_bool_int_0 _ _ Hh) by lia.
  cbn [orb].
  rewrite (StitchProofs.on_grid_int _ _ Hx), (StitchProofs.on_grid_int _ _ Hy),
    (StitchProofs.on_grid_int _ _ Hw), (StitchProofs.on_grid_int _ _ Hh).
  rewrite (StitchProofs.on_grid_int 0 0) by reflexivity.
  rewrite !Qeq_bool_refl.
  replace (0 <=? sx) with true by (symmetry; apply Z.leb_le; lia).
  replace (0 <=? sy) with true by (symmetry; apply Z.leb_le; lia).
  replace (0 <? sw) with true by (symmetry; apply Z.ltb_lt; lia).
  replace (0 <? sh) with true by (symmetry; apply Z.ltb_lt; lia).
  cbn [andb]. do 2 f_equal.
  apply paint_on_blank.
  apply (wf_sub_grid (width img) (height img)); try lia. exact Hwf.
Qed.

(** X8. Region capture. For a rectangle that, scaled by its
    devicePixelRatio (1 when that is 0), lies on the pixel grid within
    the capture of the visible tab, SELECTION_COMPLETE leaves for the
    editor an image of the rectangle's scaled size holding exactly the
    capture's pixels under it, when the browser serialises a canvas of that
    size; when it does not, nothing is handed over and no editor opens. *)
Theorem region_capture_is_selected_rectangle
  (fuel : nat) (sel : Messages.Selection) (tab : Tab) (st : State)
  (sx sy sw sh : Z) :
  let dpr := JS.or1 (Messages.devicePixelRatio sel) in
  let shot := captureVisibleTab tab in
  wf_bitmap shot ->
  (inject_Z (Messages.x sel) * dpr == inject_Z sx)%Q ->
  (inject_Z (Messages.y sel) * dpr == inject_Z sy)%Q ->
  (inject_Z (Messages.width sel) * dpr == inject_Z sw)%Q ->
  (inject_Z (Messages.height sel) * dpr == inject_Z sh)%Q ->
  0 <= sx -> 0 <= sy -> 0 < sw -> 0 < sh ->
  sx + sw <= width shot -> sy + sh <= height shot ->
  sw <= 2 ^ 53 - 1 -> sh <= 2 ^ 53 - 1 ->
  onMessage fuel (Messages.SELECTION_COMPLETE sel) tab st
  = Some (tab,
          (if serialises sw sh
           then openEditor
                  {| cwidth := sw; cheight := sh;
                     surface := Some (sub_grid sx sy sw sh (pixels shot)) |}
                  st
           else st),
          None).
Proof.
  intros dpr shot Hwf Hx Hy Hw Hh Hsx Hsy Hsw Hsh Hxw Hyh Hwmax Hhmax.
  cbn [onMessage]. unfold handleSelectionComplete. fold shot.
  rewrite (cropImage_inside shot sel sx sy sw sh); try assumption.
  unfold convertToBlob. cbn [cwidth cheight].
  replace ((sw =? 0) || (sh =? 0)) with false
    by (symmetry; apply orb_false_iff; split; apply Z.eqb_neq; lia).
  destruct (serialises sw sh); reflexivity.
Qed.

End OnAnyBrowser.

End RegionProofs.

(* ===================================================================== *)
(** * Full-page capture of a page lower than the viewport *)
(* ===================================================================== *)

Module ShortPageProofs.

Import Raster Background Facts StitchProofs.

Section OnAnyBrowser.

Context {Tab : Type} `{Browser Tab}.

(** A lone last segment higher than the canvas: its bottom rows fill the
    canvas. *)
Lemma draw_bottom_rows (d : Dimensions) (shot : Bitmap) (s : Z) :
  wf_bitmap shot -> 0 < width shot -> 0 < s < height shot ->
  (inject_Z s == inject_Z (scrollHeight d) * devicePixelRatio d)%Q ->
  draw_capture d
    {| cwidth := width shot; cheight := s;
       surface := Some (blank (width shot) s) |}
    {| imageData := shot; offsetY := 0; isLast := true |}
  = {| cwidth := width shot; cheight := s;
       surface := Some (skipn (Z.to_nat (height shot - s)) (pixels shot)) |}.
Proof.
  intros Hwf Hwpos [Hs0 Hsh] Hs.
  unfold draw_capture. cbn [imageData offsetY isLast].
  set (r := devicePixelRatio d).
  assert (Hy : (inject_Z 0 * r == inject_Z 0)%Q)
    by (change (inject_Z 0) with 0%Q; ring).
  assert (Hrem : (inject_Z (scrollHeight d) * r - inject_Z 0 * r
                  == inject_Z s)%Q)
    by (rewrite Hs; change (inject_Z 0) with 0%Q; fold r; ring).
  assert (Hsrc : (inject_Z (height shot)
                  - (inject_Z (scrollHeight d) * r - inject_Z 0 * r)
                  == inject_Z (height shot - s))%Q).
  { rewrite Hrem. unfold Z.sub, Qminus.
    now rewrite inject_Z_plus, inject_Z_opp. }
  destruct (Qlt_le_dec 0 _) as [_ | Hwhole].
  2:{ rewrite Hsrc in Hwhole. change 0%Q with (inject_Z 0) in Hwhole.
      rewrite <- Zle_Qle in Hwhole. lia. }
  unfold drawImage9.
  rewrite (Qeq_bool_int_0 (inject_Z (width shot)) (width shot))
    by (reflexivity || lia).
  rewrite (Qeq_bool_int_0 _ _ Hrem) by lia.
  cbn [orb surface cwidth cheight].
  rewrite (on_grid_int 0 0), (on_grid_int (inject_Z (width shot)) (width shot)),
    (on_grid_int _ _ Hsrc), (on_grid_int _ _ Hrem), (on_grid_int _ _ Hy)
    by reflexivity.
  rewrite !Qeq_bool_refl.
  replace (0 <? width shot) with true by (symmetry; apply Z.ltb_lt; lia).
  replace (0 <? s) with true by (symmetry; apply Z.ltb_lt; lia).
  replace (0 <=? height shot - s) with true by (symmetry; apply Z.leb_le; lia).
  cbn [andb Z.leb Z.compare]. do 2 f_equal.
  assert (Hbottom : sub_grid 0 (height shot - s) (width shot) s (pixels shot)
                    = skipn (Z.to_nat (height shot - s)) (pixels shot)).
  { rewrite <- (sub_grid_bottom (width shot) (height shot) (height shot - s)
                                (pixels shot) Hwf) by lia.
    do 2 f_equal. lia. }
  rewrite Hbottom. apply paint_on_blank.
  destruct Hwf as (Hw0 & Hh0 & Hlen & Hrows).
  split; [exact Hw0 | split; [lia | split]].
  - rewrite length_skipn. lia.
  - rewrite <- (firstn_skipn (Z.to_nat (height shot - s))) in Hrows.
    now apply Forall_app in Hrows.
Qed.

(** X19. A page lower than the viewport (a scroll height below the
    inner height, and at most 30000) is captured in one segment, and of
    that capture only the bottom rows are kept. When the capture is as wide
    as the canvas (viewportWidth times the ratio, a whole number), the
    scroll height times the ratio is a whole number s below the capture's
    height, and the browser serialises a canvas of that size, the image
    handed to the editor is s rows high and holds the capture's last s
    rows: the rows above them, the top of the page, are missing. *)
Theorem short_page_loses_its_top
  (fuel : nat) (tab : Tab) (st : State) (s : Z) :
  let d := getPageDimensions tab in
  let shot := captureVisibleTab (scrollTo 0 tab) in
  0 < scrollHeight d < viewportHeight d ->
  scrollHeight d <= MAX_PAGE_HEIGHT ->
  (0 < devicePixelRatio d)%Q ->
  wf_bitmap shot -> 0 < width shot ->
  (inject_Z (width shot)
   == inject_Z (viewportWidth d) * devicePixelRatio d)%Q ->
  (inject_Z s == inject_Z (scrollHeight d) * devicePixelRatio d)%Q ->
  s < height shot ->
  width shot <= 2 ^ 53 - 1 -> s <= 2 ^ 53 - 1 ->
  serialises (width shot) s = true ->
  (2 <= fuel)%nat ->
  0 < s
  /\ captureFullPage fuel tab st
     = Some (JS.Ok
               (scrollTo (scrollY tab) (scrollTo 0 tab),
                openEditor
                  {| cwidth := width shot; cheight := s;
                     surface :=
                       Some (skipn (Z.to_nat (height shot - s))
                                   (pixels shot)) |}
                  st)).
Proof.
  intros d shot [HS HSV] Hcap Hr Hwf Hwpos Hw Hs Hsh Hwmax Hsmax Hser Hfuel.
  assert (HV : 0 < viewportHeight d) by lia.
  pose proof (ceiling_div_bounds
                (Z.min (scrollHeight d) MAX_PAGE_HEIGHT) (viewportHeight d) HV)
    as Hn.
  assert (Hone : Qceiling (inject_Z (Z.min (scrollHeight d) MAX_PAGE_HEIGHT)
                           / inject_Z (viewportHeight d)) = 1)
    by (unfold MAX_PAGE_HEIGHT in *; nia).
  assert (Hsegs : capture_segments fuel tab
                  = Some (scrollTo 0 tab,
                          [{| imageData := shot; offsetY := 0;
                              isLast := true |}])).
  { unfold capture_segments. fold d.
    rewrite (BackgroundProofs.captureCount_finite d HV), Hone.
    destruct fuel as [| [| fuel]]; try lia.
    cbn [capture_loop]. rewrite !lt_inject, eq_pred_inject. reflexivity. }
  assert (Hs0 : 0 < s).
  { rewrite Zlt_Qlt, Hs. apply Qmult_lt_0_compat; [| exact Hr].
    change 0%Q with (inject_Z 0). now rewrite <- Zlt_Qlt. }
  split; [exact Hs0 |].
  pose proof (canvas_width d (width shot) Hw Hwpos) as Hcw.
  assert (Hch : integer_part (inject_Z (Z.min (scrollHeight d) MAX_PAGE_HEIGHT)
                              * devicePixelRatio d) = s).
  { rewrite Z.min_l by exact Hcap. rewrite integer_part_floor.
    - rewrite <- (Qfloor_comp _ _ Hs). apply Qfloor_Z.
    - rewrite <- Hs. change 0%Q with (inject_Z 0). rewrite <- Zle_Qle. lia. }
  unfold captureFullPage. fold d. rewrite Hsegs.
  unfold stitchImages, newOffscreenCanvas, enforce_range. rewrite Hcw, Hch.
  replace ((0 <=? width shot) && (width shot <=? 2 ^ 53 - 1)) with true
    by (symmetry; apply andb_true_iff; split; apply Z.leb_le; lia).
  replace ((0 <=? s) && (s <=? 2 ^ 53 - 1)) with true
    by (symmetry; apply andb_true_iff; split; apply Z.leb_le; lia).
  cbn [JS.bind fold_left].
  rewrite (draw_bottom_rows d shot s Hwf Hwpos (conj Hs0 Hsh) Hs).
  rewrite BackgroundProofs.convertToBlob_encodes
    by (cbn [cwidth cheight]; first [lia | exact Hser]).
  reflexivity.
Qed.

End OnAnyBrowser.

End ShortPageProofs.

(* ===================================================================== *)
(** * Edits, undo and redo *)
(* ===================================================================== *)

Module EditingProofs.

Import Editor Facts EditorProofs RectangleFacts.

Lemma index_app_l {A : Type} (l l' : list A) (i : Z) :
  0 <= i < Z.of_nat (length l) -> JS.index (l ++ l') i = JS.index l i.
Proof.
  intro Hi. unfold JS.index.
  destruct (i <? 0); [reflexivity |]. apply nth_error_app1. lia.
Qed.

Lemma index_firstn {A : Type} (l : list A) (n : nat) (i : Z) :
  0 <= i < Z.of_nat n -> JS.index (firstn n l) i = JS.index l i.
Proof.
  intro Hi. unfold JS.index.
  destruct (i <? 0); [reflexivity |]. rewrite nth_error_firstn.
  replace (Z.to_nat i <? n)%nat with true; [reflexivity |].
  symmetry. apply Nat.ltb_lt. lia.
Qed.

Lemma index_tl {A : Type} (l : list A) (i : Z) :
  0 <= i -> JS.index (tl l) i = JS.index l (i + 1).
Proof.
  intro Hi. unfold JS.index.
  replace (i <? 0) with false by (symmetry; apply Z.ltb_ge; lia).
  replace (i + 1 <? 0) with false by (symmetry; apply Z.ltb_ge; lia).
  replace (Z.to_nat (i + 1)) with (S (Z.to_nat i)) by lia.
  destruct l as [| a l]; [| reflexivity].
  cbn [tl]. now destruct (Z.to_nat i).
Qed.

(** The entry that was under the cursor before a committed edit is the one
    before the cursor after it. *)
Lemma saved_keeps_current (h : list HistoryEntry) (i : Z) (en : HistoryEntry)
  (ed' : ArintEditor) :
  -1 <= i <= Z.of_nat (length h) - 1 ->
  Z.of_nat (length h) <= maxHistory ->
  JS.index h i = Some en ->
  saved h i ed' ->
  0 < historyIndex ed'
  /\ JS.index (history ed') (historyIndex ed' - 1) = Some en.
Proof.
  intros Hi Hlen Hen (Hhist & Hidx & _).
  apply index_Some_range in Hen as Hrange.
  rewrite Hhist, Hidx. unfold maxHistory in *.
  destruct (Z.ltb_spec 20 (i + 2)) as [Hfull | Hroom].
  - split; [lia |].
    rewrite index_tl by lia. replace (i - 1 + 1) with i by lia.
    now rewrite index_app_l by lia.
  - split; [lia |]. replace (i + 1 - 1) with i by lia.
    rewrite index_app_l by (rewrite length_firstn; lia).
    now rewrite index_firstn by lia.
Qed.

(** X9. Undo after a committed edit shows the entry that was under the
    cursor before the edit; when the canvas showed that entry (no stroke
    was left open), this is the canvas as it was before the edit. The
    history keeps the edit for redo. *)
Theorem undo_reverts_last_edit
  (ed ed1 : ArintEditor) (e : Edit) (en : HistoryEntry) :
  reachable ed ->
  current ed = Some en ->
  committed e ->
  perform e ed = JS.Ok ed1 ->
  exists ed2,
    undo ed1 = JS.Ok ed2
    /\ mainCanvas ed2 = restored en
    /\ (synced ed -> mainCanvas ed2 = mainCanvas ed)
    /\ history ed2 = history ed1
    /\ historyIndex ed2 = historyIndex ed1 - 1.
Proof.
  intros Hreach Hen Hc Hperf.
  pose proof (reachable_invariant ed Hreach) as Hinv.
  pose proof Hinv as ([Hidx Hlen] & _ & _ & Hall).
  pose proof (perform_saved e ed ed1 Hinv Hc Hperf) as Hsaved.
  destruct (saved_keeps_current _ _ en ed1 Hidx Hlen Hen Hsaved)
    as [Hpos Hprev].
  exists (moved_to (historyIndex ed1 - 1) en ed1).
  split; [| split; [reflexivity | split; [| split; reflexivity]]].
  - unfold undo. replace (0 <? historyIndex ed1) with true
      by (symmetry; apply Z.ltb_lt; lia).
    cbn [history historyIndex set_history]. rewrite Hprev. reflexivity.
  - intro Hsync. cbn [mainCanvas moved_to set_canvases]. symmetry.
    now apply Hsync.
Qed.

Lemma saveState_returns (ed : ArintEditor) :
  Raster.wf_bitmap (mainCanvas ed) ->
  0 < Raster.width (mainCanvas ed) -> 0 < Raster.height (mainCanvas ed) ->
  exists ed', saveState ed = JS.Ok ed'.
Proof.
  intros Hwf Hw Hh. unfold saveState.
  rewrite getImageData_whole by (try exact Hwf; lia). cbn [JS.bind].
  destruct (maxHistory <? _); eauto.
Qed.

(** X10. An accepted crop between two points of the canvas with
    whole-number coordinates leaves exactly the rectangle they span, in
    whichever direction it was dragged: its size is the absolute
    differences, its pixels are the canvas's pixels from the smaller
    coordinates on. The new canvas is the entry under the cursor and the
    crop selection is cleared. *)
Theorem crop_keeps_selected_rectangle (ed : ArintEditor) (a b : Point) :
  let c := mainCanvas ed in
  let x0 := Z.min (x a) (x b) in
  let y0 := Z.min (y a) (y b) in
  let w := Z.abs (x b - x a) in
  let h := Z.abs (y b - y a) in
  reachable ed ->
  committed (Crop a b) ->
  0 <= x a <= Raster.width c -> 0 <= x b <= Raster.width c ->
  0 <= y a <= Raster.height c -> 0 <= y b <= Raster.height c ->
  exists ed',
    perform (Crop a b) ed = JS.Ok ed'
    /\ mainCanvas ed'
       = {| Raster.width := w; Raster.height := h;
            Raster.pixels := Raster.sub_grid x0 y0 w h (Raster.pixels c) |}
    /\ current ed' = Some (snapshot (mainCanvas ed'))
    /\ cropStart ed' = None /\ cropEnd ed' = None.
Proof.
  intros c x0 y0 w h Hreach Hc Hxa Hxb Hya Hyb.
  pose proof (reachable_invariant ed Hreach) as Hinv.
  pose proof Hinv as ([Hidx Hlen] & Hwf & _ & Hall).
  pose proof Hc as [Hcw Hch]. fold w in Hcw. fold h in Hch.
  assert (Hsub : Raster.wf_grid w h
                   (Raster.sub_grid x0 y0 w h (Raster.pixels c))).
  { apply (wf_sub_grid (Raster.width c) (Raster.height c));
      try exact Hwf; unfold x0, y0, w, h; lia. }
  destruct a as [xa ya], b as [xb yb]. cbn [x y] in *.
  cbn [perform]. unfold finishCropSelection, updateCrop, startCrop.
  cbn [cropStart cropEnd set_crop x y isCropping]. fold w h.
  replace ((10 <? w) && (10 <? h)) with true
    by (symmetry; apply andb_true_iff; split; apply Z.ltb_lt; assumption).
  unfold applyCrop. cbn [cropStart cropEnd set_crop mainCanvas x y].
  fold c x0 y0 w h.
  rewrite getImageData_inside;
    try exact Hwf; try (unfold x0, y0, w, h; lia).
  cbn [JS.bind]. unfold Raster.putImageData.
  cbn [Raster.pixels Raster.width Raster.height Raster.resize].
  rewrite (paint_on_blank _ _ _ Hsub).
  match goal with
  | |- context [saveState ?st] =>
      destruct (saveState_returns st) as [ed1 Hsave];
        cbn [mainCanvas set_canvases Raster.width Raster.height];
        try lia; [exact Hsub |];
        pose proof (saveState_saved st ed1) as Hsaved
  end.
  cbn [mainCanvas set_canvases history historyIndex set_crop] in Hsaved.
  destruct (Hsaved (conj Hidx Hlen) Hsub Hsave) as [Hpush Hcanvas].
  destruct (saved_top _ _ ed1 Hidx Hlen Hall Hpush) as (_ & _ & Hcur).
  exists (cancelCrop ed1). rewrite Hsave. cbn [JS.bind].
  split; [reflexivity |].
  split; [exact Hcanvas |].
  split; [| split; reflexivity].
  unfold current in *. cbn [history historyIndex mainCanvas cancelCrop
                            clearOverlay set_canvases set_crop].
  exact Hcur.
Qed.

(** X11. A crop drag that is 10 px or less in either direction (the test
    is [width > 10 && height > 10]) is cancelled on pointer-up, and
    applying it does nothing: canvas, history and cursor stay as they
    were and no selection is left. *)
Theorem small_crop_is_dropped (ed : ArintEditor) (a b : Point) :
  Z.abs (x b - x a) <= 10 \/ Z.abs (y b - y a) <= 10 ->
  exists ed',
    perform (Crop a b) ed = JS.Ok ed'
    /\ mainCanvas ed' = mainCanvas ed
    /\ history ed' = history ed
    /\ historyIndex ed' = historyIndex ed
    /\ cropStart ed' = None /\ cropEnd ed' = None /\ isCropping ed' = false.
Proof.
  intro Hsmall. cbn [perform].
  unfold finishCropSelection, updateCrop, startCrop.
  cbn [cropStart cropEnd set_crop x y].
  replace ((10 <? Z.abs (x b - x a)) && (10 <? Z.abs (y b - y a)))
    with false
    by (symmetry; apply andb_false_iff;
        destruct Hsmall; [left | right]; apply Z.ltb_ge; assumption).
  eexists. split; [reflexivity |]. repeat split.
Qed.

Lemma times_undo_idle (n : nat) (ed : ArintEditor) :
  historyIndex ed <= 0 -> times n undo ed = JS.Ok ed.
Proof.
  intro Hidx. induction n as [| n IH]; [reflexivity |].
  cbn [times]. unfold undo at 1.
  replace (0 <? historyIndex ed) with false
    by (symmetry; apply Z.ltb_ge; lia).
  exact IH.
Qed.

Lemma times_redo_idle (n : nat) (ed : ArintEditor) :
  Z.of_nat (length (history ed)) - 1 <= historyIndex ed ->
  times n redo ed = JS.Ok ed.
Proof.
  intro Hidx. induction n as [| n IH]; [reflexivity |].
  cbn [times]. unfold redo at 1.
  replace (historyIndex ed <? Z.of_nat (length (history ed)) - 1) with false
    by (symmetry; apply Z.ltb_ge; lia).
  exact IH.
Qed.

Lemma undo_to_oldest (n : nat) :
  forall ed : ArintEditor,
    invariant ed -> 0 < historyIndex ed <= Z.of_nat n ->
    exists ed' e0,
      times n undo ed = JS.Ok ed'
      /\ JS.index (history ed) 0 = Some e0
      /\ mainCanvas ed' = restored e0
      /\ history ed' = history ed /\ historyIndex ed' = 0.
Proof.
  induction n as [| n IH]; intros ed Hinv Hidx; [lia |].
  destruct (undo_cases ed (proj1 Hinv)) as [[Hle _] | (_ & e & He & Hundo)];
    [lia |].
  cbn [times]. rewrite Hundo. cbn [JS.bind].
  destruct (moved_invariant ed _ e Hinv He) as [Hinv' _].
  destruct (Z.eq_dec (historyIndex ed - 1) 0) as [Hzero | Hmore].
  - rewrite times_undo_idle by (cbn; lia).
    exists (moved_to (historyIndex ed - 1) e ed), e.
    split; [reflexivity |]. split; [rewrite <- Hzero; exact He |].
    split; [reflexivity |]. split; [reflexivity | exact Hzero].
  - destruct (IH _ Hinv') as (ed' & e0 & Hrun & He0 & Hcanvas & Hhist & Hat);
      [cbn; lia |].
    exists ed', e0. repeat split; assumption.
Qed.

Lemma redo_to_newest (n : nat) :
  forall ed : ArintEditor,
    invariant ed ->
    0 <= historyIndex ed < Z.of_nat (length (history ed)) - 1 ->
    Z.of_nat (length (history ed)) - 1 <= historyIndex ed + Z.of_nat n ->
    exists ed' e1,
      times n redo ed = JS.Ok ed'
      /\ JS.index (history ed) (Z.of_nat (length (history ed)) - 1) = Some e1
      /\ mainCanvas ed' = restored e1
      /\ history ed' = history ed
      /\ historyIndex ed' = Z.of_nat (length (history ed)) - 1.
Proof.
  induction n as [| n IH]; intros ed Hinv Hidx Hn; [lia |].
  destruct (redo_cases ed (proj1 Hinv)) as [[Hle _] | (_ & e & He & Hredo)];
    [lia |].
  cbn [times]. rewrite Hredo. cbn [JS.bind].
  destruct (moved_invariant ed _ e Hinv He) as [Hinv' _].
  destruct (Z.eq_dec (historyIndex ed + 1)
                     (Z.of_nat (length (history ed)) - 1)) as [Hlast | Hmore].
  - rewrite times_redo_idle by (cbn; lia).
    exists (moved_to (historyIndex ed + 1) e ed), e.
    split; [reflexivity |]. split; [rewrite <- Hlast; exact He |].
    split; [reflexivity |]. split; [reflexivity | exact Hlast].
  - destruct (IH _ Hinv') as (ed' & e1 & Hrun & He1 & Hcanvas & Hhist & Hat);
      [cbn; lia | cbn; lia |].
    exists ed', e1. repeat split; assumption.
Qed.

(** X3. Undo repeated at least as often as the cursor is high stops at
    the oldest entry, and redo repeated often enough stops at the newest:
    the canvas shows that entry, the history is unchanged, and further
    undos (redos) do nothing. *)
Theorem undo_redo_stop_at_ends (ed : ArintEditor) (n : nat) :
  reachable ed ->
  (0 < historyIndex ed <= Z.of_nat n ->
   exists ed' e0,
     times n undo ed = JS.Ok ed'
     /\ JS.index (history ed) 0 = Some e0
     /\ mainCanvas ed' = restored e0
     /\ history ed' = history ed /\ historyIndex ed' = 0)
  /\ (0 <= historyIndex ed < Z.of_nat (length (history ed)) - 1 ->
      Z.of_nat (length (history ed)) - 1 <= historyIndex ed + Z.of_nat n ->
      exists ed' e1,
        times n redo ed = JS.Ok ed'
        /\ JS.index (history ed) (Z.of_nat (length (history ed)) - 1)
           = Some e1
        /\ mainCanvas ed' = restored e1
        /\ history ed' = history ed
        /\ historyIndex ed' = Z.of_nat (length (history ed)) - 1).
Proof.
  intro Hreach. apply reachable_invariant in Hreach. split.
  - now apply undo_to_oldest.
  - now apply redo_to_newest.
Qed.

Lemma bitmap_eta (c : Raster.Bitmap) :
  {| Raster.width := Raster.width c; Raster.height := Raster.height c;
     Raster.pixels := Raster.pixels c |} = c.
Proof. now destruct c. Qed.

(** A click with the pen: pointer-down and pointer-up with no move in
    between. *)
Lemma pen_click (ed : ArintEditor) :
  invariant ed ->
  0 < Raster.width (mainCanvas ed) -> 0 < Raster.height (mainCanvas ed) ->
  exists ed',
    perform (Stroke []) ed = JS.Ok ed'
    /\ mainCanvas ed' = mainCanvas ed
    /\ saved (history ed) (historyIndex ed) ed'
    /\ invariant ed'
    /\ historyIndex ed' = Z.of_nat (length (history ed')) - 1.
Proof.
  intros Hinv Hw Hh. pose proof Hinv as ([Hidx Hlen] & Hwf & _ & Hall).
  cbn [perform]. unfold stopDrawing, draw, startDrawing.
  cbn [isDrawing set_isDrawing negb fold_left mainCanvas overlayCanvas
       set_canvases].
  rewrite bitmap_eta.
  match goal with
  | |- context [saveState ?st] =>
      destruct (saveState_returns st) as [ed1 Hsave];
        [exact Hwf | exact Hw | exact Hh |];
        pose proof (saveState_saved st ed1 (conj Hidx Hlen) Hwf Hsave)
          as [Hpush Hcanvas]
  end.
  cbn [mainCanvas set_canvases set_isDrawing history historyIndex]
    in Hpush, Hcanvas.
  destruct (saved_top _ _ ed1 Hidx Hlen Hall Hpush) as (Hinv1 & Hat & _).
  exists ed1. now rewrite Hsave.
Qed.

Lemma repeat_snoc {A : Type} (a : A) (n : nat) :
  repeat a n ++ [a] = repeat a (S n).
Proof.
  induction n as [| n IH]; [reflexivity |].
  cbn [repeat app]. now rewrite IH.
Qed.

Lemma pen_clicks (c : Raster.Bitmap) :
  0 < Raster.width c -> 0 < Raster.height c ->
  forall (j : nat) (pre : list HistoryEntry) (k : nat) (ed : ArintEditor),
    invariant ed -> mainCanvas ed = c ->
    history ed = pre ++ repeat (snapshot c) k ->
    historyIndex ed = Z.of_nat (length (history ed)) - 1 ->
    exists ed',
      perform_all (repeat (Stroke []) j) ed = JS.Ok ed'
      /\ mainCanvas ed' = c
      /\ history ed'
         = skipn (length pre + k + j - 20)
                 (pre ++ repeat (snapshot c) (k + j)).
Proof.
  intros Hw Hh.
  induction j as [| j IH]; intros pre k ed Hinv Hc Hhist Hat.
  - exists ed. pose proof Hinv as ([_ Hlen] & _).
    rewrite Hhist, length_app, repeat_length in Hlen.
    unfold maxHistory in Hlen.
    replace (length pre + k + 0 - 20)%nat with O by lia.
    rewrite Nat.add_0_r. cbn [skipn perform_all repeat]. auto.
  - destruct (pen_click ed Hinv) as (ed1 & Hclick & Hc1 & Hpush & Hinv1 & Hat1);
      [rewrite Hc; exact Hw | rewrite Hc; exact Hh |].
    rewrite Hc in Hc1.
    cbn [repeat perform_all]. rewrite Hclick. cbn [JS.bind].
    destruct Hpush as (Hhist1 & _ & _). rewrite Hc1, Hat in Hhist1.
    pose proof Hinv as ([_ Hlen] & _).
    rewrite Hhist, length_app, repeat_length in Hlen, Hhist1.
    unfold maxHistory in Hlen, Hhist1.
    destruct (Z.ltb_spec 20 (Z.of_nat (length pre + k) - 1 + 2))
      as [Hfull | Hroom].
    + rewrite <- app_assoc, repeat_snoc in Hhist1.
      destruct pre as [| p pre].
      * cbn [app length] in *.
        assert (Hk : k = 20%nat) by lia.
        change (tl (repeat (snapshot c) (S k)))
          with (repeat (snapshot c) k) in Hhist1.
        destruct (IH [] k ed1 Hinv1 Hc1 Hhist1 Hat1)
          as (ed' & Hrun & Hc' & Hhist').
        exists ed'. split; [exact Hrun | split; [exact Hc' |]].
        rewrite Hhist'. cbn [length app].
        replace (0 + k + S j - 20)%nat with (S (0 + k + j - 20)) by lia.
        replace (k + S j)%nat with (S (k + j)) by lia.
        reflexivity.
      * cbn [app tl length] in *.
        destruct (IH pre (S k) ed1 Hinv1 Hc1 Hhist1 Hat1)
          as (ed' & Hrun & Hc' & Hhist').
        exists ed'. split; [exact Hrun | split; [exact Hc' |]].
        rewrite Hhist'.
        replace (S (length pre) + k + S j - 20)%nat
          with (S (length pre + S k + j - 20)) by lia.
        replace (k + S j)%nat with (S k + j)%nat by lia.
        reflexivity.
    + replace (Z.to_nat (Z.of_nat (length pre + k) - 1 + 1))
        with (length (pre ++ repeat (snapshot c) k)) in Hhist1
        by (rewrite length_app, repeat_length; lia).
      rewrite firstn_all, <- app_assoc, repeat_snoc in Hhist1.
      destruct (IH pre (S k) ed1 Hinv1 Hc1 Hhist1 Hat1)
        as (ed' & Hrun & Hc' & Hhist').
      exists ed'. split; [exact Hrun | split; [exact Hc' |]].
      rewrite Hhist'.
      replace (length pre + S k + j)%nat with (length pre + k + S j)%nat
        by lia.
      replace (S k + j)%nat with (k + S j)%nat by lia.
      reflexivity.
Qed.

(** X12. A click with the pen, pointer-down and pointer-up with no move,
    inks nothing and still pushes a snapshot. Twenty of them (maxHistory)
    leave a history of twenty copies of the unchanged canvas: every older
    state is gone from it. *)
Theorem pen_clicks_fill_history (ed : ArintEditor) :
  let c := mainCanvas ed in
  reachable ed ->
  0 < Raster.width c -> 0 < Raster.height c ->
  exists ed',
    perform_all (repeat (Stroke []) 20) ed = JS.Ok ed'
    /\ mainCanvas ed' = c
    /\ history ed' = repeat (snapshot c) 20
    /\ historyIndex ed' = 19.
Proof.
  intros c Hreach Hw Hh.
  pose proof (reachable_invariant ed Hreach) as Hinv.
  destruct (pen_click ed Hinv Hw Hh)
    as (ed1 & Hclick & Hc1 & Hpush & Hinv1 & Hat1).
  fold c in Hc1.
  assert (Hpre : exists pre, history ed1 = pre ++ repeat (snapshot c) 1).
  { destruct Hpush as (Hhist1 & _ & _). rewrite Hc1 in Hhist1.
    pose proof Hinv as ([Hidx Hlen] & _). unfold maxHistory in *.
    destruct (Z.ltb_spec 20 (historyIndex ed + 2)); [| eauto].
    destruct (history ed) as [| e0 h]; [cbn [length] in Hidx; lia |].
    exists h. exact Hhist1. }
  destruct Hpre as [pre Hhist1].
  destruct (pen_clicks c Hw Hh 19 pre 1 ed1 Hinv1 Hc1 Hhist1 Hat1)
    as (ed' & Hrun & Hc' & Hhist').
  exists ed'.
  change (repeat (Stroke []) 20) with (Stroke [] :: repeat (Stroke []) 19).
  cbn [perform_all]. rewrite Hclick. cbn [JS.bind].
  split; [exact Hrun | split; [exact Hc' |]].
  replace (length pre + 1 + 19 - 20)%nat with (length pre) in Hhist' by lia.
  rewrite skipn_app, skipn_all, Nat.sub_diag in Hhist'.
  cbn [app skipn Nat.add] in Hhist'.
  split; [exact Hhist' |].
  destruct (perform_all_top (repeat (Stroke []) 19) ed1 ed' Hinv1)
    as (_ & _ & Hat' & _); [| discriminate | exact Hrun |].
  - apply Forall_forall. intros e He. apply repeat_spec in He. now subst.
  - rewrite Hat', Hhist', repeat_length. reflexivity.
Qed.

(** [loadImage] into a new editor. *)
Lemma loadImage_first (img main overlay : Raster.Bitmap) :
  Raster.wf_bitmap img ->
  0 < Raster.width img -> 0 < Raster.height img ->
  loadImage img (constructor main overlay)
  = JS.Ok {| mainCanvas := img;
             overlayCanvas :=
               Raster.resize (Raster.width img) (Raster.height img);
             currentTool := select;
             history := [snapshot img]; historyIndex := 0;
             isDrawing := false;
             cropStart := None; cropEnd := None; isCropping := false |}.
Proof.
  intros Hwf Hw Hh. unfold loadImage.
  rewrite (paint_on_blank _ _ _ Hwf), bitmap_eta.
  unfold saveState.
  cbn [mainCanvas set_canvases history historyIndex constructor length].
  rewrite getImageData_whole by (try exact Hwf; lia).
  reflexivity.
Qed.

(** While the history has room, committed edits add to it and keep what
    it holds. *)
Lemma perform_all_extends (es : list Edit) :
  forall ed ed' : ArintEditor,
    invariant ed -> Forall committed es ->
    historyIndex ed = Z.of_nat (length (history ed)) - 1 ->
    Z.of_nat (length (history ed)) + Z.of_nat (length es) <= maxHistory ->
    perform_all es ed = JS.Ok ed' ->
    invariant ed'
    /\ historyIndex ed' = Z.of_nat (length (history ed')) - 1
    /\ Z.of_nat (length (history ed'))
       = Z.of_nat (length (history ed)) + Z.of_nat (length es)
    /\ exists added, history ed' = (history ed ++ added)%list.
Proof.
  induction es as [| e es IH]; intros ed ed' Hinv Hall Hat Hroom Hrun.
  - cbn [perform_all] in Hrun. injection Hrun as <-. cbn [length].
    split; [exact Hinv | split; [exact Hat | split; [lia |]]].
    exists []. now rewrite app_nil_r.
  - cbn [perform_all] in Hrun. cbn [length] in Hroom.
    destruct (perform e ed) as [ed1 |] eqn:Hstep; cbn [JS.bind] in Hrun;
      [| discriminate].
    inversion Hall as [| ? ? Hc Hrest]; subst.
    pose proof Hinv as ([Hidx Hlen] & _ & _ & Hentries).
    pose proof (perform_saved e ed ed1 Hinv Hc Hstep) as Hsaved.
    destruct (saved_top _ _ ed1 Hidx Hlen Hentries Hsaved)
      as (Hinv1 & Hat1 & _).
    destruct Hsaved as (Hhist1 & _ & _). unfold maxHistory in *.
    replace (20 <? historyIndex ed + 2) with false in Hhist1
      by (symmetry; apply Z.ltb_ge; lia).
    rewrite firstn_all2 in Hhist1 by lia.
    destruct (IH ed1 ed' Hinv1 Hrest Hat1)
      as (Hinv' & Hat' & Hlen' & added & Hadd);
      [rewrite Hhist1, length_app; cbn [length]; lia | exact Hrun |].
    rewrite Hhist1, length_app in Hlen'. cbn [length] in Hlen' |- *.
    split; [exact Hinv' | split; [exact Hat' | split; [lia |]]].
    eexists. rewrite Hadd, Hhist1, <- app_assoc. reflexivity.
Qed.

(** X20. After an image is loaded into a new editor and fewer than
    maxHistory edits are committed, as many undos as there were edits
    bring back the loaded image exactly, and the history keeps the edits
    for redo. *)
Theorem undo_all_returns_loaded_image
  (w h w' h' : Z) (img : Raster.Bitmap) (ed1 ed2 : ArintEditor)
  (edits : list Edit) :
  0 <= w -> 0 <= h ->
  Raster.wf_bitmap img -> 0 < Raster.width img -> 0 < Raster.height img ->
  loadImage img (constructor (Raster.resize w h) (Raster.resize w' h'))
  = JS.Ok ed1 ->
  Forall committed edits ->
  Z.of_nat (length edits) < maxHistory ->
  perform_all edits ed1 = JS.Ok ed2 ->
  exists ed3,
    times (length edits) undo ed2 = JS.Ok ed3
    /\ mainCanvas ed3 = img
    /\ history ed3 = history ed2
    /\ historyIndex ed3 = 0.
Proof.
  intros Hw Hh Hwf Hiw Hih Hload Hall Hfew Hrun.
  assert (Hreach : reachable ed1).
  { eapply reach_loadImage; [| exact Hwf | exact Hload].
    now apply reach_constructor. }
  rewrite loadImage_first in Hload by assumption.
  injection Hload as Hed1.
  pose proof (reachable_invariant ed1 Hreach) as Hinv1.
  assert (Hh1 : history ed1 = [snapshot img]) by now subst ed1.
  assert (Hi1 : historyIndex ed1 = 0) by now subst ed1.
  assert (Hc1 : mainCanvas ed1 = img) by now subst ed1.
  destruct (perform_all_extends edits ed1 ed2 Hinv1 Hall)
    as (Hinv2 & Hat2 & Hlen2 & added & Hadd);
    [rewrite Hh1, Hi1; reflexivity
    | rewrite Hh1; cbn [length]; unfold maxHistory in *; lia
    | exact Hrun |].
  rewrite Hh1 in Hlen2, Hadd. cbn [length] in Hlen2.
  destruct edits as [| e edits].
  - cbn [perform_all] in Hrun. injection Hrun as <-.
    exists ed1. cbn [length times]. auto.
  - destruct (undo_to_oldest (length (e :: edits)) ed2 Hinv2)
      as (ed3 & e0 & Hundo & He0 & Hcanvas & Hhist & Hat3);
      [cbn [length] in *; lia |].
    exists ed3. split; [exact Hundo |].
    rewrite Hadd in He0. cbn in He0. injection He0 as <-.
    rewrite Hcanvas, restored_snapshot by exact Hwf. auto.
Qed.

End EditingProofs.

(* ===================================================================== *)
(** * The editor's page *)
(* ===================================================================== *)

Module EditorUIProofs.

Import Editor EditorUI Facts EditorProofs EditingProofs.
Import String.StringSyntax.
#[local] Open Scope string_scope.
#[local] Open Scope Z_scope.

Lemma setZoom_bounds (level : Q) (v : View) :
  (minZoom <= zoom (setZoom level v) <= maxZoom)%Q.
Proof.
  cbn [zoom setZoom]. unfold max, min, minZoom, maxZoom.
  destruct (Qlt_le_dec level 5) as [Hlt | Hge];
    destruct (Qlt_le_dec (1 # 10) _) as [Hlo | Hhi]; split;
    try apply Qle_refl; try (apply Qlt_le_weak; assumption);
    try assumption; try discriminate.
Qed.

Lemma zoom_op_bounds (op : ZoomOp) (v : View) :
  (minZoom <= zoom v <= maxZoom)%Q ->
  (minZoom <= zoom (zoom_op op v) <= maxZoom)%Q.
Proof.
  intro Hv. destruct op as [| | | modifier deltaY]; cbn [zoom_op];
    try apply setZoom_bounds.
  unfold onWheel. destruct modifier; [apply setZoom_bounds | exact Hv].
Qed.

(** X13. From the constructor's zoom of 1, after any sequence of zoom-in,
    zoom-out, reset and wheel commands the zoom lies between minZoom
    (0.1) and maxZoom (5), and the label shows between 10 and 500
    percent. *)
Theorem zoom_stays_within_limits (main overlay : Raster.Bitmap)
  (ops : list ZoomOp) :
  let v := fold_left (fun v op => zoom_op op v) ops
                     (view (start main overlay)) in
  (minZoom <= zoom v <= maxZoom)%Q /\ 10 <= zoomLabel v <= 500.
Proof.
  cbn zeta.
  assert (Hz : forall v, (minZoom <= zoom v <= maxZoom)%Q ->
            (minZoom <= zoom (fold_left (fun v op => zoom_op op v) ops v)
             <= maxZoom)%Q).
  { induction ops as [| op ops IH]; intros v Hv; [exact Hv |].
    cbn [fold_left]. apply IH, zoom_op_bounds, Hv. }
  specialize (Hz (view (start main overlay))).
  destruct Hz as [Hlo Hhi]; [split; discriminate |].
  split; [now split |].
  unfold zoomLabel, round, minZoom, maxZoom in *.
  set (z := zoom _) in *. split.
  - replace 10 with (Qfloor (10 # 1)) by reflexivity.
    apply Qfloor_resp_le. lra.
  - replace 500 with (Qfloor (1001 # 2)) by reflexivity.
    apply Qfloor_resp_le. lra.
Qed.

(** X14. Of all key presses only Ctrl/Cmd+Z (with or without Shift, in
    either letter case) changes the image: any other key leaves canvas,
    history and cursor as they are, without an exception, and what it
    exports is the canvas as it is. *)
Theorem keys_other_than_undo_keep_image (e : KeyboardEvent) (s : Session) :
  (ctrlKey e || metaKey e) && String.eqb (toLowerCase (key e)) "z" = false ->
  exists s' out,
    onKeyDown e s = JS.Ok (s', out)
    /\ mainCanvas (editor s') = mainCanvas (editor s)
    /\ history (editor s') = history (editor s)
    /\ historyIndex (editor s') = historyIndex (editor s)
    /\ Forall (fun x => x = copied (mainCanvas (editor s))
                        \/ x = downloaded (mainCanvas (editor s))) out.
Proof.
  intro Hkey. unfold onKeyDown.
  destruct (ctrlKey e || metaKey e); cbn [andb] in Hkey;
    [rewrite Hkey |];
    repeat match goal with
           | |- context [if ?b then _ else _] => destruct b
           end;
    eexists; eexists; (split; [reflexivity |]);
    unfold setTool, cancelCrop, clearOverlay;
    repeat match goal with
           | |- context [if ?b then _ else _] => destruct b
           end;
    cbn [editor with_editor with_view mainCanvas history historyIndex
         set_canvases set_tool set_crop];
    (split; [reflexivity |]); (split; [reflexivity |]);
    (split; [reflexivity |]);
    repeat (apply Forall_cons; [first [now left | now right] |]);
    apply Forall_nil.
Qed.

Section StartUp.

Context {Tab : Type} `{Background.Browser Tab}.

(** X15. From a visible-area capture to the editor: the request is
    answered with success, the editor that then asks for the pending
    capture gets the capture itself on its canvas, as the only history
    entry, with nothing to undo or redo; an editor that asks again gets
    no image and stays empty. *)
Theorem editor_opens_on_visible_capture
  (fuel : nat) (tab : Tab) (st : Background.State)
  (main overlay : Raster.Bitmap) :
  let shot := Background.captureVisibleTab tab in
  let request := Messages.CAPTURE_REQUEST Messages.act_visible in
  let ask := Messages.GET_PENDING_CAPTURE in
  Raster.wf_bitmap shot -> 0 < Raster.width shot -> 0 < Raster.height shot ->
  exists st1 st2 answer1 answer2 ed,
    Background.onMessage fuel request tab st
    = Some (tab, st1, Some Background.success_true)
    /\ Background.onMessage fuel ask tab st1 = Some (tab, st2, Some answer1)
    /\ loadCapturedImage (Some answer1) (constructor main overlay)
       = Some (JS.Ok (ed, screenshot_loaded))
    /\ mainCanvas ed = shot
    /\ history ed = [snapshot shot] /\ historyIndex ed = 0
    /\ undo ed = JS.Ok ed /\ redo ed = JS.Ok ed
    /\ Background.onMessage fuel ask tab st2 = Some (tab, st2, Some answer2)
    /\ loadCapturedImage (Some answer2) (constructor main overlay)
       = Some (JS.Ok (constructor main overlay, no_screenshot_data)).
Proof.
  intros shot request ask Hwf Hw Hh.
  exists (Background.openEditor (Raster.encode shot) st),
         {| Background.pendingCapture := None;
            Background.editorTabs := S (Background.editorTabs st) |},
         (Background.imageData_is (Some (Raster.encode shot))),
         (Background.imageData_is None).
  eexists.
  split; [reflexivity |]. split; [reflexivity |].
  split.
  { cbn [loadCapturedImage]. unfold decode, Raster.encode.
    cbn [Raster.surface Raster.cwidth Raster.cheight].
    rewrite bitmap_eta.
    rewrite (loadImage_first shot main overlay Hwf Hw Hh). reflexivity. }
  repeat split.
Qed.

End StartUp.

Lemma draw_nothing (ed : ArintEditor) : draw [] ed = ed.
Proof.
  unfold draw. destruct (negb (isDrawing ed)); [reflexivity |].
  cbn [fold_left]. rewrite bitmap_eta. now destruct ed.
Qed.

Lemma draw_more (a b : list (Z * Z * Raster.pixel)) (ed : ArintEditor) :
  isDrawing ed = true -> draw (a ++ b)%list ed = draw b (draw a ed).
Proof.
  intro Hd. unfold draw. rewrite Hd.
  cbn [negb isDrawing set_canvases]. rewrite Hd.
  cbn [negb mainCanvas overlayCanvas set_canvases
       Raster.width Raster.height Raster.pixels].
  now rewrite fold_left_app.
Qed.

(** The ink of the moves of a drag: a move off the canvas inks nothing. *)
Lemma pen_moves
  (moves : list (option Point * list (Z * Z * Raster.pixel)
                 * Content.MouseEvent)) :
  forall s : Session,
    currentTool (editor s) = pen -> isDrawing (editor s) = true ->
    pointers (map (fun m => Move (fst (fst m)) (snd (fst m)) (snd m)) moves
              ++ [Up])%list s
    = (ed <- stopDrawing
               (draw (concat (map (fun m => match fst (fst m) with
                                            | Some _ => snd (fst m)
                                            | None => []
                                            end) moves))
                     (editor s)) ;;
       JS.Ok (with_editor ed s)).
Proof.
  induction moves as [| [[coords ink] e] moves IH]; intros s Htool Hd.
  - cbn [map app concat pointers pointer]. unfold onMouseUp.
    rewrite Htool, draw_nothing.
    destruct (stopDrawing (editor s)); reflexivity.
  - cbn [map app concat pointers pointer fst snd JS.bind].
    destruct coords as [p |]; cbn [onMouseMove fst].
    + rewrite Htool, Hd. cbn [fst].
      rewrite IH; cbn [editor with_editor];
        [| unfold draw; rewrite Hd; exact Htool
         | unfold draw; rewrite Hd; exact Hd].
      rewrite <- draw_more by exact Hd.
      destruct (stopDrawing _); reflexivity.
    + rewrite IH by assumption. reflexivity.
Qed.

(** X16. With the pen selected, a pointer-down on the canvas, any moves
    and the pointer-up (or the pointer leaving the canvas) amount to one
    edit: the stroke of the inks of the moves that fell on the canvas, in
    order, committed by one [saveState]. *)
Theorem pen_drag_is_one_stroke
  (s : Session) (p : Point) (e : Content.MouseEvent) (scroll : Z * Z)
  (moves : list (option Point * list (Z * Z * Raster.pixel)
                 * Content.MouseEvent)) :
  currentTool (editor s) = pen ->
  pointers (Down (Some p) e scroll
            :: map (fun m => Move (fst (fst m)) (snd (fst m)) (snd m)) moves
               ++ [Up])%list s
  = (ed <- perform
             (Stroke (concat (map (fun m => match fst (fst m) with
                                            | Some _ => snd (fst m)
                                            | None => []
                                            end) moves)))
             (editor s) ;;
     JS.Ok (with_editor ed s)).
Proof.
  intro Htool. cbn [pointers pointer JS.bind]. unfold onMouseDown.
  rewrite Htool. rewrite pen_moves by (cbn; auto).
  cbn [editor with_editor perform].
  destruct (stopDrawing _); reflexivity.
Qed.

Lemma crop_moves
  (moves : list (option Point * list (Z * Z * Raster.pixel)
                 * Content.MouseEvent)) :
  forall (a b : Point) (ed : ArintEditor) (v : View),
    currentTool ed = crop ->
    pointers (map (fun m => Move (fst (fst m)) (snd (fst m)) (snd m)) moves
              ++ [Up])%list
             {| editor := set_crop (Some a) (Some b) true ed; view := v |}
    = JS.Ok {| editor := finishCropSelection
                           (set_crop (Some a) (Some (drag_end moves b)) true
                                     ed);
               view := v |}.
Proof.
  induction moves as [| [[coords ink] e] moves IH]; intros a b ed v Htool.
  - cbn [map app pointers pointer drag_end fold_left]. unfold onMouseUp.
    cbn [editor currentTool set_crop]. rewrite Htool. reflexivity.
  - cbn [map app pointers pointer fst snd JS.bind drag_end fold_left].
    destruct coords as [[qx qy] |]; cbn [onMouseMove fst editor].
    + cbn [currentTool isCropping set_crop]. rewrite Htool. cbn [fst].
      unfold with_editor, updateCrop.
      cbn [view cropStart isCropping set_crop x y].
      exact (IH a {| x := qx; y := qy |} ed v Htool).
    + exact (IH a b ed v Htool).
Qed.

(** X17. With the crop tool selected, a pointer-down on the canvas, any
    moves and the pointer-up leave a selection that, applied, is the crop
    from the point of the pointer-down to that of the last move the
    canvas took (to the point itself when there was none). *)
Theorem crop_drag_is_one_crop
  (s : Session) (a : Point) (e : Content.MouseEvent) (scroll : Z * Z)
  (moves : list (option Point * list (Z * Z * Raster.pixel)
                 * Content.MouseEvent)) :
  currentTool (editor s) = crop ->
  exists s1,
    pointers (Down (Some a) e scroll
              :: map (fun m => Move (fst (fst m)) (snd (fst m)) (snd m)) moves
                 ++ [Up])%list s
    = JS.Ok s1
    /\ view s1 = view s
    /\ applyCrop (editor s1)
       = perform (Crop a (drag_end moves a)) (editor s).
Proof.
  intro Htool. eexists. split; [| split].
  - cbn [pointers pointer JS.bind]. unfold onMouseDown. rewrite Htool.
    unfold with_editor, startCrop. destruct a as [ax ay]. cbn [x y].
    apply crop_moves. exact Htool.
  - reflexivity.
  - cbn [editor perform]. unfold updateCrop, startCrop.
    cbn [cropStart isCropping set_crop].
    destruct a as [ax ay]. cbn [x y].
    destruct (drag_end moves _) as [bx by_]. reflexivity.
Qed.

(** X18. Changing tool during a pen stroke leaves the stroke open: the
    pointer-up goes to the other tool, nothing is saved, and back on the
    pen the next pointer move inks the canvas with no button pressed,
    while the history is still as before the stroke. *)
Theorem tool_switch_leaves_stroke_open
  (s : Session) (p q : Point) (e e' : Content.MouseEvent) (scroll : Z * Z)
  (ink : list (Z * Z * Raster.pixel)) :
  currentTool (editor s) = pen ->
  exists s',
    inputs [on_canvas (Down (Some p) e scroll); on_key (plain "v");
            on_canvas Up; on_key (plain "p");
            on_canvas (Move (Some q) ink e')] s
    = JS.Ok s'
    /\ isDrawing (editor s') = true
    /\ currentTool (editor s') = pen
    /\ Raster.pixels (mainCanvas (editor s'))
       = fold_left (fun g '(x, y, c) => Raster.set_pixel x y c g) ink
                   (Raster.pixels (mainCanvas (editor s)))
    /\ history (editor s') = history (editor s)
    /\ historyIndex (editor s') = historyIndex (editor s).
Proof.
  intro Htool. eexists. split.
  - cbn [inputs input pointer JS.bind]. unfold onMouseDown. rewrite Htool.
    unfold onKeyDown, plain. cbn [key ctrlKey metaKey shiftKey orb].
    cbn [toLowerCase lower]. cbn.
    rewrite Htool. cbn. reflexivity.
  - cbn. rewrite Htool. cbn. unfold draw, setTool, clearOverlay.
    cbn. rewrite ?Htool. cbn. repeat split.
Qed.

End EditorUIProofs.

(* ===================================================================== *)
(** * Worked cases *)
(* ===================================================================== *)

Module Cases.

Import Raster Background.

#[local] Existing Instance Reference.browser.

(** C3, as stated, fails on a page higher than MAX_PAGE_HEIGHT. Scroll
    height 30300, viewport 900, ratio 1: 34 segments, the last at offset
    29700. It would overshoot totalHeight = 30000 by 600 rows, and cropped
    from its bottom edge to end there, the canvas's rows 29700 to 29999
    would be the image's rows 600 to 899. The code crops against the scroll
    height instead: it paints the image from its row 300 on, and the canvas
    cuts the painting off, so that the canvas's rows 29700 to 29999 are the
    image's rows 300 to 599 (each image row [y] is painted in colour
    [y + 1]). *)
Lemma capped_page_last_segment :
  let d := {| scrollWidth := 1; scrollHeight := 30300;
              viewportWidth := 1; viewportHeight := 900;
              devicePixelRatio := 1 |} in
  let shot := {| width := 1; height := 900;
                 pixels := Reference.ruled 1 900 |} in
  let caps := map (fun i => {| imageData := shot; offsetY := i * 900;
                               isLast := i =? 33 |})
                  (zrange 0 34) in
  option_map cheight (JS.value (stitchImages caps d)) = Some 30000
  /\ option_map (fun c => row c 29700) (JS.value (stitchImages caps d))
     = Some (Some [301])
  /\ option_map (fun c => row c 29999) (JS.value (stitchImages caps d))
     = Some (Some [600])
  /\ row (encode shot) 899 = Some [900].
Proof.
  repeat split; vm_compute; reflexivity.
Qed.

(** C1, as stated, fails on a page shorter than its viewport. Scroll
    height 2, viewport 3, ratio 1, a document ruled 1, 2: the capture shows
    the rows 1, 2 and a transparent row, the image handed to the editor is
    two rows high and holds the capture's last two rows. *)
Lemma short_page_is_not_its_capture :
  let page := Reference.strip 2 3 in
  scrollHeight (getPageDimensions page) <= viewportHeight (getPageDimensions page)
  /\ option_map (fun r => pendingCapture (snd r))
       (match captureFullPage 2 page initial with
        | Some m => JS.value m
        | None => None
        end)
     = Some (Some {| cwidth := 1; cheight := 2;
                     surface := Some [[2]; [0]] |})
  /\ encode (captureVisibleTab (scrollTo 0 page))
     = {| cwidth := 1; cheight := 3; surface := Some [[1]; [2]; [0]] |}.
Proof.
  split; [vm_compute; discriminate |]. split; vm_compute; reflexivity.
Qed.

(** A page as high as its viewport, and one a row lower. *)
Lemma single_segment_page_witness :
  (let page := Reference.strip 2 2 in
   let shot := captureVisibleTab (scrollTo 0 page) in
   capture_segments 2 page
   = Some (scrollTo 0 page,
           [{| imageData := shot; offsetY := 0; isLast := true |}])
   /\ exists tab' st',
        captureFullPage 2 page initial = Some (JS.Ok (tab', st'))
        /\ pendingCapture st' = Some (encode shot))
  /\ (let page := Reference.strip 2 3 in
      let shot := captureVisibleTab (scrollTo 0 page) in
      exists tab' st' stitched,
        captureFullPage 2 page initial = Some (JS.Ok (tab', st'))
        /\ pendingCapture st' = Some stitched
        /\ cheight stitched = 2
        /\ cheight stitched < height shot
        /\ stitched <> encode shot).
Proof.
  split; intros page shot.
  - destruct (StitchProofs.single_segment_page 2 page initial)
      as (Hsegs & Hsame & _);
      [vm_compute; split; [reflexivity | discriminate] | lia |].
    split; [exact Hsegs |].
    destruct (captureFullPage 2 page initial) as [[[tab' st'] |] |] eqn:Hrun;
      [| vm_compute in Hrun; discriminate ..].
    exists tab', st'. split; [reflexivity |].
    apply (Hsame eq_refl) with (tab' := tab'); try reflexivity.
    + vm_compute. discriminate.
    + vm_compute. repeat split; try discriminate. repeat constructor.
  - destruct (StitchProofs.single_segment_page 2 page initial)
      as (_ & _ & Hshort);
      [vm_compute; split; [reflexivity | discriminate] | lia |].
    destruct (captureFullPage 2 page initial) as [[[tab' st'] |] |] eqn:Hrun;
      [| vm_compute in Hrun; discriminate ..].
    destruct (Hshort eq_refl eq_refl ltac:(reflexivity) tab' st' eq_refl)
      as (stitched & Hpending & Hrows & Hlow & Hother).
    exists tab', st', stitched.
    split; [reflexivity |]. split; [exact Hpending |].
    split; [exact Hrows |]. split; assumption.
Defined.

(** A page 2500 high under a viewport 1000 high: the third segment is the
    capture taken after the request to scroll to 2000. *)
Lemma segments_of_full_page_witness :
  let page := Reference.strip 2500 1000 in
  exists captures,
    capture_segments 4 page = Some (scrolled 1000 3 page, captures)
    /\ captures
       = map (fun i =>
                {| imageData :=
                     captureVisibleTab
                       (scrollTo (i * 1000) (scrolled 1000 (Z.to_nat i) page));
                   offsetY := i * 1000;
                   isLast := i =? 2 |})
             [0; 1; 2]
    /\ map offsetY captures = [0; 1000; 2000]
    /\ map isLast captures = [false; false; true].
Proof.
  intro page.
  destruct (BackgroundProofs.segments_of_full_page 4 page)
    as (captures & Hsegs & _ & Hcaps & _ & _ & _ & Hcase);
    [reflexivity | apply Z.leb_le; reflexivity
     | apply Nat.ltb_lt; reflexivity |].
  exists captures. split; [exact Hsegs |].
  split; [exact Hcaps |].
  exact (Hcase eq_refl eq_refl).
Defined.

Lemma stitched_rows_of_segments_witness :
  let d := {| scrollWidth := 1; scrollHeight := 5;
              viewportWidth := 1; viewportHeight := 2;
              devicePixelRatio := 1 |} in
  let front :=
    [ {| imageData := {| width := 1; height := 2; pixels := [[1]; [2]] |};
         offsetY := 0; isLast := false |};
      {| imageData := {| width := 1; height := 2; pixels := [[3]; [4]] |};
         offsetY := 2; isLast := false |} ] in
  let fin :=
    {| imageData := {| width := 1; height := 2; pixels := [[4]; [5]] |};
       offsetY := 4; isLast := true |} in
  exists c,
    stitchImages (front ++ [fin]) d = JS.Ok c
    /\ cwidth c = 1 /\ cheight c = 5
    /\ surface c = Some [[1]; [2]; [3]; [4]; [5]].
Proof.
  intros d front fin.
  destruct (stitchImages (front ++ [fin]) d) as [c |] eqn:Hrun;
    [| vm_compute in Hrun; discriminate].
  exists c. split; [reflexivity |].
  destruct (StitchProofs.stitched_rows_of_segments d 1 2 5) with
    (front := front) (fin := fin) (c := c)
    as (Hw & _ & _ & Hexact); try reflexivity; try exact Hrun.
  - repeat constructor; apply Z.leb_le; reflexivity.
  - split; [exact Hw |]. apply Hexact. vm_compute. discriminate.
Defined.

Lemma stitched_height_capped_witness :
  exists tab' st' stitched,
    captureFullPage 7 (Reference.strip 100000 5000) initial
    = Some (JS.Ok (tab', st'))
    /\ pendingCapture st' = Some stitched
    /\ (inject_Z (cheight stitched) <= inject_Z MAX_PAGE_HEIGHT * 1)%Q.
Proof.
  destruct (BackgroundProofs.captureFullPage_returns
              7 (Reference.strip 100000 5000) initial)
    as (tab' & st' & Hrun);
    [reflexivity | apply Z.leb_le; reflexivity
     | split; [reflexivity | apply Z.leb_le; reflexivity]
     | split; [reflexivity | apply Z.leb_le; reflexivity]
     | reflexivity | apply Nat.ltb_lt; reflexivity |].
  destruct (BackgroundProofs.stitched_height_capped
              7 (Reference.strip 100000 5000) tab' initial st')
    as (stitched & Hpending & Hcapped); [reflexivity | exact Hrun |].
  exists tab', st', stitched. auto.
Defined.

(** ** The region selector *)

Lemma pointer_up_cancels_or_selects_witness :
  let press := Content.MouseDown
                 {| Content.clientX := 5; Content.clientY := 5 |} in
  let s := fst (Content.run 2 [press] Content.init) in
  let small := {| Content.clientX := 100; Content.clientY := 7 |} in
  let large := {| Content.clientX := 100; Content.clientY := 60 |} in
  snd (Content.onMouseUp 2 small s) = [Messages.SELECTION_CANCELLED]
  /\ Content.selections
       (snd (Content.run 2 [Content.KeyDown true; Content.Timeout]
               (fst (Content.onMouseUp 2 large s))))
     = [{| Messages.x := 5; Messages.y := 5;
           Messages.width := 95; Messages.height := 55;
           Messages.devicePixelRatio := 2 |}].
Proof.
  intros press s small large. split.
  - apply (ContentProofs.pointer_up_cancels_or_selects 2 [press] small
             eq_refl).
    right. reflexivity.
  - apply (proj2 (ContentProofs.pointer_up_cancels_or_selects 2 [press] large
                    eq_refl)).
    split; apply Z.leb_le; reflexivity.
Defined.

(** ** The editor *)

Lemma reachable_fresh : Editor.reachable Editor.fresh.
Proof. apply Editor.reach_constructor; apply Z.leb_le; reflexivity. Qed.

(** Running a step on a concrete state: the outcome is computed. *)
Ltac computed H :=
  vm_compute in H; first [discriminate H | injection H as <-].

(** C9, as stated, fails after a crop is undone. A 12 x 12 image is
    loaded, cropped to 11 x 11, and the crop undone: the canvas is 12 x 12
    again, as the entry under the cursor; the topmost history entry, the
    crop's, is 11 x 11. *)
Lemma canvas_differs_from_topmost_entry :
  let crop := Editor.Crop {| Editor.x := 0; Editor.y := 0 |}
                          {| Editor.x := 11; Editor.y := 11 |} in
  let after_undo :=
    JS.value (ed1 <- Editor.loadImage (Raster.resize 12 12) Editor.fresh ;;
              ed2 <- Editor.perform crop ed1 ;;
              Editor.undo ed2) in
  option_map (fun ed => (Raster.width (Editor.mainCanvas ed),
                         Raster.height (Editor.mainCanvas ed))) after_undo
  = Some (12, 12)
  /\ option_map
       (fun ed =>
          option_map (fun e => (Editor.width e, Editor.height e))
            (JS.index (Editor.history ed)
                      (Z.of_nat (length (Editor.history ed)) - 1)))
       after_undo
     = Some (Some (11, 11))
  /\ option_map
       (fun ed =>
          (Editor.historyIndex ed,
           option_map (fun e => (Editor.width e, Editor.height e))
                      (Editor.current ed)))
       after_undo
     = Some (0, Some (12, 12)).
Proof.
  repeat split; vm_compute; reflexivity.
Qed.

Lemma restore_shows_entry_under_cursor_witness :
  let crop := Editor.Crop {| Editor.x := 0; Editor.y := 0 |}
                          {| Editor.x := 11; Editor.y := 11 |} in
  exists ed1 ed2 ed3 e,
    Editor.loadImage (Raster.resize 12 12) Editor.fresh = JS.Ok ed1
    /\ Editor.perform crop ed1 = JS.Ok ed2
    /\ Editor.undo ed2 = JS.Ok ed3
    /\ Editor.current ed3 = Some e
    /\ Raster.width (Editor.mainCanvas ed3) = Editor.width e
    /\ Raster.height (Editor.mainCanvas ed3) = Editor.height e.
Proof.
  intro crop.
  destruct (Editor.loadImage (Raster.resize 12 12) Editor.fresh) as [ed1 |] eqn:H1;
    [| computed H1].
  destruct (Editor.perform crop ed1) as [ed2 |] eqn:H2;
    [| computed H1; computed H2].
  destruct (Editor.undo ed2) as [ed3 |] eqn:H3;
    [| computed H1; computed H2; computed H3].
  destruct (Editor.current ed3) as [e |] eqn:H4;
    [| computed H1; computed H2; computed H3; computed H4].
  exists ed1, ed2, ed3, e.
  do 4 (split; [first [assumption | reflexivity] |]).
  apply (EditorProofs.restore_shows_entry_under_cursor ed2 ed3 e);
    [| left; exact H3 | exact H4].
  eapply EditorProofs.reachable_perform; [| exact H2].
  eapply Editor.reach_loadImage; [exact reachable_fresh | | exact H1].
  apply Facts.wf_grid_blank; apply Z.leb_le; reflexivity.
Defined.

Lemma undo_then_redo_round_trip_witness :
  let edits := [Editor.Stroke [(0, 0, 7)]; Editor.Stroke [(1, 1, 9)];
                Editor.Stroke [(0, 1, 5)]] in
  exists ed0 ed1 ed2 ed3,
    Editor.loadImage (Raster.resize 2 2) Editor.fresh = JS.Ok ed0
    /\ Editor.perform_all edits ed0 = JS.Ok ed1
    /\ Editor.times 3 Editor.undo ed1 = JS.Ok ed2
    /\ Editor.times 3 Editor.redo ed2 = JS.Ok ed3
    /\ Editor.mainCanvas ed3 = Editor.mainCanvas ed1.
Proof.
  intro edits.
  destruct (Editor.loadImage (Raster.resize 2 2) Editor.fresh) as [ed0 |] eqn:H0;
    [| computed H0].
  destruct (Editor.perform_all edits ed0) as [ed1 |] eqn:H1;
    [| computed H0; computed H1].
  destruct (EditorProofs.undo_then_redo_round_trip ed0 ed1 edits)
    as (ed2 & ed3 & Hundo & Hredo & Hsame & _).
  - eapply Editor.reach_loadImage; [exact reachable_fresh | | exact H0].
    apply Facts.wf_grid_blank; apply Z.leb_le; reflexivity.
  - repeat constructor.
  - apply Z.leb_le. reflexivity.
  - exact H1.
  - exists ed0, ed1, ed2, ed3.
    do 4 (split; [first [assumption | reflexivity] |]). exact Hsame.
Defined.

Lemma edit_after_undo_discards_redo_witness :
  let edits := [Editor.Stroke [(0, 0, 7)]; Editor.Stroke [(1, 1, 9)]] in
  exists ed0 ed ed',
    Editor.perform_all edits Editor.fresh = JS.Ok ed0
    /\ Editor.times 1 Editor.undo ed0 = JS.Ok ed
    /\ Editor.perform (Editor.Stroke [(0, 1, 5)]) ed = JS.Ok ed'
    /\ length (Editor.history ed0) = 2%nat
    /\ Editor.history ed'
       = firstn 1 (Editor.history ed0)
         ++ [Editor.snapshot (Editor.mainCanvas ed')]
    /\ Editor.redo ed' = JS.Ok ed'.
Proof.
  intro edits.
  destruct (Editor.perform_all edits Editor.fresh) as [ed0 |] eqn:H0;
    [| computed H0].
  destruct (Editor.times 1 Editor.undo ed0) as [ed |] eqn:H1;
    [| computed H0; computed H1].
  destruct (Editor.perform (Editor.Stroke [(0, 1, 5)]) ed) as [ed' |] eqn:H2;
    [| computed H0; computed H1; computed H2].
  assert (Hlen : length (Editor.history ed0) = 2%nat)
    by (pose proof H0 as H0'; computed H0'; reflexivity).
  destruct (EditorProofs.edit_after_undo_discards_redo
              ed0 ed ed' 1 (Editor.Stroke [(0, 1, 5)]))
    as (Hhist & _ & Hredo & _).
  - eapply EditorProofs.reachable_perform_all;
      [exact reachable_fresh | exact H0].
  - pose proof H0 as H0'. computed H0'. reflexivity.
  - apply le_n.
  - pose proof H0 as H0'. computed H0'. apply Z.leb_le. reflexivity.
  - exact H1.
  - exact I.
  - exact H2.
  - exists ed0, ed, ed'. rewrite Hlen in Hhist.
    do 4 (split; [first [assumption | reflexivity] |]).
    split; assumption.
Defined.

Lemma saveState_cursor_on_newest_witness :
  let edits := repeat (Editor.Stroke [(0, 0, 7)]) 20 in
  exists ed ed',
    Editor.perform_all edits Editor.fresh = JS.Ok ed
    /\ Editor.saveState ed = JS.Ok ed'
    /\ length (Editor.history ed) = 20%nat
    /\ length (Editor.history ed') = 20%nat
    /\ Editor.historyIndex ed' = 19
    /\ Editor.history ed'
       = tl (Editor.history ed) ++ [Editor.snapshot (Editor.mainCanvas ed)].
Proof.
  intro edits.
  destruct (Editor.perform_all edits Editor.fresh) as [ed |] eqn:H0;
    [| computed H0].
  destruct (Editor.saveState ed) as [ed' |] eqn:H1;
    [| computed H0; computed H1].
  assert (Hlen : length (Editor.history ed) = 20%nat)
    by (pose proof H0 as H0'; computed H0'; reflexivity).
  assert (Hidx : Editor.historyIndex ed = 19)
    by (pose proof H0 as H0'; computed H0'; reflexivity).
  destruct (EditorProofs.saveState_cursor_on_newest ed ed')
    as (Htop & Hcap & _ & Hfull);
    [eapply EditorProofs.reachable_perform_all;
       [exact reachable_fresh | exact H0]
    | exact H1 |].
  destruct Hfull as [Hhist Hlast];
    [rewrite Hlen; reflexivity | rewrite Hidx; reflexivity |].
  exists ed, ed'.
  do 3 (split; [first [assumption | reflexivity] |]).
  split; [| split; [exact Hlast | exact Hhist]].
  rewrite Hhist, length_app. destruct (Editor.history ed); [discriminate |].
  cbn [tl length] in *. lia.
Defined.

(** ** Further cases *)

(** A page 25 high under a viewport 10 high, ratio 2, scrolled to 7: three
    segments, the last captured at scroll position 15; the editor gets the
    document's 50 rows and the page is left at 7. *)
Lemma full_page_is_document_top_witness :
  let page := {| Reference.page_width := 3; Reference.page_height := 25;
                 Reference.view_width := 3; Reference.view_height := 10;
                 Reference.ratio := 2;
                 Reference.document := Reference.ruled 6 50;
                 Reference.position := 7 |} in
  captureFullPage 4 page initial
  = Some (JS.Ok (page,
                 openEditor {| cwidth := 6; cheight := 50;
                               surface := Some (Reference.ruled 6 50) |}
                            initial)).
Proof.
  intro page.
  apply (ReferenceProofs.full_page_is_document_top 4 page initial).
  - cbn. lia.
  - reflexivity.
  - reflexivity.
  - reflexivity.
  - unfold Raster.wf_grid. cbn.
    split; [lia | split; [lia | split; [reflexivity |]]].
    repeat constructor.
  - apply Nat.ltb_lt. reflexivity.
Defined.

(** A page 5 high in a window with no height. *)
Lemma empty_viewport_never_returns_witness :
  captureCount (getPageDimensions (Reference.strip 5 0)) = JS.PosInf
  /\ capture_segments 1000 (Reference.strip 5 0) = None
  /\ captureFullPage 1000 (Reference.strip 5 0) initial = None.
Proof.
  apply (BackgroundProofs.empty_viewport_never_returns
           1000 (Reference.strip 5 0) initial); reflexivity.
Defined.

(** Twenty-five strokes on a fresh editor: twenty entries are kept. *)
Lemma history_bounded_witness :
  let edits := repeat (Editor.Stroke [(0, 0, 7)]) 25 in
  exists ed,
    Editor.perform_all edits Editor.fresh = JS.Ok ed
    /\ length (Editor.history ed) = 20%nat
    /\ Z.of_nat (length (Editor.history ed)) <= Editor.maxHistory
    /\ -1 <= Editor.historyIndex ed
       <= Z.of_nat (length (Editor.history ed)) - 1.
Proof.
  intro edits.
  destruct (Editor.perform_all edits Editor.fresh) as [ed |] eqn:H0;
    [| computed H0].
  exists ed. split; [reflexivity |].
  split; [pose proof H0 as H0'; computed H0'; reflexivity |].
  apply (EditorProofs.history_bounded ed).
  eapply EditorProofs.reachable_perform_all;
    [exact reachable_fresh | exact H0].
Defined.

(** ** The selector's sessions *)

(** Escape as the first event. *)
Lemma selector_gone_once_it_has_spoken_witness :
  let s := fst (Content.run 2 [Content.KeyDown true] Content.init) in
  ContentStates.torn_down s
  /\ forall e,
       Content.is_timeout e = false -> Content.dispatch 2 e s = (s, []).
Proof.
  apply (SelectorProofs.selector_gone_once_it_has_spoken
           2 [Content.KeyDown true]).
  discriminate.
Defined.

(** A drag of 100 x 60 px, then Escape before the timer. *)
Lemma escape_does_not_recall_selection_witness :
  let press :=
    Content.MouseDown {| Content.clientX := 5; Content.clientY := 5 |} in
  let release := {| Content.clientX := 105; Content.clientY := 65 |} in
  snd (Content.run 2 [Content.MouseUp release; Content.KeyDown true;
                      Content.Timeout]
                   (fst (Content.run 2 [press] Content.init)))
  = [Messages.SELECTION_CANCELLED;
     Messages.SELECTION_COMPLETE
       {| Messages.x := 5; Messages.y := 5;
          Messages.width := 100; Messages.height := 60;
          Messages.devicePixelRatio := 2 |}].
Proof.
  intros press release.
  apply (SelectorProofs.escape_does_not_recall_selection 2 [press] release);
    [reflexivity | reflexivity
     | apply Z.leb_le; reflexivity | apply Z.leb_le; reflexivity].
Defined.

(** ** Region capture *)

(** A 10 x 12 rectangle at (3, 4) of a viewport 20 x 20, ratio 1. *)
Lemma region_capture_is_selected_rectangle_witness :
  let page := {| Reference.page_width := 20; Reference.page_height := 20;
                 Reference.view_width := 20; Reference.view_height := 20;
                 Reference.ratio := 1;
                 Reference.document := Reference.ruled 20 20;
                 Reference.position := 0 |} in
  let sel := {| Messages.x := 3; Messages.y := 4;
                Messages.width := 10; Messages.height := 12;
                Messages.devicePixelRatio := 1 |} in
  onMessage 1 (Messages.SELECTION_COMPLETE sel) page initial
  = Some (page,
          openEditor
            {| cwidth := 10; cheight := 12;
               surface :=
                 Some (sub_grid 3 4 10 12 (pixels (captureVisibleTab page))) |}
            initial,
          None).
Proof.
  intros page sel.
  refine (RegionProofs.region_capture_is_selected_rectangle
            1 sel page initial 3 4 10 12 _ _ _ _ _ _ _ _ _ _ _ _ _);
    try (apply Z.leb_le; reflexivity); try reflexivity.
  apply ReferenceProofs.capture_wf; apply Z.leb_le; reflexivity.
Defined.

(** A page two rows high under a viewport of three. *)
Lemma short_page_loses_its_top_witness :
  let tab := Reference.strip 2 3 in
  pixels (captureVisibleTab (scrollTo 0 tab)) = [[1]; [2]; [0]]
  /\ 0 < 2
  /\ captureFullPage 2 tab initial
     = Some (JS.Ok
               (tab,
                openEditor
                  {| cwidth := 1; cheight := 2; surface := Some [[2]; [0]] |}
                  initial)).
Proof.
  intro tab. split; [reflexivity |].
  refine (ShortPageProofs.short_page_loses_its_top
            2 tab initial 2 _ _ _ _ _ _ _ _ _ _ _ _);
    try reflexivity; try (apply Z.leb_le; reflexivity).
  - split; reflexivity.
  - apply ReferenceProofs.capture_wf; apply Z.leb_le; reflexivity.
Defined.

(** ** Edits and their undoing *)

Lemma undo_reverts_last_edit_witness :
  exists ed ed1 ed2,
    Editor.loadImage (Raster.resize 2 2) Editor.fresh = JS.Ok ed
    /\ Editor.perform (Editor.Stroke [(0, 0, 7)]) ed = JS.Ok ed1
    /\ Editor.mainCanvas ed1 <> Editor.mainCanvas ed
    /\ Editor.undo ed1 = JS.Ok ed2
    /\ Editor.mainCanvas ed2 = Editor.mainCanvas ed.
Proof.
  destruct (Editor.loadImage (Raster.resize 2 2) Editor.fresh) as [ed |] eqn:H0;
    [| computed H0].
  destruct (Editor.perform (Editor.Stroke [(0, 0, 7)]) ed) as [ed1 |] eqn:H1;
    [| computed H0; computed H1].
  assert (Hcur : Editor.current ed
                 = Some (Editor.snapshot (Raster.resize 2 2)))
    by (pose proof H0 as H0'; computed H0'; reflexivity).
  assert (Hsync : Editor.synced ed).
  { pose proof H0 as H0'. computed H0'. intros e He.
    vm_compute in He. injection He as <-. reflexivity. }
  assert (Hnew : Editor.mainCanvas ed1 <> Editor.mainCanvas ed)
    by (pose proof H0 as H0'; pose proof H1 as H1'; computed H0';
        computed H1'; discriminate).
  destruct (EditingProofs.undo_reverts_last_edit
              ed ed1 (Editor.Stroke [(0, 0, 7)])
              (Editor.snapshot (Raster.resize 2 2))) as
    (ed2 & Hundo & _ & Hsame & _);
    [eapply Editor.reach_loadImage; [exact reachable_fresh | | exact H0];
     apply Facts.wf_grid_blank; apply Z.leb_le; reflexivity
    | exact Hcur | exact I | exact H1 |].
  exists ed, ed1, ed2.
  split; [reflexivity |]. split; [exact H1 |]. split; [exact Hnew |].
  split; [exact Hundo | exact (Hsame Hsync)].
Defined.

(** A crop of 11 x 12 out of a ruled image 12 x 14. *)
Lemma crop_keeps_selected_rectangle_witness :
  let img := {| width := 12; height := 14;
                pixels := Reference.ruled 12 14 |} in
  let a := {| Editor.x := 12; Editor.y := 1 |} in
  let b := {| Editor.x := 1; Editor.y := 13 |} in
  exists ed ed',
    Editor.loadImage img Editor.fresh = JS.Ok ed
    /\ Editor.perform (Editor.Crop a b) ed = JS.Ok ed'
    /\ Editor.mainCanvas ed'
       = {| width := 11; height := 12;
            pixels := sub_grid 1 1 11 12 (Reference.ruled 12 14) |}.
Proof.
  intros img a b.
  destruct (Editor.loadImage img Editor.fresh) as [ed |] eqn:H0;
    [| computed H0].
  assert (Hc : Editor.mainCanvas ed = img)
    by (pose proof H0 as H0'; computed H0'; reflexivity).
  assert (Hwf : wf_bitmap img).
  { split; [apply Z.leb_le; reflexivity |].
    split; [apply Z.leb_le; reflexivity |].
    split; [reflexivity | repeat constructor]. }
  destruct (EditingProofs.crop_keeps_selected_rectangle ed a b)
    as (ed' & Hcrop & Hcanvas & _);
    [eapply Editor.reach_loadImage; [exact reachable_fresh | exact Hwf
                                     | exact H0]
    | split; reflexivity
    | rewrite Hc; split; apply Z.leb_le; reflexivity..
    |].
  exists ed, ed'. rewrite Hc in Hcanvas.
  split; [reflexivity |]. split; [exact Hcrop | exact Hcanvas].
Defined.

Lemma small_crop_is_dropped_witness :
  let a := {| Editor.x := 0; Editor.y := 0 |} in
  let b := {| Editor.x := 10; Editor.y := 50 |} in
  exists ed',
    Editor.perform (Editor.Crop a b) Editor.fresh = JS.Ok ed'
    /\ Editor.mainCanvas ed' = Editor.mainCanvas Editor.fresh
    /\ Editor.history ed' = Editor.history Editor.fresh
    /\ Editor.historyIndex ed' = Editor.historyIndex Editor.fresh
    /\ Editor.cropStart ed' = None /\ Editor.cropEnd ed' = None
    /\ Editor.isCropping ed' = false.
Proof.
  intros a b.
  apply (EditingProofs.small_crop_is_dropped Editor.fresh a b).
  left. apply Z.leb_le. reflexivity.
Defined.

(** Three strokes on a loaded image, then five undos. *)
Lemma undo_redo_stop_at_ends_witness :
  let edits := [Editor.Stroke [(0, 0, 7)]; Editor.Stroke [(1, 1, 9)];
                Editor.Stroke [(0, 1, 5)]] in
  exists ed0 ed ed' e0,
    Editor.loadImage (Raster.resize 2 2) Editor.fresh = JS.Ok ed0
    /\ Editor.perform_all edits ed0 = JS.Ok ed
    /\ Editor.times 5 Editor.undo ed = JS.Ok ed'
    /\ JS.index (Editor.history ed) 0 = Some e0
    /\ Editor.mainCanvas ed' = Editor.restored e0
    /\ Editor.historyIndex ed' = 0.
Proof.
  intro edits.
  destruct (Editor.loadImage (Raster.resize 2 2) Editor.fresh) as [ed0 |] eqn:H0;
    [| computed H0].
  destruct (Editor.perform_all edits ed0) as [ed |] eqn:H1;
    [| computed H0; computed H1].
  assert (Hidx : Editor.historyIndex ed = 3)
    by (pose proof H0 as H0'; pose proof H1 as H1'; computed H0';
        computed H1'; reflexivity).
  destruct (EditingProofs.undo_redo_stop_at_ends ed 5) as [Hundo _].
  { eapply EditorProofs.reachable_perform_all; [| exact H1].
    eapply Editor.reach_loadImage; [exact reachable_fresh | | exact H0].
    apply Facts.wf_grid_blank; apply Z.leb_le; reflexivity. }
  destruct Hundo as (ed' & e0 & Hrun & He0 & Hcanvas & _ & Hat);
    [rewrite Hidx; split; [reflexivity | apply Z.leb_le; reflexivity] |].
  exists ed0, ed, ed', e0.
  split; [reflexivity |]. split; [exact H1 |]. split; [exact Hrun |].
  split; [exact He0 |]. split; [exact Hcanvas | exact Hat].
Defined.

(** Three strokes on a loaded image, all undone. *)
Lemma undo_all_returns_loaded_image_witness :
  let img := {| width := 2; height := 2; pixels := [[1; 1]; [2; 2]] |} in
  let edits := [Editor.Stroke [(0, 0, 7)]; Editor.Stroke [(1, 1, 9)];
                Editor.Stroke [(0, 1, 5)]] in
  exists ed1 ed2 ed3,
    Editor.loadImage img Editor.fresh = JS.Ok ed1
    /\ Editor.perform_all edits ed1 = JS.Ok ed2
    /\ Editor.mainCanvas ed2 <> img
    /\ Editor.times 3 Editor.undo ed2 = JS.Ok ed3
    /\ Editor.mainCanvas ed3 = img.
Proof.
  intros img edits.
  destruct (Editor.loadImage img Editor.fresh) as [ed1 |] eqn:H0;
    [| computed H0].
  destruct (Editor.perform_all edits ed1) as [ed2 |] eqn:H1;
    [| computed H0; computed H1].
  assert (Hnew : Editor.mainCanvas ed2 <> img)
    by (pose proof H0 as H0'; pose proof H1 as H1'; computed H0';
        computed H1'; discriminate).
  destruct (EditingProofs.undo_all_returns_loaded_image
              2 2 2 2 img ed1 ed2 edits)
    as (ed3 & Hundo & Hcanvas & _);
    try reflexivity; try (apply Z.leb_le; reflexivity);
    [| exact H0 | repeat constructor | exact H1 |].
  - split; [apply Z.leb_le; reflexivity |].
    split; [apply Z.leb_le; reflexivity |].
    split; [reflexivity | repeat constructor].
  - exists ed1, ed2, ed3.
    split; [reflexivity |]. split; [exact H1 |]. split; [exact Hnew |].
    split; [exact Hundo | exact Hcanvas].
Defined.

Lemma pen_clicks_fill_history_witness :
  exists ed',
    Editor.perform_all (repeat (Editor.Stroke []) 20) Editor.fresh = JS.Ok ed'
    /\ Editor.mainCanvas ed' = Editor.mainCanvas Editor.fresh
    /\ Editor.history ed'
       = repeat (Editor.snapshot (Editor.mainCanvas Editor.fresh)) 20
    /\ Editor.historyIndex ed' = 19.
Proof.
  apply (EditingProofs.pen_clicks_fill_history Editor.fresh reachable_fresh);
    reflexivity.
Defined.

(** ** The editor's page *)

Import String.StringSyntax.
#[local] Open Scope string_scope.
#[local] Open Scope Z_scope.

(** An editor on two fresh canvases, with a tool chosen. *)
Definition session (tool : Editor.Tool) : EditorUI.Session :=
  EditorUI.with_editor
    (Editor.setTool tool Editor.fresh)
    (EditorUI.start (Raster.resize 2 2) (Raster.resize 2 2)).

(** Ctrl+C (with Caps Lock on). *)
Lemma keys_other_than_undo_keep_image_witness :
  let e := {| EditorUI.key := "C"; EditorUI.ctrlKey := true;
              EditorUI.metaKey := false; EditorUI.shiftKey := false |} in
  let s := session Editor.select in
  exists s' out,
    EditorUI.onKeyDown e s = JS.Ok (s', out)
    /\ Editor.mainCanvas (EditorUI.editor s')
       = Editor.mainCanvas (EditorUI.editor s)
    /\ Editor.history (EditorUI.editor s') = Editor.history (EditorUI.editor s)
    /\ Editor.historyIndex (EditorUI.editor s')
       = Editor.historyIndex (EditorUI.editor s)
    /\ Forall (fun x =>
                 x = EditorUI.copied (Editor.mainCanvas (EditorUI.editor s))
                 \/ x = EditorUI.downloaded
                          (Editor.mainCanvas (EditorUI.editor s))) out.
Proof.
  intros e s.
  apply (EditorUIProofs.keys_other_than_undo_keep_image e s). reflexivity.
Defined.

(** A page three rows high under a viewport of the same height. *)
Lemma editor_opens_on_visible_capture_witness :
  let tab := Reference.strip 3 3 in
  let shot := captureVisibleTab tab in
  let blank := Editor.constructor (Raster.resize 2 2) (Raster.resize 2 2) in
  exists st1 st2 answer1 answer2 ed,
    onMessage 1 (Messages.CAPTURE_REQUEST Messages.act_visible) tab initial
    = Some (tab, st1, Some success_true)
    /\ onMessage 1 Messages.GET_PENDING_CAPTURE tab st1
       = Some (tab, st2, Some answer1)
    /\ EditorUI.loadCapturedImage (Some answer1) blank
       = Some (JS.Ok (ed, EditorUI.screenshot_loaded))
    /\ Editor.mainCanvas ed = shot
    /\ Editor.history ed = [Editor.snapshot shot]
    /\ Editor.historyIndex ed = 0
    /\ Editor.undo ed = JS.Ok ed /\ Editor.redo ed = JS.Ok ed
    /\ onMessage 1 Messages.GET_PENDING_CAPTURE tab st2
       = Some (tab, st2, Some answer2)
    /\ EditorUI.loadCapturedImage (Some answer2) blank
       = Some (JS.Ok (blank, EditorUI.no_screenshot_data)).
Proof.
  intros tab shot blank.
  apply (EditorUIProofs.editor_opens_on_visible_capture
           1 tab initial (Raster.resize 2 2) (Raster.resize 2 2));
    [| reflexivity | reflexivity].
  apply ReferenceProofs.capture_wf; apply Z.leb_le; reflexivity.
Defined.

(** A drag of three moves, the second off the canvas. *)
Lemma pen_drag_is_one_stroke_witness :
  let at_ := {| Content.clientX := 0; Content.clientY := 0 |} in
  let p := {| Editor.x := 0; Editor.y := 0 |} in
  let moves := [(Some p, [(0, 0, 7)], at_); (None, [(1, 1, 9)], at_);
                (Some p, [(0, 1, 5)], at_)] in
  let s := session Editor.pen in
  EditorUI.pointers
    [EditorUI.Down (Some p) at_ (0, 0);
     EditorUI.Move (Some p) [(0, 0, 7)] at_;
     EditorUI.Move None [(1, 1, 9)] at_;
     EditorUI.Move (Some p) [(0, 1, 5)] at_;
     EditorUI.Up] s
  = (ed <- Editor.perform (Editor.Stroke [(0, 0, 7); (0, 1, 5)])
             (EditorUI.editor s) ;;
     JS.Ok (EditorUI.with_editor ed s)).
Proof.
  intros at_ p moves s.
  apply (EditorUIProofs.pen_drag_is_one_stroke s p at_ (0, 0) moves).
  reflexivity.
Defined.

(** A drag from (1, 1) over (5, 5) to (13, 14). *)
Lemma crop_drag_is_one_crop_witness :
  let at_ := {| Content.clientX := 0; Content.clientY := 0 |} in
  let a := {| Editor.x := 1; Editor.y := 1 |} in
  let m := {| Editor.x := 5; Editor.y := 5 |} in
  let b := {| Editor.x := 13; Editor.y := 14 |} in
  let s := session Editor.crop in
  exists s1,
    EditorUI.pointers
      [EditorUI.Down (Some a) at_ (0, 0);
       EditorUI.Move (Some m) [] at_;
       EditorUI.Move (Some b) [] at_;
       EditorUI.Move None [] at_;
       EditorUI.Up] s
    = JS.Ok s1
    /\ EditorUI.view s1 = EditorUI.view s
    /\ Editor.applyCrop (EditorUI.editor s1)
       = Editor.perform (Editor.Crop a b) (EditorUI.editor s).
Proof.
  intros at_ a m b s.
  apply (EditorUIProofs.crop_drag_is_one_crop
           s a at_ (0, 0)
           [(Some m, [], at_); (Some b, [], at_); (None, [], at_)]).
  reflexivity.
Defined.

Lemma tool_switch_leaves_stroke_open_witness :
  let at_ := {| Content.clientX := 0; Content.clientY := 0 |} in
  let p := {| Editor.x := 0; Editor.y := 0 |} in
  let s := session Editor.pen in
  exists s',
    EditorUI.inputs
      [EditorUI.on_canvas (EditorUI.Down (Some p) at_ (0, 0));
       EditorUI.on_key (EditorUI.plain "v");
       EditorUI.on_canvas EditorUI.Up;
       EditorUI.on_key (EditorUI.plain "p");
       EditorUI.on_canvas (EditorUI.Move (Some p) [(1, 1, 9)] at_)] s
    = JS.Ok s'
    /\ Editor.isDrawing (EditorUI.editor s') = true
    /\ Editor.currentTool (EditorUI.editor s') = Editor.pen
    /\ pixels (Editor.mainCanvas (EditorUI.editor s')) = [[0; 0]; [0; 9]]
    /\ Editor.history (EditorUI.editor s') = []
    /\ Editor.historyIndex (EditorUI.editor s') = -1.
Proof.
  intros at_ p s.
  apply (EditorUIProofs.tool_switch_leaves_stroke_open
           s p p at_ at_ (0, 0) [(1, 1, 9)]).
  reflexivity.
Defined.

End Cases.
